(** * OpenMarch: step sizes, registered actions and the canvas

    A shallow embedding of three parts of the OpenMarch sources:

    - [StepSize] (the class of the same name): the step-size metric of a
      move, its display string, the batch form and the min/max query;
    - [Actions] ([RegisteredActionsHandler]): the action registry, the
      keyboard dictionary, [triggerAction] and [handleKeyDown];
    - [Canvas] ([OpenMarchCanvas]): [renderMarchers] and the mouse-wheel
      zoom handler.

    JavaScript numbers are IEEE 754 binary64 values, so they are embedded
    as Rocq's primitive floats: every arithmetic step of the sources is
    the same operation on the same bits, [NaN] and the infinities
    included.  Database identities are integers and are embedded as [Z]. *)

From Stdlib Require Import ZArith List Bool String Ascii Lia.
From Stdlib Require Import DecimalString.
From Stdlib Require Import Floats.
Import ListNotations.

(* ================================================================== *)
(** * Part I: the embedding *)
(* ================================================================== *)

(** ** JavaScript numbers and arrays *)

Module Js.

Local Open Scope float_scope.

(** [ToBoolean] of a Number: [+0], [-0] and [NaN] are falsy. *)
Definition truthy (x : float) : bool := negb (is_zero x || is_nan x).

(** [!x] on a Number. *)
Definition not (x : float) : bool := negb (truthy x).

Definition Number_isNaN (x : float) : bool := is_nan x.

(** [x === y] and [x > y] on Numbers. *)
Definition strict_eq (x y : float) : bool := x =? y.
Definition gt (x y : float) : bool := y <? x.
Definition lt (x y : float) : bool := x <? y.

Definition Math_abs (x : float) : float := abs x.
Definition Math_sqrt (x : float) : float := sqrt x.

(** An integer of magnitude below [2^63] as a Number. *)
Definition of_Z (k : Z) : float :=
  match k with
  | Z0 => 0
  | Zpos _ => of_uint63 (Uint63.of_Z k)
  | Zneg _ => - of_uint63 (Uint63.of_Z (- k))
  end.

(** [Math.round]: the integer nearest to [x], ties towards [+∞]; a
    result of zero keeps the sign of [x]; [NaN], the infinities and the
    zeros are returned unchanged.  The value of a finite float is
    [±m * 2^e], so for [e < 0] the result is
    [floor ((±2m + 2^-e) / 2^(1-e))]. *)
Definition Math_round (x : float) : float :=
  match Prim2SF x with
  | S754_finite s m e =>
      if (0 <=? e)%Z then x
      else
        let n := if s then Zneg m else Zpos m in
        let k := Z.shiftr (2 * n + 2 ^ (- e)) (1 - e) in
        if (k =? 0)%Z then (if s then neg_zero else zero) else of_Z k
  | _ => x
  end.

(** *** [Number.prototype.toLocaleString] in the [en-US] locale

    Default options: at most three fraction digits, rounded half away
    from zero, trailing zeros dropped, integer digits grouped by
    three. *)

Definition digits_of_N (n : N) : list ascii :=
  list_ascii_of_string (NilZero.string_of_uint (N.to_uint n)).

(** Groups a reversed digit list in threes. *)
Fixpoint group3_rev (ds : list ascii) (k : nat) : list ascii :=
  match ds with
  | [] => []
  | d :: ds' =>
      match k with
      | O => ","%char :: d :: group3_rev ds' 2
      | S k' => d :: group3_rev ds' k'
      end
  end.

Definition group3 (ds : list ascii) : list ascii :=
  rev (group3_rev (rev ds) 3).

(** The three fraction digits of [f < 1000], without trailing zeros. *)
Definition fraction_digits (f : N) : list ascii :=
  let d1 := (f / 100)%N in
  let d2 := ((f / 10) mod 10)%N in
  let d3 := (f mod 10)%N in
  if (f =? 0)%N then []
  else if ((f mod 100) =? 0)%N then "."%char :: digits_of_N d1
  else if (d3 =? 0)%N then "."%char :: (digits_of_N d1 ++ digits_of_N d2)%list
  else "."%char :: (digits_of_N d1 ++ digits_of_N d2 ++ digits_of_N d3)%list.

(** [m * 2^e * 1000] rounded to an integer, halves away from zero. *)
Definition thousandths (m : positive) (e : Z) : N :=
  if (0 <=? e)%Z then Z.to_N (Zpos m * 2 ^ e * 1000)
  else Z.to_N ((2 * (Zpos m * 1000) + 2 ^ (- e)) / (2 * 2 ^ (- e))).

Definition infinity_sign : string :=
  String (ascii_of_nat 226)
    (String (ascii_of_nat 136) (String (ascii_of_nat 158) EmptyString)).

Definition toLocaleString_enUS (x : float) : string :=
  let sign (s : bool) := if s then "-"%string else ""%string in
  match Prim2SF x with
  | S754_nan => "NaN"
  | S754_infinity s => (sign s ++ infinity_sign)%string
  | S754_zero s => (sign s ++ "0")%string
  | S754_finite s m e =>
      let t := thousandths m e in
      (sign s
       ++ string_of_list_ascii
            (group3 (digits_of_N (t / 1000)) ++ fraction_digits (t mod 1000))%list)%string
  end.

(** *** Exponentiation

    [x ** y] is implementation-approximated in ECMAScript, so the
    functions that use it take the host's operation as an argument.
    [pow_integral] is the instance used to run examples: repeated
    multiplication for an integral exponent, and its reciprocal for a
    negative one. *)

Fixpoint pow_pos (x : float) (n : positive) : float :=
  match n with
  | xH => x
  | xO p => let y := pow_pos x p in y * y
  | xI p => let y := pow_pos x p in x * (y * y)
  end.

(** The integer [m * 2^e], when it is one. *)
Definition integral (m : positive) (e : Z) : option Z :=
  if (0 <=? e)%Z then Some (Zpos m * 2 ^ e)%Z
  else if (Zpos m mod 2 ^ (- e) =? 0)%Z then Some (Zpos m / 2 ^ (- e))%Z
  else None.

Definition pow_integral (x y : float) : float :=
  match Prim2SF y with
  | S754_zero _ => 1
  | S754_finite s m e =>
      match integral m e with
      | Some n =>
          let p := pow_pos x (Z.to_pos n) in
          if s then 1 / p else p
      | None => nan
      end
  | _ => nan
  end.

(** *** Arrays *)

(** [xs.filter(x => x !== undefined)]. *)
Fixpoint filterDefined {A} (xs : list (option A)) : list A :=
  match xs with
  | [] => []
  | Some x :: xs' => x :: filterDefined xs'
  | None :: xs' => filterDefined xs'
  end.

(** [xs[xs.length - 1]]. *)
Definition lastElement {A} (xs : list A) : option A :=
  nth_error xs (List.length xs - 1).

(** [Array.prototype.sort] with a comparator.  ECMAScript fixes the
    result when the comparator is consistent: the stable arrangement in
    which [x] precedes [y] unless [cmp x y > 0]; a comparator result of
    [NaN] counts as [+0].  Insertion from the right computes it. *)
Section Sort.
Context {A : Type} (cmp : A -> A -> float).

Fixpoint insert (x : A) (l : list A) : list A :=
  match l with
  | [] => [x]
  | y :: l' => if gt (cmp x y) 0 then y :: insert x l' else x :: l
  end.

Definition sort (l : list A) : list A := fold_right insert [] l.
End Sort.

End Js.

(** ** The data model

    The classes [Marcher], [Page], [MarcherPage] and [FieldProperties]
    are imported by the sources; the records keep the fields the sources
    read. *)

Module Marcher.
Record t := { id : Z; drill_number : string }.
End Marcher.

Module Page.
(** [order] is the page's index in the sequence of the drill. *)
Record t := { id : Z; order : Z; counts : float; name : string }.
End Page.

Module MarcherPage.
Record t := { id : Z; marcher_id : Z; page_id : Z; x : float; y : float }.

(** [{ ...marcherPage, page_id: p }]. *)
Definition with_page_id (mp : t) (p : Z) : t :=
  {| id := id mp; marcher_id := marcher_id mp; page_id := p;
     x := x mp; y := y mp |}.
End MarcherPage.

Module FieldProperties.
Record t := { pixelsPerStep : float }.
End FieldProperties.

(** ** [StepSize] *)

Module StepSize.

Local Open Scope float_scope.

Definition INCHES_PER_YARD : float := 36.

Record t := { stepsPerFiveYards : float; marcher_id : Z }.

Record MinMaxStepSizes := { min : option t; max : option t }.

Section WithHost.
(** The host's [**] and [Number.prototype.toLocaleString]. *)
Variable pow : float -> float -> float.
Variable toLocaleString : float -> string.

Definition calculateStepSize
    (startingX startingY endingX endingY counts pixelsPerStep : float)
    : float :=
  if Js.not counts then nan
  else
    let xDistance := Js.Math_abs (endingX - startingX) in
    let yDistance := Js.Math_abs (endingY - startingY) in
    let distanceInPixels :=
      Js.Math_sqrt (pow xDistance 2 + pow yDistance 2) in
    if Js.not distanceInPixels then infinity
    else
      let distanceIn8to5Steps := distanceInPixels / pixelsPerStep in
      let distanceCoveredInInches := distanceIn8to5Steps * 22.5 in
      let distanceInInchesPerStep := distanceCoveredInInches / counts in
      (INCHES_PER_YARD * 5) / distanceInInchesPerStep.

(** The constructor. *)
Definition new (marcher_id : Z)
    (startingX startingY endingX endingY counts : float)
    (fieldProperties : FieldProperties.t) : t :=
  {| marcher_id := marcher_id;
     stepsPerFiveYards :=
       calculateStepSize startingX startingY endingX endingY counts
         (FieldProperties.pixelsPerStep fieldProperties) |}.

Definition displayString (this : t) : string :=
  if Js.Number_isNaN (stepsPerFiveYards this) then "Undefined"
  else if Js.strict_eq (stepsPerFiveYards this) infinity then "Hold"
  else
    let roundedSteps := Js.Math_round (stepsPerFiveYards this * 10) / 10 in
    if Js.gt roundedSteps 64 then "Tiny"
    else (toLocaleString roundedSteps ++ " to 5")%string.

Definition createStepSizeForMarcher
    (startingPage : option MarcherPage.t) (endingPage : MarcherPage.t)
    (page : option Page.t) (fieldProperties : FieldProperties.t)
    : option t :=
  match startingPage, page with
  | Some startingPage, Some page =>
      Some (new (MarcherPage.marcher_id endingPage)
              (MarcherPage.x startingPage) (MarcherPage.y startingPage)
              (MarcherPage.x endingPage) (MarcherPage.y endingPage)
              (Page.counts page) fieldProperties)
  | _, _ => None
  end.

Definition createStepSizesForMarchers
    (marchers : list Marcher.t) (marcherPages : list MarcherPage.t)
    (page : Page.t) (fieldProperties : FieldProperties.t) : list t :=
  let startingPages :=
    filter (fun marcherPage =>
              (MarcherPage.page_id marcherPage =? Page.id page - 1)%Z)
           marcherPages in
  let endingPages :=
    filter (fun marcherPage =>
              (MarcherPage.page_id marcherPage =? Page.id page)%Z)
           marcherPages in
  Js.filterDefined
    (map (fun marcher =>
            let startingPage :=
              find (fun marcherPage =>
                      (MarcherPage.marcher_id marcherPage
                       =? Marcher.id marcher)%Z) startingPages in
            let endingPage :=
              find (fun marcherPage =>
                      (MarcherPage.marcher_id marcherPage
                       =? Marcher.id marcher)%Z) endingPages in
            match endingPage with
            | None => None
            | Some endingPage =>
                createStepSizeForMarcher startingPage endingPage
                  (Some page) fieldProperties
            end)
         marchers).

(** Smaller number means larger step size. *)
Definition compare (a b : t) : float :=
  stepsPerFiveYards b - stepsPerFiveYards a.

Definition getMinAndMaxStepSizesForMarchers
    (marchers : list Marcher.t) (marcherPages : list MarcherPage.t)
    (page : Page.t) (fieldProperties : FieldProperties.t)
    : MinMaxStepSizes :=
  let stepSizes :=
    Js.sort (fun o1 o2 => compare o1 o2)
      (createStepSizesForMarchers marchers marcherPages page
         fieldProperties) in
  if (List.length stepSizes =? 0)%nat
  then {| min := None; max := None |}
  else {| min := nth_error stepSizes 0; max := Js.lastElement stepSizes |}.
End WithHost.

End StepSize.

(** ** [RegisteredActionsHandler] *)

Module Actions.

Local Open Scope string_scope.

(** *** Strings *)

Definition lower_ascii (c : ascii) : ascii :=
  let n := nat_of_ascii c in
  if andb (65 <=? n)%nat (n <=? 90)%nat then ascii_of_nat (n + 32) else c.

Definition upper_ascii (c : ascii) : ascii :=
  let n := nat_of_ascii c in
  if andb (97 <=? n)%nat (n <=? 122)%nat then ascii_of_nat (n - 32) else c.

(** [toLowerCase] and [toUpperCase], on the ASCII letters of key names. *)
Fixpoint toLowerCase (s : string) : string :=
  match s with
  | EmptyString => EmptyString
  | String c s' => String (lower_ascii c) (toLowerCase s')
  end.

Fixpoint toUpperCase (s : string) : string :=
  match s with
  | EmptyString => EmptyString
  | String c s' => String (upper_ascii c) (toUpperCase s')
  end.

(** *** Keyboard shortcuts and registered actions *)

Module KeyboardShortcut.
Record t := { key : string; control : bool; alt : bool; shift : bool }.

(** The constructor lower-cases the key. *)
Definition new (key : string) (control alt shift : bool) : t :=
  {| key := toLowerCase key; control := control; alt := alt;
     shift := shift |}.

Definition toString (this : t) : string :=
  let keyStr :=
    if String.eqb (key this) " " then "Space" else toUpperCase (key this) in
  ((if control this then "Ctrl + " else "")
   ++ (if alt this then "Alt + " else "")
   ++ (if shift this then "Shift + " else "")
   ++ keyStr)%string.

Definition equal (this action : t) : bool :=
  String.eqb (key this) (key action)
  && Bool.eqb (control this) (control action)
  && Bool.eqb (alt this) (alt action)
  && Bool.eqb (shift this) (shift action).
End KeyboardShortcut.

Module RegisteredAction.
Record t := {
  keyboardShortcut : option KeyboardShortcut.t;
  desc : string;
  instructionalString : string;
  instructionalStringToggleOn : string;
  instructionalStringToggleOff : string }.

Definition new (keyboardShortcut : option KeyboardShortcut.t)
    (desc : string) (toggleOnStr toggleOffStr : option string) : t :=
  let keyString :=
    match keyboardShortcut with
    | Some k => (" [" ++ KeyboardShortcut.toString k ++ "]")%string
    | None => ""%string
    end in
  let instructionalString := (desc ++ keyString)%string in
  {| keyboardShortcut := keyboardShortcut;
     desc := desc;
     instructionalString := instructionalString;
     instructionalStringToggleOn :=
       match toggleOnStr with
       | Some s => (s ++ keyString)%string
       | None => instructionalString
       end;
     instructionalStringToggleOff :=
       match toggleOffStr with
       | Some s => (s ++ keyString)%string
       | None => instructionalString
       end |}.
End RegisteredAction.

Inductive RegisteredActionsEnum :=
| nextPage | lastPage | previousPage | firstPage | playPause
| setAllMarchersToPreviousPage | setSelectedMarcherToPreviousPage
| snapToNearestWhole | lockX | lockY
| toggleNextPagePaths | togglePreviousPagePaths.

(** [Object.values(RegisteredActionsEnum)]: declaration order. *)
Definition RegisteredActionsEnum_values : list RegisteredActionsEnum :=
  [ nextPage; lastPage; previousPage; firstPage; playPause;
    setAllMarchersToPreviousPage; setSelectedMarcherToPreviousPage;
    snapToNearestWhole; lockX; lockY;
    toggleNextPagePaths; togglePreviousPagePaths ].

Definition shortcut (key : string) (control alt shift : bool)
    : option KeyboardShortcut.t :=
  Some (KeyboardShortcut.new key control alt shift).

Definition RegisteredActionsObjects (action : RegisteredActionsEnum)
    : RegisteredAction.t :=
  match action with
  | nextPage =>
      RegisteredAction.new (shortcut "e" false false false)
        "Next page" None None
  | lastPage =>
      RegisteredAction.new (shortcut "e" false false true)
        "Last page" None None
  | previousPage =>
      RegisteredAction.new (shortcut "q" false false false)
        "Previous page" None None
  | firstPage =>
      RegisteredAction.new (shortcut "q" false false true)
        "First page" None None
  | playPause =>
      RegisteredAction.new (shortcut " " false false false)
        "Play or pause" (Some "Play"%string) (Some "Pause"%string)
  | setAllMarchersToPreviousPage =>
      RegisteredAction.new (shortcut "p" true false true)
        "Set all marcher coordinates to previous page" None None
  | setSelectedMarcherToPreviousPage =>
      RegisteredAction.new (shortcut "p" false false true)
        "Set selected marcher coordinates to previous page" None None
  | snapToNearestWhole =>
      RegisteredAction.new (shortcut "1" false false false)
        "Snap to nearest whole" None None
  | lockX =>
      RegisteredAction.new (shortcut "z" false false false)
        "Lock X axis" (Some "Lock X movement"%string)
        (Some "Enable X movement"%string)
  | lockY =>
      RegisteredAction.new (shortcut "x" false false false)
        "Lock Y axis" (Some "Lock Y movement"%string)
        (Some "Enable Y movement"%string)
  | togglePreviousPagePaths =>
      RegisteredAction.new (shortcut "n" false false false)
        "Toggle viewing previous page paths"
        (Some "Show previous page dots/paths"%string)
        (Some "Hide previous page dots/paths"%string)
  | toggleNextPagePaths =>
      RegisteredAction.new (shortcut "m" false false false)
        "Toggle viewing next page paths"
        (Some "Show next page dots/paths"%string)
        (Some "Hide next page dots/paths"%string)
  end.

(** *** Objects used as dictionaries

    An object with string keys, as an association list in insertion
    order; assigning to a key that is present replaces its value. *)
Section Dictionary.
Context {V : Type}.

Fixpoint Object_set (o : list (string * V)) (k : string) (v : V)
    : list (string * V) :=
  match o with
  | [] => [(k, v)]
  | (k', v') :: o' =>
      if String.eqb k' k then (k', v) :: o'
      else (k', v') :: Object_set o' k v
  end.

Fixpoint Object_get (o : list (string * V)) (k : string) : option V :=
  match o with
  | [] => None
  | (k', v') :: o' => if String.eqb k' k then Some v' else Object_get o' k
  end.

Definition Object_fromEntries (entries : list (string * V))
    : list (string * V) :=
  fold_left (fun o kv => Object_set o (fst kv) (snd kv)) entries [].
End Dictionary.

(** The dictionary the mounting effect stores in
    [keyboardShortcutDictionary.current]. *)
Definition keyboardShortcutDictionary
    : list (string * RegisteredActionsEnum) :=
  Object_fromEntries
    (map (fun action =>
            (match RegisteredAction.keyboardShortcut
                     (RegisteredActionsObjects action) with
             | Some k =>
                 let s := KeyboardShortcut.toString k in
                 if String.eqb s "" then ""%string else s
             | None => ""%string
             end,
             action))
         RegisteredActionsEnum_values).

(** *** Effects

    A handler runs to completion or throws; on the way it calls the
    setters of the stores, the persistence layer and the console.  The
    calls are recorded in the order they are made. *)

Module UiSettings.
Record t := {
  isPlaying : bool; lockX : bool; lockY : bool;
  previousPaths : bool; nextPaths : bool }.

Definition with_lockX (u : t) (b : bool) : t :=
  {| isPlaying := isPlaying u; lockX := b; lockY := lockY u;
     previousPaths := previousPaths u; nextPaths := nextPaths u |}.
Definition with_lockY (u : t) (b : bool) : t :=
  {| isPlaying := isPlaying u; lockX := lockX u; lockY := b;
     previousPaths := previousPaths u; nextPaths := nextPaths u |}.
Definition with_previousPaths (u : t) (b : bool) : t :=
  {| isPlaying := isPlaying u; lockX := lockX u; lockY := lockY u;
     previousPaths := b; nextPaths := nextPaths u |}.
Definition with_nextPaths (u : t) (b : bool) : t :=
  {| isPlaying := isPlaying u; lockX := lockX u; lockY := lockY u;
     previousPaths := previousPaths u; nextPaths := b |}.
End UiSettings.

Inductive Effect :=
| ConsoleError (msg : string)
| SetSelectedPage (page : Page.t)
| SetIsPlaying (playing : bool)
| UpdateMarcherPages (changes : list MarcherPage.t)
| SetUiSettings (settings : UiSettings.t) (changed : option string)
| PreventDefault.

Inductive JsError := TypeError (msg : string).

Inductive Completion (A : Type) :=
| Normal (a : A)
| Throw (e : JsError).
Arguments Normal {A} a.
Arguments Throw {A} e.

(** The calls made so far and how the computation completed. *)
Definition M (A : Type) : Type := (list Effect * Completion A)%type.

Definition ret {A} (a : A) : M A := ([], Normal a).
Definition throw {A} (e : JsError) : M A := ([], Throw e).
Definition emit (e : Effect) : M unit := ([e], Normal tt).
Definition lift {A} (c : Completion A) : M A := ([], c).

Definition bind {A B} (m : M A) (f : A -> M B) : M B :=
  match m with
  | (l, Normal a) => let (l', r) := f a in ((l ++ l')%list, r)
  | (l, Throw e) => (l, Throw e)
  end.

Notation "x <- m ;; k" := (bind m (fun x => k))
  (at level 61, m at next level, right associativity).
Notation "m ;; k" := (bind m (fun _ => k))
  (at level 61, right associativity).

(** [xs.find(p)] where evaluating [p] may throw. *)
Fixpoint Array_find {A} (p : A -> Completion bool) (xs : list A)
    : Completion (option A) :=
  match xs with
  | [] => Normal None
  | x :: xs' =>
      match p x with
      | Throw e => Throw e
      | Normal true => Normal (Some x)
      | Normal false => Array_find p xs'
      end
  end.

(** [n === o?.id] for a number [n]: false when [o] is absent. *)
Definition strict_eq_optional (n : Z) (o : option Z) : bool :=
  match o with
  | Some m => (n =? m)%Z
  | None => false
  end.

(** *** The collaborators the handler imports

    [Page]'s navigation functions and [getRoundCoordinates] are defined
    outside the handler; it is parameterised by them. *)
Record Collaborators := {
  Page_getNextPage : Page.t -> list Page.t -> option Page.t;
  Page_getPreviousPage : Page.t -> list Page.t -> option Page.t;
  Page_getFirstPage : list Page.t -> option Page.t;
  Page_getLastPage : list Page.t -> option Page.t;
  getRoundCoordinates :
    list (option MarcherPage.t) -> FieldProperties.t -> float ->
    bool -> bool -> Completion (list MarcherPage.t) }.

(** The values the hooks of the component return. *)
Record State := {
  pages : list Page.t;
  isPlaying : bool;
  marcherPages : list MarcherPage.t;
  selectedPage : option Page.t;
  selectedMarchers : list Marcher.t;
  fieldProperties : option FieldProperties.t;
  uiSettings : UiSettings.t }.

Section Handler.
Variable env : Collaborators.
Variable st : State.

(** Get the MarcherPages for the selected marchers on the selected
    page: one entry per selected marcher, [undefined] where the
    marcher has no record on the page. *)
Definition getSelectedMarcherPages : M (list (option MarcherPage.t)) :=
  match selectedPage st with
  | None => emit (ConsoleError "No selected page") ;; ret []
  | Some selectedPage =>
      let selectedPageMarcherPages :=
        filter (fun marcherPage =>
                  (MarcherPage.page_id marcherPage =? Page.id selectedPage)%Z)
               (marcherPages st) in
      ret (map (fun marcher =>
                  find (fun marcherPage =>
                          (MarcherPage.marcher_id marcherPage
                           =? Marcher.id marcher)%Z)
                       selectedPageMarcherPages)
               (selectedMarchers st))
  end.

Definition setSelectedPage_if (p : option Page.t) : M unit :=
  match p with
  | Some p => emit (SetSelectedPage p)
  | None => ret tt
  end.

(** Trigger a RegisteredAction. *)
Definition triggerAction (action : RegisteredActionsEnum) : M unit :=
  match selectedPage st with
  | None => emit (ConsoleError "No selected page")
  | Some selectedPage =>
  match fieldProperties st with
  | None => emit (ConsoleError "No field properties")
  | Some fieldProperties =>
  match action with
  (* Navigation and playback *)
  | nextPage =>
      setSelectedPage_if (Page_getNextPage env selectedPage (pages st))
  | lastPage =>
      setSelectedPage_if (Page_getLastPage env (pages st))
  | previousPage =>
      setSelectedPage_if (Page_getPreviousPage env selectedPage (pages st))
  | firstPage =>
      setSelectedPage_if (Page_getFirstPage env (pages st))
  | playPause =>
      emit (SetIsPlaying (negb (isPlaying st)))
  (* Batch editing *)
  | setAllMarchersToPreviousPage =>
      let previousPage :=
        Page_getPreviousPage env selectedPage (pages st) in
      let previousPageMarcherPages :=
        filter (fun marcherPage =>
                  strict_eq_optional (MarcherPage.page_id marcherPage)
                    (option_map Page.id previousPage))
               (marcherPages st) in
      let changes :=
        map (fun marcherPage =>
               MarcherPage.with_page_id marcherPage (Page.id selectedPage))
            previousPageMarcherPages in
      emit (UpdateMarcherPages changes)
  | setSelectedMarcherToPreviousPage =>
      let previousPage :=
        Page_getPreviousPage env selectedPage (pages st) in
      previousMarcherPage <-
        lift (Array_find
                (fun marcherPage =>
                   if strict_eq_optional (MarcherPage.page_id marcherPage)
                        (option_map Page.id previousPage)
                   then
                     match nth_error (selectedMarchers st) 0 with
                     | Some marcher =>
                         Normal (MarcherPage.marcher_id marcherPage
                                 =? Marcher.id marcher)%Z
                     | None =>
                         Throw (TypeError
                           "Cannot read properties of undefined (reading 'id')")
                     end
                   else Normal false)
                (marcherPages st)) ;;
      match previousMarcherPage with
      | Some previousMarcherPage =>
          emit (UpdateMarcherPages
                  [MarcherPage.with_page_id previousMarcherPage
                     (Page.id selectedPage)])
      | None => ret tt
      end
  (* Alignment *)
  | snapToNearestWhole =>
      selected <- getSelectedMarcherPages ;;
      roundedCoords <-
        lift (getRoundCoordinates env selected fieldProperties 1%float
                (negb (UiSettings.lockX (uiSettings st)))
                (negb (UiSettings.lockY (uiSettings st)))) ;;
      emit (UpdateMarcherPages roundedCoords)
  | lockX =>
      emit (SetUiSettings
              (UiSettings.with_lockX (uiSettings st)
                 (negb (UiSettings.lockX (uiSettings st))))
              (Some "lockX"))
  | lockY =>
      emit (SetUiSettings
              (UiSettings.with_lockY (uiSettings st)
                 (negb (UiSettings.lockY (uiSettings st))))
              (Some "lockY"))
  (* UI settings *)
  | toggleNextPagePaths =>
      emit (SetUiSettings
              (UiSettings.with_nextPaths (uiSettings st)
                 (negb (UiSettings.nextPaths (uiSettings st))))
              None)
  | togglePreviousPagePaths =>
      emit (SetUiSettings
              (UiSettings.with_previousPaths (uiSettings st)
                 (negb (UiSettings.previousPaths (uiSettings st))))
              None)
  end
  end
  end.

(** *** The keyboard listener *)

Record Element := { tagName : string; contenteditable : bool }.

(** [el.matches("input, textarea, select, [contenteditable]")]. *)
Definition matches_editable (el : Element) : bool :=
  String.eqb (toLowerCase (tagName el)) "input"
  || String.eqb (toLowerCase (tagName el)) "textarea"
  || String.eqb (toLowerCase (tagName el)) "select"
  || contenteditable el.

Record KeyboardEvent := {
  key : string; ctrlKey : bool; metaKey : bool;
  altKey : bool; shiftKey : bool }.

(** Handles the keyboard shortcuts; [activeElement] is
    [document.activeElement]. *)
Definition handleKeyDown (activeElement : option Element)
    (e : KeyboardEvent) : M unit :=
  if negb (match activeElement with
           | Some el => matches_editable el
           | None => false
           end)
  then
    let keyboardAction :=
      KeyboardShortcut.new (key e) (ctrlKey e || metaKey e)
        (altKey e) (shiftKey e) in
    let keyString := KeyboardShortcut.toString keyboardAction in
    match Object_get keyboardShortcutDictionary keyString with
    | Some action => triggerAction action ;; emit PreventDefault
    | None => ret tt
    end
  else ret tt.
End Handler.

End Actions.

(** ** Collaborators modelled from the specification *)

Module Collab.

Local Open Scope float_scope.

(** The better of two candidates: the one further along the sequence,
    or the one nearer its start. *)
Definition later (a b : Page.t) : Page.t :=
  if (Page.order a <? Page.order b)%Z then b else a.
Definition earlier (a b : Page.t) : Page.t :=
  if (Page.order b <? Page.order a)%Z then b else a.

Definition pick (better : Page.t -> Page.t -> Page.t)
    (acc : option Page.t) (p : Page.t) : option Page.t :=
  match acc with
  | None => Some p
  | Some a => Some (better a p)
  end.

(** Modelled from the spec: [Page.getPreviousPage], which the sources
    import from the [Page] class.  Pages are totally ordered by their
    sequence index; the previous page is the last one before the
    current page in that order, absent for the first page. *)
Definition getPreviousPage (current : Page.t) (allPages : list Page.t)
    : option Page.t :=
  fold_left (pick later)
    (filter (fun p => (Page.order p <? Page.order current)%Z) allPages)
    None.

(** Modelled from the spec: [Page.getNextPage], the first page after
    the current one in the sequence order. *)
Definition getNextPage (current : Page.t) (allPages : list Page.t)
    : option Page.t :=
  fold_left (pick earlier)
    (filter (fun p => (Page.order current <? Page.order p)%Z) allPages)
    None.

(** Modelled from the spec: [Page.getFirstPage] and [Page.getLastPage],
    the ends of the sequence order. *)
Definition getFirstPage (allPages : list Page.t) : option Page.t :=
  fold_left (pick earlier) allPages None.
Definition getLastPage (allPages : list Page.t) : option Page.t :=
  fold_left (pick later) allPages None.

(** A coordinate rounded to the nearest [1/denominator] of a step. *)
Definition roundCoordinate (pixelsPerStep denominator v : float) : float :=
  Js.Math_round (v / pixelsPerStep * denominator) / denominator
  * pixelsPerStep.

(** Modelled from the spec: [getRoundCoordinates] of
    [CoordinateActions], which the sources import.  Each position is
    rounded to the nearest [1/denominator] of a step along the axes
    that are enabled; reading the coordinates of an absent record
    throws. *)
Fixpoint getRoundCoordinates (marcherPages : list (option MarcherPage.t))
    (fieldProperties : FieldProperties.t) (denominator : float)
    (xAxis yAxis : bool) : Actions.Completion (list MarcherPage.t) :=
  match marcherPages with
  | [] => Actions.Normal []
  | None :: _ =>
      Actions.Throw (Actions.TypeError
        "Cannot read properties of undefined (reading 'x')")
  | Some mp :: rest =>
      match getRoundCoordinates rest fieldProperties denominator
              xAxis yAxis with
      | Actions.Throw e => Actions.Throw e
      | Actions.Normal rest' =>
          let pps := FieldProperties.pixelsPerStep fieldProperties in
          Actions.Normal
            ({| MarcherPage.id := MarcherPage.id mp;
                MarcherPage.marcher_id := MarcherPage.marcher_id mp;
                MarcherPage.page_id := MarcherPage.page_id mp;
                MarcherPage.x :=
                  if xAxis
                  then roundCoordinate pps denominator (MarcherPage.x mp)
                  else MarcherPage.x mp;
                MarcherPage.y :=
                  if yAxis
                  then roundCoordinate pps denominator (MarcherPage.y mp)
                  else MarcherPage.y mp |} :: rest')
      end
  end.

Definition collaborators : Actions.Collaborators :=
  {| Actions.Page_getNextPage := getNextPage;
     Actions.Page_getPreviousPage := getPreviousPage;
     Actions.Page_getFirstPage := getFirstPage;
     Actions.Page_getLastPage := getLastPage;
     Actions.getRoundCoordinates := getRoundCoordinates |}.

End Collab.

(** ** [OpenMarchCanvas] *)

Module Canvas.

Local Open Scope float_scope.
Local Set Warnings "-inexact-float".

(** The objects the canvas holds.  A live marker is a [CanvasMarcher];
    ghosts and pathways are kinds of their own. *)
Inductive Kind :=
| StaticGrid
| CanvasMarcher (marcherObj : Marcher.t) (coords : float * float)
| StaticCanvasMarcher (marcherObj : Marcher.t) (coords : float * float)
    (color : string)
| Pathway (start finish : MarcherPage.t) (color : string).

(** [oid] is the identity of the object: two references are the same
    object exactly when their [oid]s agree. *)
Record Object := { oid : nat; kind : Kind }.

Record t := {
  objects : list Object;             (* the canvas's object list      *)
  nextOid : nat;                     (* identity of the next [new]    *)
  zoom : float;                      (* [getZoom()]                   *)
  zoomPoint : option (float * float);(* the pivot of the last zoom    *)
  staticGridCaching : bool;          (* [staticGridRef.objectCaching] *)
  zoomTimeout : option nat;          (* handle of the pending timer   *)
  nextTimer : nat;
  renderRequests : nat;              (* calls of [requestRenderAll]   *)
  renders : nat;                     (* calls of [renderAll]          *)
  errors : list string }.            (* calls of [console.error]      *)

Definition with_objects (c : t) (os : list Object) (n : nat) : t :=
  {| objects := os; nextOid := n; zoom := zoom c; zoomPoint := zoomPoint c;
     staticGridCaching := staticGridCaching c;
     zoomTimeout := zoomTimeout c; nextTimer := nextTimer c;
     renderRequests := renderRequests c; renders := renders c;
     errors := errors c |}.

Definition console_error (c : t) (msg : string) : t :=
  {| objects := objects c; nextOid := nextOid c; zoom := zoom c;
     zoomPoint := zoomPoint c; staticGridCaching := staticGridCaching c;
     zoomTimeout := zoomTimeout c; nextTimer := nextTimer c;
     renderRequests := renderRequests c; renders := renders c;
     errors := (errors c ++ [msg])%list |}.

Definition requestRenderAll (c : t) : t :=
  {| objects := objects c; nextOid := nextOid c; zoom := zoom c;
     zoomPoint := zoomPoint c; staticGridCaching := staticGridCaching c;
     zoomTimeout := zoomTimeout c; nextTimer := nextTimer c;
     renderRequests := S (renderRequests c); renders := renders c;
     errors := errors c |}.

(** [this.add(new K(...))]: a fresh object at the end of the list.  The
    method is the rendering library's; with [renderOnAddRemove], which
    is on by default and which the canvas leaves on, it ends by calling
    [requestRenderAll]. *)
Definition add (c : t) (k : Kind) : t :=
  requestRenderAll
    (with_objects c (objects c ++ [{| oid := nextOid c; kind := k |}])%list
       (S (nextOid c))).

Definition isCanvasMarcher (o : Object) : bool :=
  match kind o with
  | CanvasMarcher _ _ => true
  | _ => false
  end.

(** [getObjectsByType(CanvasMarcher)]. *)
Definition getCanvasMarchers (c : t) : list Object :=
  filter isCanvasMarcher (objects c).

(** [canvasMarcher.marcherObj.id === id]. *)
Definition marcherObj_id_is (id : Z) (o : Object) : bool :=
  match kind o with
  | CanvasMarcher m _ => (Marcher.id m =? id)%Z
  | _ => false
  end.

(** The [CanvasMarcher] class is imported by the canvas, which calls
    its constructor and its method [setMarcherCoords].  Both act on the
    marker alone: the constructor places a new marker for a marcher and
    a position, the method moves the marker it is called on.  Where they
    put the marker is theirs to decide. *)
Record CanvasMarcherClass := {
  placed : Marcher.t -> MarcherPage.t -> float * float;
  moved : float * float -> MarcherPage.t -> float * float }.

Section Markers.
Variable CanvasMarcherOps : CanvasMarcherClass.

(** [curCanvasMarcher.setMarcherCoords(marcherPage)] on the object
    [target]: it stays the same object, bound to the same marcher. *)
Definition setMarcherCoords (target : nat) (mp : MarcherPage.t) (o : Object)
    : Object :=
  if (oid o =? target)%nat then
    match kind o with
    | CanvasMarcher m coords =>
        {| oid := oid o;
           kind := CanvasMarcher m (moved CanvasMarcherOps coords mp) |}
    | _ => o
    end
  else o.

(** The body of the [forEach] of [renderMarchers]; [curCanvasMarchers]
    is the list read once before the loop. *)
Definition renderMarcher (curCanvasMarchers : list Object)
    (allMarchers : list Marcher.t) (c : t) (marcherPage : MarcherPage.t)
    : t :=
  match find (marcherObj_id_is (MarcherPage.marcher_id marcherPage))
             curCanvasMarchers with
  | None =>
      match find (fun marcher =>
                    (Marcher.id marcher
                     =? MarcherPage.marcher_id marcherPage)%Z)
                 allMarchers with
      | None =>
          console_error c
            "Marcher object not found in the store for given MarcherPage  - renderMarchers: Canvas.tsx"
      | Some curMarcher =>
          add c (CanvasMarcher curMarcher
                   (placed CanvasMarcherOps curMarcher marcherPage))
      end
  | Some curCanvasMarcher =>
      with_objects c
        (map (setMarcherCoords (oid curCanvasMarcher) marcherPage)
             (objects c))
        (nextOid c)
  end.

(** Render the marchers for the current page. *)
Definition renderMarchers (c : t) (selectedMarcherPages : list MarcherPage.t)
    (allMarchers : list Marcher.t) : t :=
  let curCanvasMarchers := getCanvasMarchers c in
  requestRenderAll
    (fold_left (renderMarcher curCanvasMarchers allMarchers)
       selectedMarcherPages c).
End Markers.

(** *** Zooming with the mouse wheel *)

Record WheelEvent := { deltaY : float; offsetX : float; offsetY : float }.

(** What the handler did to the event. *)
Record EventFlags := { defaultPrevented : bool; propagationStopped : bool }.

(** Modelled from the spec: fabric's [zoomToPoint (point, value)], a
    method of the rendering library.  The zoom becomes [value], pivoted
    at [point]; the method sets the viewport transform, which ends by
    calling [requestRenderAll]. *)
Definition zoomToPoint (c : t) (point : float * float) (value : float) : t :=
  {| objects := objects c; nextOid := nextOid c; zoom := value;
     zoomPoint := Some point; staticGridCaching := staticGridCaching c;
     zoomTimeout := zoomTimeout c; nextTimer := nextTimer c;
     renderRequests := S (renderRequests c); renders := renders c;
     errors := errors c |}.

Definition set_objectCaching (c : t) (b : bool) : t :=
  {| objects := objects c; nextOid := nextOid c; zoom := zoom c;
     zoomPoint := zoomPoint c; staticGridCaching := b;
     zoomTimeout := zoomTimeout c; nextTimer := nextTimer c;
     renderRequests := renderRequests c; renders := renders c;
     errors := errors c |}.

(** [clearTimeout(this.zoomTimeout); this.zoomTimeout = setTimeout(..., 50)]:
    the pending timer, if any, is replaced by a new one. *)
Definition restartZoomTimeout (c : t) : t :=
  {| objects := objects c; nextOid := nextOid c; zoom := zoom c;
     zoomPoint := zoomPoint c; staticGridCaching := staticGridCaching c;
     zoomTimeout := Some (nextTimer c); nextTimer := S (nextTimer c);
     renderRequests := renderRequests c; renders := renders c;
     errors := errors c |}.

Section Wheel.
(** The host's [**]. *)
Variable pow : float -> float -> float.

(** The zoom the handler passes to [zoomToPoint]. *)
Definition wheelZoom (zoom0 delta : float) : float :=
  let zoom := zoom0 * pow 0.999 delta in
  let zoom := if Js.gt zoom 25 then 25 else zoom in
  let zoom := if Js.lt zoom 0.35 then 0.35 else zoom in
  zoom.

Definition handleMouseWheel (c : t) (e : WheelEvent) : t * EventFlags :=
  let c := if negb (staticGridCaching c)
           then set_objectCaching c true else c in
  let c := if negb (staticGridCaching c)
           then set_objectCaching c true else c in
  let delta := deltaY e in
  let c := zoomToPoint c (offsetX e, offsetY e)
             (wheelZoom (zoom c) delta) in
  (restartZoomTimeout c,
   {| defaultPrevented := true; propagationStopped := true |}).

(** A sequence of wheel events, one after the other. *)
Definition wheelEvents (c : t) (es : list WheelEvent) : t :=
  fold_left (fun c e => fst (handleMouseWheel c e)) es c.
End Wheel.

(** [this.renderAll()]: the canvas is drawn at once. *)
Definition renderAll (c : t) : t :=
  {| objects := objects c; nextOid := nextOid c; zoom := zoom c;
     zoomPoint := zoomPoint c; staticGridCaching := staticGridCaching c;
     zoomTimeout := zoomTimeout c; nextTimer := nextTimer c;
     renderRequests := renderRequests c; renders := S (renders c);
     errors := errors c |}.

(** The timer's callback, 50ms after the last wheel event. *)
Definition zoomTimeoutFires (c : t) : t :=
  if staticGridCaching c
  then
    let c := set_objectCaching c false in
    renderAll c
  else c.

End Canvas.

(** ** Reference definitions

    These follow the words of the specification, not the sources; the
    theorems of Part II compare them with the embedding above. *)

Module Reference.

Local Open Scope float_scope.

(** The classes of a step size. *)
Inductive StepClass :=
| Undefined
| Hold
| Tiny
| Numeric (rounded : float).

Section WithHost.
Variable pow : float -> float -> float.
Variable toLocaleString : float -> string.

(** The Euclidean pixel distance between start and end. *)
Definition distance (startX startY endX endY : float) : float :=
  sqrt (pow (abs (endX - startX)) 2 + pow (abs (endY - startY)) 2).

(** Steps per five yards: [180 / (((distance / pixelsPerStep) * 22.5) /
    counts)]. *)
Definition value (distance pixelsPerStep counts : float) : float :=
  let steps := distance / pixelsPerStep in
  let inches := steps * 22.5 in
  let inchesPerCount := inches / counts in
  180 / inchesPerCount.

Definition round_one_decimal (v : float) : float :=
  Js.Math_round (v * 10) / 10.

Definition stepSize (startX startY endX endY counts pixelsPerStep : float)
    : StepClass :=
  if counts =? 0 then Undefined
  else if distance startX startY endX endY =? 0 then Hold
  else
    let rounded :=
      round_one_decimal
        (value (distance startX startY endX endY) pixelsPerStep counts) in
    if 64 <? rounded then Tiny else Numeric rounded.

Definition display (c : StepClass) : string :=
  match c with
  | Undefined => "Undefined"
  | Hold => "Hold"
  | Tiny => "Tiny"
  | Numeric rounded => (toLocaleString rounded ++ " to 5")%string
  end.
End WithHost.

(** [clamp(x, lo, hi)]. *)
Definition clamp (x lo hi : float) : float :=
  if x <? lo then lo else if hi <? x then hi else x.

End Reference.

(** ** Notions used to state facts about floats *)

Module FloatOrder.

(** A key whose lexicographic order is the order of the numbers. *)
Definition rank (x : spec_float) : Z * Z * Z :=
  match x with
  | S754_nan => (0, 0, 0)
  | S754_zero _ => (0, 0, 0)
  | S754_infinity true => (-2, 0, 0)
  | S754_infinity false => (2, 0, 0)
  | S754_finite true m e => (-1, - e, Zneg m)
  | S754_finite false m e => (1, e, Zpos m)
  end%Z.

Definition lexcmp (a b : Z * Z * Z) : comparison :=
  let '(a1, a2, a3) := a in
  let '(b1, b2, b3) := b in
  match (a1 ?= b1)%Z with
  | Eq => match (a2 ?= b2)%Z with
          | Eq => (a3 ?= b3)%Z
          | c => c
          end
  | c => c
  end.

Definition lex_lt (a b : Z * Z * Z) : Prop :=
  let '(a1, a2, a3) := a in
  let '(b1, b2, b3) := b in
  (a1 < b1 \/ (a1 = b1 /\ (a2 < b2 \/ (a2 = b2 /\ a3 < b3))))%Z.

Definition is_number (x : spec_float) : bool :=
  match x with S754_nan => false | _ => true end.

(** A strictly positive float, infinite or not. *)
Definition positive_result (x : spec_float) : bool :=
  match x with
  | S754_finite false _ _ | S754_infinity false => true
  | _ => false
  end.

End FloatOrder.

(** ** Scenarios

    Concrete states on which the definitions are run. *)

Module Scenario.

Local Open Scope float_scope.
Local Open Scope string_scope.

Definition field : FieldProperties.t := {| FieldProperties.pixelsPerStep := 10 |}.

Definition page1 : Page.t :=
  {| Page.id := 1; Page.order := 0; Page.counts := 0; Page.name := "1" |}.
Definition page2 : Page.t :=
  {| Page.id := 2; Page.order := 1; Page.counts := 8; Page.name := "2" |}.
(** A page inserted later: it comes third in the sequence and has the
    identity 5. *)
Definition page5 : Page.t :=
  {| Page.id := 5; Page.order := 2; Page.counts := 8; Page.name := "3" |}.

Definition marcher (i : Z) : Marcher.t :=
  {| Marcher.id := i; Marcher.drill_number := "B" |}.

Definition position (i m p : Z) (x y : float) : MarcherPage.t :=
  {| MarcherPage.id := i; MarcherPage.marcher_id := m;
     MarcherPage.page_id := p; MarcherPage.x := x; MarcherPage.y := y |}.

Definition settings : Actions.UiSettings.t :=
  {| Actions.UiSettings.isPlaying := false;
     Actions.UiSettings.lockX := false; Actions.UiSettings.lockY := false;
     Actions.UiSettings.previousPaths := false;
     Actions.UiSettings.nextPaths := false |}.

(** Page 2 is selected, marcher 1 stands on both pages, and no marcher
    is selected. *)
Definition nothingSelected : Actions.State :=
  {| Actions.pages := [page1; page2];
     Actions.isPlaying := false;
     Actions.marcherPages :=
       [position 1 1 1 100 100; position 2 1 2 120 100];
     Actions.selectedPage := Some page2;
     Actions.selectedMarchers := [];
     Actions.fieldProperties := Some field;
     Actions.uiSettings := settings |}.

(** Shift + P with the focus on the canvas. *)
Definition shiftP : Actions.KeyboardEvent :=
  {| Actions.key := "P"; Actions.ctrlKey := false; Actions.metaKey := false;
     Actions.altKey := false; Actions.shiftKey := true |}.

(** No page is selected. *)
Definition noPage : Actions.State :=
  {| Actions.pages := [page1; page2];
     Actions.isPlaying := false;
     Actions.marcherPages :=
       [position 1 1 1 100 100; position 2 1 2 120 100];
     Actions.selectedPage := None;
     Actions.selectedMarchers := [marcher 1];
     Actions.fieldProperties := Some field;
     Actions.uiSettings := settings |}.

(** Fifty marchers with a position on page 1 and on page 2; page 2 is
    selected. *)
Definition fiftyIds : list Z := map Z.of_nat (seq 1 50).

Definition fiftyMarchers : Actions.State :=
  {| Actions.pages := [page1; page2];
     Actions.isPlaying := false;
     Actions.marcherPages :=
       (map (fun i => position i i 1 (Js.of_Z (10 * i)) 50) fiftyIds
        ++ map (fun i => position (50 + i) i 2 (Js.of_Z (10 * i)) 80)
             fiftyIds)%list;
     Actions.selectedPage := Some page2;
     Actions.selectedMarchers := [];
     Actions.fieldProperties := Some field;
     Actions.uiSettings := settings |}.

(** Two marchers move from page 1 to page 2 in 8 counts: marcher 1 by 80
    pixels (8 to 5), marcher 2 by 160 pixels (4 to 5). *)
Definition twoMoves : list MarcherPage.t :=
  [ position 1 1 1 0 0; position 2 2 1 0 0;
    position 3 1 2 0 80; position 4 2 2 160 0 ].

(** The same moves when the second page has the identity 5. *)
Definition twoMovesToPage5 : list MarcherPage.t :=
  [ position 1 1 1 0 0; position 2 2 1 0 0;
    position 3 1 5 0 80; position 4 2 5 160 0 ].

Definition emptyCanvas : Canvas.t :=
  {| Canvas.objects := [{| Canvas.oid := 0; Canvas.kind := Canvas.StaticGrid |}];
     Canvas.nextOid := 1;
     Canvas.zoom := 1;
     Canvas.zoomPoint := None;
     Canvas.staticGridCaching := true;
     Canvas.zoomTimeout := None;
     Canvas.nextTimer := 0;
     Canvas.renderRequests := 0;
     Canvas.renders := 0;
     Canvas.errors := [] |}.

(** Modelled from the spec: the [CanvasMarcher] class.  A new marker
    stands at the coordinates of its position; an existing one is moved
    only when the coordinates differ from its current ones. *)
Definition canvasMarcher : Canvas.CanvasMarcherClass :=
  {| Canvas.placed := fun _ mp => (MarcherPage.x mp, MarcherPage.y mp);
     Canvas.moved := fun coords mp =>
       if ((fst coords =? MarcherPage.x mp)
           && (snd coords =? MarcherPage.y mp))%float
       then coords
       else (MarcherPage.x mp, MarcherPage.y mp) |}.

Definition wheel (delta : float) : Canvas.WheelEvent :=
  {| Canvas.deltaY := delta; Canvas.offsetX := 300; Canvas.offsetY := 200 |}.

End Scenario.

(** ** Notions used to state the properties *)

Module SortOrder.
Section Comparator.
Context {A : Type} (cmp : A -> A -> float).

(** [before x y]: the comparator does not ask for [y] ahead of [x]. *)
Definition before (x y : A) : Prop := Js.gt (cmp x y) 0 = false.

(** When [before] is transitive and total on the elements at hand,
    sorting puts every element before the ones that follow it. *)
Fixpoint ordered (l : list A) : Prop :=
  match l with
  | [] => True
  | x :: l' => (forall y, In y l' -> before x y) /\ ordered l'
  end.
End Comparator.
End SortOrder.

Module BatchView.

(** A marcher's start and end positions, as the batch form looks them
    up. *)
Definition startingPage (marcherPages : list MarcherPage.t) (page : Page.t)
    (marcher : Marcher.t) : option MarcherPage.t :=
  find (fun mp => (MarcherPage.marcher_id mp =? Marcher.id marcher)%Z)
    (filter (fun mp => (MarcherPage.page_id mp =? Page.id page - 1)%Z)
       marcherPages).

Definition endingPage (marcherPages : list MarcherPage.t) (page : Page.t)
    (marcher : Marcher.t) : option MarcherPage.t :=
  find (fun mp => (MarcherPage.marcher_id mp =? Marcher.id marcher)%Z)
    (filter (fun mp => (MarcherPage.page_id mp =? Page.id page)%Z)
       marcherPages).

End BatchView.

Module ActionsView.
Import Actions.
Local Open Scope string_scope.

(** The positions a page holds. *)
Definition positionsOn (page : Page.t) (marcherPages : list MarcherPage.t)
    : list MarcherPage.t :=
  filter (fun mp => (MarcherPage.page_id mp =? Page.id page)%Z) marcherPages.

(** The error of reading [id] from [selectedMarchers[0]] when no marcher
    is selected. *)
Definition undefined_id : JsError :=
  TypeError "Cannot read properties of undefined (reading 'id')".

(** Whether the focus is in an editable control. *)
Definition editable (activeElement : option Element) : bool :=
  match activeElement with
  | Some el => matches_editable el
  | None => false
  end.

(** The chord string the listener builds from an event. *)
Definition chord (e : KeyboardEvent) : string :=
  KeyboardShortcut.toString
    (KeyboardShortcut.new (key e) (ctrlKey e || metaKey e) (altKey e)
       (shiftKey e)).

End ActionsView.

Module CanvasView.
Import Canvas.

(** The marcher a live marker is bound to. *)
Definition boundMarcher (o : Object) : option Marcher.t :=
  match kind o with
  | CanvasMarcher m _ => Some m
  | _ => None
  end.

(** What makes a visual marker the marker it is: the object, and the
    marcher it is bound to.  Its coordinates are not part of it. *)
Definition identity (o : Object) : nat * option Marcher.t :=
  (oid o, boundMarcher o).

Definition identities (c : t) : list (nat * option Marcher.t) :=
  map identity (objects c).

Definition bound (id : Z) (i : nat * option Marcher.t) : bool :=
  match snd i with
  | Some m => (Marcher.id m =? id)%Z
  | None => false
  end.

Definition live (i : nat * option Marcher.t) : bool :=
  match snd i with
  | Some _ => true
  | None => false
  end.

End CanvasView.

Module ZoomView.
Local Open Scope float_scope.
Local Set Warnings "-inexact-float".

(** A zoom that is a finite, strictly positive number. *)
Definition usable (z : float) : Prop :=
  exists m e, Prim2SF z = S754_finite false m e.

Definition in_range (z : float) : Prop :=
  (0.35 <=? z) = true /\ (z <=? 25) = true.

End ZoomView.

(** ** [BeatUnit] *)

Module BeatUnit.

Local Open Scope float_scope.
Local Open Scope string_scope.

(** The constructor is private: the beat units are the eleven static
    members of the class. *)
Record t := { value : float; name : string }.

Definition WHOLE : t := {| value := 1; name := "WHOLE" |}.
Definition HALF : t := {| value := 1 / 2; name := "HALF" |}.
Definition DOTTED_HALF : t := {| value := 3 / 4; name := "DOTTED HALF" |}.
Definition QUARTER : t := {| value := 1 / 4; name := "QUARTER" |}.
Definition DOTTED_QUARTER : t :=
  {| value := 3 / 8; name := "DOTTED QUARTER" |}.
Definition EIGHTH : t := {| value := 1 / 8; name := "EIGHTH" |}.
Definition DOTTED_EIGHTH : t :=
  {| value := 3 / 16; name := "DOTTED EIGHTH" |}.
Definition SIXTEENTH : t := {| value := 1 / 16; name := "16TH" |}.
Definition DOTTED_SIXTEENTH : t :=
  {| value := 3 / 32; name := "DOTTED 16TH" |}.
Definition THIRTY_SECOND : t := {| value := 1 / 32; name := "32ND" |}.
Definition SIXTY_FOURTH : t := {| value := 1 / 64; name := "64TH" |}.

Definition members : list t :=
  [ WHOLE; HALF; DOTTED_HALF; QUARTER; DOTTED_QUARTER; EIGHTH;
    DOTTED_EIGHTH; SIXTEENTH; DOTTED_SIXTEENTH; THIRTY_SECOND;
    SIXTY_FOURTH ].

Definition toString (this : t) : string := name this.

Definition equals (this other : t) : bool :=
  Js.strict_eq (value this) (value other)
  && String.eqb (name this) (name other).

(** A beat unit, or the [Error] that was thrown. *)
Inductive Result :=
| Returned (u : t)
| Thrown (message : string).

Definition fromString (name : string) : Result :=
  if String.eqb name "WHOLE" then Returned WHOLE
  else if String.eqb name "HALF" then Returned HALF
  else if String.eqb name "DOTTED HALF" then Returned DOTTED_HALF
  else if String.eqb name "QUARTER" then Returned QUARTER
  else if String.eqb name "DOTTED QUARTER" then Returned DOTTED_QUARTER
  else if String.eqb name "EIGHTH" then Returned EIGHTH
  else if String.eqb name "DOTTED EIGHTH" then Returned DOTTED_EIGHTH
  else if String.eqb name "16TH" then Returned SIXTEENTH
  else if String.eqb name "DOTTED 16TH" then Returned DOTTED_SIXTEENTH
  else if String.eqb name "32ND" then Returned THIRTY_SECOND
  else if String.eqb name "64TH" then Returned SIXTY_FOURTH
  else Thrown ("Invalid beat unit name: " ++ name).

End BeatUnit.

(** ** [OpenMarchCanvas]: ghosts, pathways and stacking *)

Module Overlays.

Import Canvas.

(** [this.remove(obj)], a method the canvas inherits from the rendering
    library: the object leaves the list of the canvas and, when it was
    there, the method ends by calling [requestRenderAll]
    ([renderOnAddRemove] is on). *)
Definition remove (c : t) (target : nat) : t :=
  let removed :=
    with_objects c
      (filter (fun o => negb (oid o =? target)%nat) (objects c))
      (nextOid c) in
  if existsb (fun o => (oid o =? target)%nat) (objects c)
  then requestRenderAll removed
  else removed.

(** [this.bringToFront(obj)], a method the canvas inherits from the
    rendering library: the object moves to the end of the list, where it
    is drawn last, and the method ends by calling [requestRenderAll]
    ([renderOnAddRemove] is on). *)
Definition bringToFront (c : t) (target : nat) : t :=
  requestRenderAll
    (with_objects c
       (filter (fun o => negb (oid o =? target)%nat) (objects c)
        ++ filter (fun o => (oid o =? target)%nat) (objects c))%list
       (nextOid c)).

Definition isStaticCanvasMarcher (o : Object) : bool :=
  match kind o with
  | StaticCanvasMarcher _ _ _ => true
  | _ => false
  end.

Definition isPathway (o : Object) : bool :=
  match kind o with
  | Pathway _ _ _ => true
  | _ => false
  end.

(** [getObjectsByType(StaticCanvasMarcher)] and
    [getObjectsByType(Pathway)]. *)
Definition getStaticCanvasMarchers (c : t) : list Object :=
  filter isStaticCanvasMarcher (objects c).

Definition getPathways (c : t) : list Object :=
  filter isPathway (objects c).

(** Brings all of the canvasMarchers to the front of the canvas. *)
Definition sendCanvasMarchersToFront (c : t) : t :=
  let curCanvasMarchers := getCanvasMarchers c in
  fold_left (fun c canvasMarcher => bringToFront c (oid canvasMarcher))
    curCanvasMarchers c.

Section Static.
(** Where the constructor of the imported [StaticCanvasMarcher] class
    puts a ghost. *)
Variable placedStatic : Marcher.t -> MarcherPage.t -> float * float.

Definition renderStaticMarcher (color : string)
    (allMarchers : list Marcher.t) (c : t) (marcherPage : MarcherPage.t)
    : t :=
  match find (fun marcher =>
                (Marcher.id marcher =? MarcherPage.marcher_id marcherPage)%Z)
             allMarchers with
  | None =>
      console_error c
        "Marcher object not found in the store for given MarcherPage - renderStaticMarchers: Canvas.tsx"
  | Some curMarcher =>
      add c (StaticCanvasMarcher curMarcher
               (placedStatic curMarcher marcherPage) color)
  end.

(** Render static marchers for the given page. *)
Definition renderStaticMarchers (c : t) (color : string)
    (intendedMarcherPages : list MarcherPage.t)
    (allMarchers : list Marcher.t) : t :=
  requestRenderAll
    (fold_left (renderStaticMarcher color allMarchers)
       intendedMarcherPages c).
End Static.

(** Remove the static canvas marchers from the canvas. *)
Definition removeStaticCanvasMarchers (c : t) : t :=
  let curStaticCanvasMarchers := getStaticCanvasMarchers c in
  requestRenderAll
    (fold_left (fun c canvasMarcher => remove c (oid canvasMarcher))
       curStaticCanvasMarchers c).

(** The body of the [forEach] of [renderPathways].  The loop runs over
    the positions of the end page and names each [previousMarcherPage];
    the position found on the start page is [selectedMarcherPage]. *)
Definition renderPathway (startPageMarcherPages : list MarcherPage.t)
    (color : string) (c : t) (previousMarcherPage : MarcherPage.t) : t :=
  match find (fun marcherPage =>
                (MarcherPage.marcher_id marcherPage
                 =? MarcherPage.marcher_id previousMarcherPage)%Z)
             startPageMarcherPages with
  | None =>
      console_error c
        "Selected marcher page not found - renderPathways: Canvas.tsx"
  | Some selectedMarcherPage =>
      add c (Pathway previousMarcherPage selectedMarcherPage color)
  end.

(** Render the pathways from the selected page to the given one. *)
Definition renderPathways (c : t)
    (startPageMarcherPages endPageMarcherPages : list MarcherPage.t)
    (color : string) : t :=
  requestRenderAll
    (fold_left (renderPathway startPageMarcherPages color)
       endPageMarcherPages c).

Definition removePathways (c : t) : t :=
  let curPathways := getPathways c in
  requestRenderAll
    (fold_left (fun c pathway => remove c (oid pathway)) curPathways c).

End Overlays.

(** ** Further notions used to state the properties *)

Module MoreViews.

Import Actions.
Local Open Scope string_scope.

(** The state after the settings store took a new value. *)
Definition with_uiSettings (st : State) (u : UiSettings.t) : State :=
  {| pages := pages st; isPlaying := isPlaying st;
     marcherPages := marcherPages st; selectedPage := selectedPage st;
     selectedMarchers := selectedMarchers st;
     fieldProperties := fieldProperties st; uiSettings := u |}.

(** The calls that change what is stored: positions, the selected page,
    the settings, the playing flag. *)
Definition mutates (e : Effect) : bool :=
  match e with
  | ConsoleError _ | PreventDefault => false
  | _ => true
  end.

Definition submitsPositions (e : Effect) : bool :=
  match e with
  | UpdateMarcherPages _ => true
  | _ => false
  end.

Definition isNavigation (a : RegisteredActionsEnum) : bool :=
  match a with
  | nextPage | lastPage | previousPage | firstPage | playPause => true
  | _ => false
  end.

Definition isToggle (a : RegisteredActionsEnum) : bool :=
  match a with
  | lockX | lockY | toggleNextPagePaths | togglePreviousPagePaths => true
  | _ => false
  end.

(** A key name made of ASCII characters. *)
Definition isAscii (s : string) : bool :=
  forallb (fun c => (nat_of_ascii c <? 128)%nat) (list_ascii_of_string s).

(** The event a shortcut stands for. *)
Definition eventOf (k : KeyboardShortcut.t) : KeyboardEvent :=
  {| key := KeyboardShortcut.key k;
     ctrlKey := KeyboardShortcut.control k; metaKey := false;
     altKey := KeyboardShortcut.alt k;
     shiftKey := KeyboardShortcut.shift k |}.

(** Every object of the canvas has an identity of its own, older than
    the next one to be given out. *)
Definition wellFormed (c : Canvas.t) : Prop :=
  NoDup (map Canvas.oid (Canvas.objects c))
  /\ Forall (fun o => (Canvas.oid o < Canvas.nextOid c)%nat)
       (Canvas.objects c).

(** A strictly negative float, infinite or not. *)
Definition negative_result (x : spec_float) : bool :=
  match x with
  | S754_finite true _ _ | S754_infinity true => true
  | _ => false
  end.

Definition is_zero_result (x : spec_float) : bool :=
  match x with
  | S754_zero _ => true
  | _ => false
  end.

End MoreViews.

(** ** Notions used to state the properties of markers, overlays and
    batches *)

Module SymmetryView.

Import MoreViews.

(** Two results that are opposite, or both zero. *)
Definition mirrored (r r' : spec_float) : Prop :=
  r' = SFopp r \/ (is_zero_result r = true /\ is_zero_result r' = true).

End SymmetryView.

Module BatchMoreView.

Import BatchView.

(** The marcher has a position on the page and on the page before. *)
Definition hasBoth (marcherPages : list MarcherPage.t) (page : Page.t)
    (marcher : Marcher.t) : bool :=
  match startingPage marcherPages page marcher,
        endingPage marcherPages page marcher with
  | Some _, Some _ => true
  | _, _ => false
  end.

End BatchMoreView.

Module ComparatorView.

Local Open Scope float_scope.

(** What [Array.prototype.sort] reads off the comparator for two step
    sizes: [a <CF b] when [compare a b] is negative, [a >CF b] when it
    is positive, and [a =CF b] otherwise, that is when it is zero or
    NaN (the sort takes a NaN as [+0]). *)
Definition lessCF (a b : StepSize.t) : bool :=
  Js.lt (StepSize.compare a b) 0.

Definition greaterCF (a b : StepSize.t) : bool :=
  Js.gt (StepSize.compare a b) 0.

Definition equalCF (a b : StepSize.t) : bool :=
  negb (lessCF a b) && negb (greaterCF a b).

(** The step size is a number: the page has counts. *)
Definition defined (s : StepSize.t) : bool :=
  negb (Js.Number_isNaN (StepSize.stepsPerFiveYards s)).

(** The step size is a finite number: the marcher moves. *)
Definition moving (s : StepSize.t) : bool :=
  is_finite (StepSize.stepsPerFiveYards s).

End ComparatorView.

Module EffectView.

Import Actions.

(** A call that neither submits positions, nor changes the settings,
    nor touches the event. *)
Definition harmless (e : Effect) : Prop :=
  match e with
  | UpdateMarcherPages _ | SetUiSettings _ _ | PreventDefault => False
  | _ => True
  end.

End EffectView.

Module MarkerView.

Import Canvas.

(** The marcher of a position is in the store. *)
Definition known (allMarchers : list Marcher.t) (mp : MarcherPage.t) : bool :=
  existsb (fun marcher => (Marcher.id marcher =? MarcherPage.marcher_id mp)%Z)
    allMarchers.

(** The marchers of the markers a call of [renderMarchers] creates: one
    for each position without a marker before the call whose marcher is
    in the store. *)
Definition created (snapshot : list Object) (allMarchers : list Marcher.t)
    (mps : list MarcherPage.t) : list Marcher.t :=
  flat_map
    (fun mp =>
       match find (marcherObj_id_is (MarcherPage.marcher_id mp)) snapshot,
             find (fun marcher =>
                     (Marcher.id marcher =? MarcherPage.marcher_id mp)%Z)
                  allMarchers with
       | None, Some m => [m]
       | _, _ => []
       end)
    mps.

(** The positions [renderMarchers] reports: no marker before the call
    and no marcher in the store. *)
Definition orphan (snapshot : list Object) (allMarchers : list Marcher.t)
    (mp : MarcherPage.t) : bool :=
  match find (marcherObj_id_is (MarcherPage.marcher_id mp)) snapshot,
        find (fun marcher =>
                (Marcher.id marcher =? MarcherPage.marcher_id mp)%Z)
             allMarchers with
  | None, None => true
  | _, _ => false
  end.

(** The marchers that have a live marker, one entry per marker. *)
Definition markerIds (ids : list (nat * option Marcher.t)) : list Z :=
  flat_map (fun i => match snd i with
                     | Some m => [Marcher.id m]
                     | None => []
                     end) ids.

End MarkerView.

Module OverlayView.

Import Canvas.

(** The marcher of a position has a position among [marcherPages]. *)
Definition onPage (marcherPages : list MarcherPage.t) (mp : MarcherPage.t)
    : bool :=
  existsb (fun marcherPage =>
             (MarcherPage.marcher_id marcherPage
              =? MarcherPage.marcher_id mp)%Z)
    marcherPages.

(** A pathway of the given colour from a position of the end page to a
    position of the same marcher on the start page. *)
Definition joins (startPageMarcherPages endPageMarcherPages
                    : list MarcherPage.t) (color : string) (o : Object)
    : Prop :=
  match kind o with
  | Pathway start finish col =>
      In start endPageMarcherPages /\ In finish startPageMarcherPages
      /\ MarcherPage.marcher_id finish = MarcherPage.marcher_id start
      /\ col = color
  | _ => False
  end.

End OverlayView.

(** ** A canvas with markers, a ghost and a pathway *)

Module Stage.

Import Canvas.
Local Open Scope float_scope.
Local Open Scope string_scope.

Definition marchers : list Marcher.t :=
  [Scenario.marcher 1; Scenario.marcher 2; Scenario.marcher 3].

(** Page 1: marchers 1 and 2.  Page 2: marchers 1 and 3, and a position
    of a marcher 9 that is not in the store. *)
Definition page1Positions : list MarcherPage.t :=
  [Scenario.position 1 1 1 100 100; Scenario.position 2 2 1 50 60].

Definition page2Positions : list MarcherPage.t :=
  [Scenario.position 3 1 2 120 100; Scenario.position 4 3 2 10 10;
   Scenario.position 5 9 2 0 0].

(** The grid, the markers of page 1, a ghost of marcher 1 and a pathway
    of marcher 1, the ghost and the pathway lying between the markers. *)
Definition stage : t :=
  {| objects :=
       [ {| oid := 0; kind := StaticGrid |};
         {| oid := 1; kind := CanvasMarcher (Scenario.marcher 1) (100, 100) |};
         {| oid := 2;
            kind := StaticCanvasMarcher (Scenario.marcher 1) (120, 100)
                      "rgba(0, 0, 0, 1)" |};
         {| oid := 3;
            kind := Pathway (Scenario.position 3 1 2 120 100)
                      (Scenario.position 1 1 1 100 100) "black" |};
         {| oid := 4; kind := CanvasMarcher (Scenario.marcher 2) (50, 60) |} ];
     nextOid := 5;
     zoom := 1;
     zoomPoint := None;
     staticGridCaching := false;
     zoomTimeout := None;
     nextTimer := 0;
     renderRequests := 0;
     renders := 0;
     errors := [] |}.

End Stage.

(* ================================================================== *)
(** * Part II: properties *)
(* ================================================================== *)

(** ** Binary64 arithmetic

    The facts about floats the proofs below rest on, derived from the
    specification of the primitive operations ([FloatAxioms]): the order
    of the numbers, the sign of a difference, and the absence of [NaN]
    in a product. *)

Module FloatOrderFacts.
Import FloatOrder.

Lemma opp_compare (a b : Z) : (- a ?= - b)%Z = CompOpp (a ?= b)%Z.
Proof. rewrite Z.compare_opp. apply Z.compare_antisym. Qed.

Lemma SFcompare_rank (x y : spec_float) :
  is_number x = true -> is_number y = true ->
  SFcompare x y = Some (lexcmp (rank x) (rank y)).
Proof.
  destruct x as [sx|sx| |sx mx ex], y as [sy|sy| |sy my ey];
    try discriminate; intros _ _;
    try (destruct sx); try (destruct sy); try reflexivity.
  cbn [SFcompare rank lexcmp]. rewrite opp_compare.
    change (Z.neg mx ?= Z.neg my)%Z with (CompOpp (mx ?= my)%positive).
    unfold Pos.compare.
    destruct (ex ?= ey)%Z; reflexivity.
Qed.

Lemma lexcmp_antisym a b : lexcmp b a = CompOpp (lexcmp a b).
Proof.
  destruct a as [[a1 a2] a3], b as [[b1 b2] b3]. unfold lexcmp.
  rewrite (Z.compare_antisym a1 b1), (Z.compare_antisym a2 b2),
    (Z.compare_antisym a3 b3).
  destruct (a1 ?= b1)%Z, (a2 ?= b2)%Z, (a3 ?= b3)%Z; reflexivity.
Qed.

Lemma lexcmp_Lt a b : lexcmp a b = Lt <-> lex_lt a b.
Proof.
  destruct a as [[a1 a2] a3], b as [[b1 b2] b3]. unfold lexcmp, lex_lt.
  destruct (Z.compare_spec a1 b1), (Z.compare_spec a2 b2),
    (Z.compare_spec a3 b3); split; intros; try discriminate; try lia;
    reflexivity.
Qed.

Lemma lexcmp_refl a : lexcmp a a = Eq.
Proof.
  destruct a as [[a1 a2] a3]. unfold lexcmp. now rewrite !Z.compare_refl.
Qed.

End FloatOrderFacts.

Module FloatFacts.
Import FloatOrder FloatOrderFacts.
Local Open Scope float_scope.

Lemma is_nan_spec (x : float) : is_nan x = negb (is_number (Prim2SF x)).
Proof.
  unfold is_nan. rewrite eqb_spec. unfold SFeqb.
  destruct (is_number (Prim2SF x)) eqn:E.
  - rewrite SFcompare_rank by assumption. now rewrite lexcmp_refl.
  - destruct (Prim2SF x); try discriminate. reflexivity.
Qed.

Lemma number_of_not_nan (x : float) :
  is_nan x = false -> is_number (Prim2SF x) = true.
Proof. rewrite is_nan_spec. now destruct (is_number _). Qed.

Lemma ltb_rank (x y : float) :
  is_nan x = false -> is_nan y = false ->
  (x <? y) = true <-> lex_lt (rank (Prim2SF x)) (rank (Prim2SF y)).
Proof.
  intros Hx Hy. rewrite ltb_spec. unfold SFltb.
  rewrite SFcompare_rank by now apply number_of_not_nan.
  rewrite <- lexcmp_Lt. destruct (lexcmp _ _); split; congruence.
Qed.

(** Among numbers, [x <= y] is the negation of [y < x]. *)
Lemma leb_negb_ltb (x y : float) :
  is_nan x = false -> is_nan y = false -> (x <=? y) = negb (y <? x).
Proof.
  intros Hx Hy. rewrite leb_spec, ltb_spec. unfold SFleb, SFltb.
  rewrite !SFcompare_rank by now apply number_of_not_nan.
  rewrite (lexcmp_antisym (rank (Prim2SF x))).
  now destruct (lexcmp _ _).
Qed.

Lemma ltb_nan_l (x y : float) : is_nan x = true -> (x <? y) = false.
Proof.
  rewrite is_nan_spec, ltb_spec. unfold SFltb.
  destruct (Prim2SF x); try discriminate. reflexivity.
Qed.

Lemma ltb_nan_r (x y : float) : is_nan y = true -> (x <? y) = false.
Proof.
  rewrite is_nan_spec, ltb_spec. unfold SFltb.
  destruct (Prim2SF y); try discriminate. now destruct (Prim2SF x).
Qed.

(** [<] is transitive, and so is its negation among numbers. *)
Lemma ltb_trans (x y z : float) :
  (x <? y) = true -> (y <? z) = true -> (x <? z) = true.
Proof.
  intros Hxy Hyz.
  assert (Hx : is_nan x = false).
  { destruct (is_nan x) eqn:E; [|reflexivity].
    now rewrite (ltb_nan_l _ y E) in Hxy. }
  assert (Hy : is_nan y = false).
  { destruct (is_nan y) eqn:E; [|reflexivity].
    now rewrite (ltb_nan_r x _ E) in Hxy. }
  assert (Hz : is_nan z = false).
  { destruct (is_nan z) eqn:E; [|reflexivity].
    now rewrite (ltb_nan_r y _ E) in Hyz. }
  apply ltb_rank in Hxy, Hyz; try assumption. apply ltb_rank; try assumption.
  destruct (rank (Prim2SF x)) as [[? ?] ?], (rank (Prim2SF y)) as [[? ?] ?],
    (rank (Prim2SF z)) as [[? ?] ?]. unfold lex_lt in *. lia.
Qed.

Lemma not_ltb_trans (x y z : float) :
  is_nan y = false ->
  (x <? y) = false -> (y <? z) = false -> (x <? z) = false.
Proof.
  intros Hy Hxy Hyz.
  destruct (is_nan x) eqn:Hx; [now apply ltb_nan_l|].
  destruct (is_nan z) eqn:Hz; [now apply ltb_nan_r|].
  destruct (x <? z) eqn:Hxz; [|reflexivity].
  apply ltb_rank in Hxz; try assumption.
  assert (A : ~ lex_lt (rank (Prim2SF x)) (rank (Prim2SF y))).
  { intro A. apply ltb_rank in A; try assumption. congruence. }
  assert (B : ~ lex_lt (rank (Prim2SF y)) (rank (Prim2SF z))).
  { intro B. apply ltb_rank in B; try assumption. congruence. }
  destruct (rank (Prim2SF x)) as [[? ?] ?], (rank (Prim2SF y)) as [[? ?] ?],
    (rank (Prim2SF z)) as [[? ?] ?]. unfold lex_lt in *. lia.
Qed.

Lemma ltb_irrefl (x : float) : (x <? x) = false.
Proof.
  destruct (is_nan x) eqn:Hx; [now apply ltb_nan_l|].
  destruct (x <? x) eqn:E; [|reflexivity].
  apply ltb_rank in E; try assumption.
  destruct (rank (Prim2SF x)) as [[? ?] ?]. unfold lex_lt in E. lia.
Qed.

Lemma ltb_asym (x y : float) : (x <? y) = true -> (y <? x) = false.
Proof.
  intros H. destruct (y <? x) eqn:E; [|reflexivity].
  pose proof (ltb_trans x y x H E) as T. now rewrite ltb_irrefl in T.
Qed.

End FloatFacts.

Module Rounding.
Import FloatOrder.

Local Open Scope Z_scope.

Lemma digits2_pos_bounds (m : positive) :
  2 ^ (Zpos (digits2_pos m) - 1) <= Zpos m < 2 ^ Zpos (digits2_pos m).
Proof.
  induction m as [m IH|m IH|]; cbn [digits2_pos].
  - rewrite Pos2Z.inj_succ.
    replace (Z.succ (Zpos (digits2_pos m)) - 1)
      with (Z.succ (Zpos (digits2_pos m) - 1)) by lia.
    rewrite !Z.pow_succ_r by lia. lia.
  - rewrite Pos2Z.inj_succ.
    replace (Z.succ (Zpos (digits2_pos m)) - 1)
      with (Z.succ (Zpos (digits2_pos m) - 1)) by lia.
    rewrite !Z.pow_succ_r by lia. lia.
  - cbn. lia.
Qed.

(** One shift to the right of a mantissa of two digits or more. *)
Lemma shr_1_pos (mrs : shr_record) (p : positive) :
  shr_m mrs = Zpos p -> 1 < Zpos (digits2_pos p) ->
  exists q, shr_m (shr_1 mrs) = Zpos q
            /\ Zpos (digits2_pos q) = Zpos (digits2_pos p) - 1.
Proof.
  destruct mrs as [m r s]. cbn [shr_m]. intros -> Hd.
  destruct p as [p|p|]; cbn [shr_1 shr_m digits2_pos] in *.
  - exists p. split; [reflexivity|lia].
  - exists p. split; [reflexivity|lia].
  - lia.
Qed.

Lemma iter_shr_1_pos (n : positive) :
  forall (mrs : shr_record) (p : positive),
    shr_m mrs = Zpos p -> Zpos n < Zpos (digits2_pos p) ->
    exists q, shr_m (iter_pos shr_1 n mrs) = Zpos q
              /\ Zpos (digits2_pos q) = Zpos (digits2_pos p) - Zpos n.
Proof.
  induction n as [n IH|n IH|]; intros mrs p Hm Hd; cbn [iter_pos].
  - destruct (shr_1_pos mrs p Hm) as (q0 & H0 & D0); [lia|].
    destruct (IH _ _ H0) as (q1 & H1 & D1); [lia|].
    destruct (IH _ _ H1) as (q2 & H2 & D2); [lia|].
    exists q2. split; [assumption|lia].
  - destruct (IH _ _ Hm) as (q1 & H1 & D1); [lia|].
    destruct (IH _ _ H1) as (q2 & H2 & D2); [lia|].
    exists q2. split; [assumption|lia].
  - destruct (shr_1_pos mrs p Hm) as (q0 & H0 & D0); [lia|].
    exists q0. split; [assumption|lia].
Qed.

(** Shifting never makes a mantissa negative. *)
Lemma shr_1_nonneg (mrs : shr_record) :
  0 <= shr_m mrs -> 0 <= shr_m (shr_1 mrs).
Proof.
  destruct mrs as [m r s]. cbn [shr_m].
  destruct m as [|[p|p|]|p]; cbn; lia.
Qed.

Lemma iter_shr_1_nonneg (n : positive) :
  forall mrs, 0 <= shr_m mrs -> 0 <= shr_m (iter_pos shr_1 n mrs).
Proof.
  induction n as [n IH|n IH|]; intros mrs H; cbn [iter_pos];
    auto using shr_1_nonneg.
Qed.

Lemma shr_record_of_loc_m (m : Z) (l : location) :
  shr_m (shr_record_of_loc m l) = m.
Proof. destruct l as [|[]]; reflexivity. Qed.

Lemma shr_fexp_nonneg (m e : Z) (l : location) :
  0 <= m -> 0 <= shr_m (fst (shr_fexp prec emax m e l)).
Proof.
  intros Hm. unfold shr_fexp, shr.
  destruct (fexp prec emax (Zdigits2 m + e) - e); cbn [fst];
    try (rewrite shr_record_of_loc_m; assumption).
  apply iter_shr_1_nonneg. now rewrite shr_record_of_loc_m.
Qed.

Lemma round_nearest_even_nonneg (m : Z) (l : location) :
  0 <= m -> 0 <= round_nearest_even m l.
Proof.
  intros Hm. destruct l as [|[]]; cbn; try assumption; try lia.
  destruct (Z.even m); lia.
Qed.

Lemma round_nearest_even_pos (p : positive) (l : location) :
  exists q, round_nearest_even (Zpos p) l = Zpos q.
Proof.
  destruct l as [|[]]; cbn [round_nearest_even]; eauto.
  - destruct (Z.even (Zpos p)); eauto.
    exists (p + 1)%positive. reflexivity.
  - exists (p + 1)%positive. reflexivity.
Qed.

(** Rounding a positive mantissa never yields [NaN]. *)
Lemma binary_round_aux_number (s : bool) (p : positive) (e : Z) (l : location) :
  is_number (binary_round_aux prec emax s (Zpos p) e l) = true.
Proof.
  unfold binary_round_aux.
  pose proof (@shr_fexp_nonneg (Zpos p) e l ltac:(lia)) as H1.
  destruct (shr_fexp prec emax (Zpos p) e l) as [mrs' e'].
  cbn [fst] in H1.
  pose proof (@shr_fexp_nonneg
                (round_nearest_even (shr_m mrs') (loc_of_shr_record mrs'))
                e' loc_Exact
                (round_nearest_even_nonneg _ _ H1)) as H2.
  destruct (shr_fexp prec emax _ e' loc_Exact) as [mrs'' e''].
  cbn [fst] in H2.
  destruct (shr_m mrs'') as [|q|q]; try reflexivity; try lia.
  destruct (e'' <=? emax - prec); reflexivity.
Qed.

(** A mantissa at an exponent of [emin] or more keeps a digit. *)
Lemma shr_fexp_pos (p : positive) (e : Z) (l : location) :
  emin <= e ->
  exists q, shr_m (fst (shr_fexp prec emax (Zpos p) e l)) = Zpos q
            /\ emin <= snd (shr_fexp prec emax (Zpos p) e l).
Proof.
  intros He. unfold shr_fexp, shr. cbn [Zdigits2].
  destruct (fexp prec emax (Zpos (digits2_pos p) + e) - e) as [|n|n] eqn:En;
    cbn [fst snd]; try (rewrite shr_record_of_loc_m; eauto).
  destruct (@iter_shr_1_pos n (shr_record_of_loc (Zpos p) l) p) as (q & Hq & _).
  - apply shr_record_of_loc_m.
  - revert En He. unfold fexp, SpecFloat.emin, prec, emax. lia.
  - exists q. split; [assumption|lia].
Qed.

Lemma binary_round_aux_positive (p : positive) (e : Z) (l : location) :
  emin <= e ->
  positive_result (binary_round_aux prec emax false (Zpos p) e l) = true.
Proof.
  intros He. unfold binary_round_aux.
  destruct (shr_fexp_pos p e l He) as (q1 & H1 & E1).
  destruct (shr_fexp prec emax (Zpos p) e l) as [mrs' e'].
  cbn [fst snd] in H1, E1. rewrite H1.
  destruct (round_nearest_even_pos q1 (loc_of_shr_record mrs')) as (q2 & ->).
  destruct (shr_fexp_pos q2 e' loc_Exact E1) as (q3 & H3 & _).
  destruct (shr_fexp prec emax (Zpos q2) e' loc_Exact) as [mrs'' e''].
  cbn [fst] in H3. rewrite H3.
  destruct (e'' <=? emax - prec); reflexivity.
Qed.

Lemma binary_round_aux_negative (m e : Z) (l : location) :
  positive_result (binary_round_aux prec emax true m e l) = false.
Proof.
  unfold binary_round_aux.
  destruct (shr_fexp prec emax m e l) as [mrs' e'].
  destruct (shr_fexp prec emax _ e' loc_Exact) as [mrs'' e''].
  destruct (shr_m mrs''); try reflexivity.
  destruct (e'' <=? emax - prec); reflexivity.
Qed.

Lemma binary_round_positive (p : positive) (e : Z) :
  emin <= e -> positive_result (binary_round prec emax false p e) = true.
Proof.
  intros He. unfold binary_round, shl_align.
  destruct (fexp prec emax (Zpos (digits2_pos p) + e) - e) eqn:En;
    apply binary_round_aux_positive; try assumption.
  unfold fexp, SpecFloat.emin, prec, emax. lia.
Qed.

Lemma binary_round_negative (p : positive) (e : Z) :
  positive_result (binary_round prec emax true p e) = false.
Proof.
  unfold binary_round.
  destruct (shl_align _ _ _). apply binary_round_aux_negative.
Qed.

(** The sign of a normalised integer is the sign of the integer. *)
Lemma binary_normalize_positive (m e : Z) :
  emin <= e ->
  positive_result (binary_normalize prec emax m e false) = (0 <? m).
Proof.
  intros He. destruct m as [|p|p]; cbn [binary_normalize].
  - reflexivity.
  - now apply binary_round_positive.
  - apply binary_round_negative.
Qed.

End Rounding.

Module Subtraction.
Import FloatOrder FloatOrderFacts Rounding.
Local Open Scope Z_scope.

Lemma iter_xO (d m : positive) : Zpos (Pos.iter xO m d) = Zpos m * 2 ^ Zpos d.
Proof.
  change (Pos.iter xO m d) with (shift_pos d m).
  rewrite shift_pos_correct, Z.pow_pos_fold. apply Z.mul_comm.
Qed.

Lemma shl_align_value (m : positive) (e ez : Z) :
  ez <= e -> Zpos (fst (shl_align m e ez)) = Zpos m * 2 ^ (e - ez).
Proof.
  intros H. unfold shl_align.
  destruct (ez - e) as [|d|d] eqn:E; cbn [fst]; try lia.
  - replace (e - ez) with 0 by lia. cbn. lia.
  - rewrite iter_xO. f_equal. f_equal. lia.
Qed.

Lemma bounded_digits (m : positive) (e : Z) :
  bounded prec emax m e = true ->
  emin <= e /\ Zpos (digits2_pos m) <= 53
  /\ (emin < e -> Zpos (digits2_pos m) = 53).
Proof.
  unfold bounded, canonical_mantissa, fexp, SpecFloat.emin, prec, emax.
  intros H. apply andb_prop in H. destruct H as [H _].
  apply Z.eqb_eq in H. lia.
Qed.

(** Mantissas aligned on the smaller exponent compare as the pairs
    (exponent, mantissa) do. *)
Lemma aligned_lt (m1 m2 : positive) (e1 e2 : Z) :
  bounded prec emax m1 e1 = true -> bounded prec emax m2 e2 = true ->
  Zpos m1 * 2 ^ (e1 - Z.min e1 e2) < Zpos m2 * 2 ^ (e2 - Z.min e1 e2)
  <-> e1 < e2 \/ (e1 = e2 /\ Zpos m1 < Zpos m2).
Proof.
  intros B1 B2.
  destruct (bounded_digits m1 e1 B1) as (L1 & D1 & N1).
  destruct (bounded_digits m2 e2 B2) as (L2 & D2 & N2).
  pose proof (digits2_pos_bounds m1) as [P1 Q1].
  pose proof (digits2_pos_bounds m2) as [P2 Q2].
  assert (U : forall d, Zpos d <= 53 -> 2 ^ Zpos d <= 2 ^ 53)
    by (intros; apply Z.pow_le_mono_r; lia).
  destruct (Z.lt_trichotomy e1 e2) as [H|[H|H]].
  - rewrite Z.min_l by lia. replace (e1 - e1) with 0 by lia.
    rewrite Z.pow_0_r, Z.mul_1_r.
    assert (2 ^ 1 <= 2 ^ (e2 - e1)) by (apply Z.pow_le_mono_r; lia).
    rewrite N2 in P2 by lia. change (2 ^ (53 - 1)) with 4503599627370496 in P2.
    specialize (U _ D1). change (2 ^ 53) with 9007199254740992 in U.
    change (2 ^ 1) with 2 in *. split; [intros _; left; exact H|intros _].
    nia.
  - subst e2. rewrite Z.min_id. replace (e1 - e1) with 0 by lia.
    rewrite Z.pow_0_r, !Z.mul_1_r. lia.
  - rewrite Z.min_r by lia. replace (e2 - e2) with 0 by lia.
    rewrite Z.pow_0_r, Z.mul_1_r.
    assert (2 ^ 1 <= 2 ^ (e1 - e2)) by (apply Z.pow_le_mono_r; lia).
    rewrite N1 in P1 by lia. change (2 ^ (53 - 1)) with 4503599627370496 in P1.
    specialize (U _ D2). change (2 ^ 53) with 9007199254740992 in U.
    change (2 ^ 1) with 2 in *. split; [intros A; exfalso; nia|lia].
Qed.

(** [y - x] is positive exactly when [x < y]. *)
Lemma SFsub_positive (x y : spec_float) :
  valid_binary x = true -> valid_binary y = true ->
  positive_result (SF64sub y x) = SFltb x y.
Proof.
  unfold SFltb, SF64sub.
  destruct x as [sx|sx| |sx mx ex], y as [sy|sy| |sy my ey]; intros Vx Vy;
    try (destruct sx); try (destruct sy); try reflexivity;
    cbn [valid_binary] in Vx, Vy;
    cbn [SFsub SFcompare cond_Zopp];
    (rewrite binary_normalize_positive
       by (destruct (bounded_digits _ _ Vx), (bounded_digits _ _ Vy); lia));
    pose proof (aligned_lt mx my ex ey Vx Vy) as A;
    pose proof (aligned_lt my mx ey ex Vy Vx) as A';
    rewrite <- !shl_align_value in A by lia;
    rewrite <- !shl_align_value in A' by lia;
    rewrite (Z.min_comm ex ey) in A;
    set (X := Zpos (fst (shl_align mx ex (Z.min ey ex)))) in *;
    set (Y := Zpos (fst (shl_align my ey (Z.min ey ex)))) in *.
  - (* both negative *)
    change (Pos.compare_cont Eq mx my) with (Z.pos mx ?= Z.pos my).
    destruct (Z.compare_spec ex ey), (Z.compare_spec (Zpos mx) (Zpos my));
      cbn [CompOpp]; try (apply Z.ltb_lt; lia); apply Z.ltb_ge; lia.
  - apply Z.ltb_lt. unfold X, Y. lia.
  - apply Z.ltb_ge. unfold X, Y. lia.
  - change (Pos.compare_cont Eq mx my) with (Z.pos mx ?= Z.pos my).
    destruct (Z.compare_spec ex ey), (Z.compare_spec (Zpos mx) (Zpos my));
      try (apply Z.ltb_lt; lia); apply Z.ltb_ge; lia.
Qed.

End Subtraction.

Module FloatArith.
Import FloatOrder FloatOrderFacts Rounding Subtraction FloatFacts.
Local Open Scope float_scope.

Lemma SFltb_zero (r : spec_float) :
  SFltb (S754_zero false) r = positive_result r.
Proof. destruct r as [s|s| |s m e]; try destruct s; reflexivity. Qed.

(** The sign of a difference: [0 < y - x] exactly when [x < y], for all
    floats, infinities and NaN included. *)
Theorem sub_positive (x y : float) : (0 <? y - x) = (x <? y).
Proof.
  rewrite !ltb_spec, sub_spec.
  change (Prim2SF 0) with (S754_zero false).
  rewrite SFltb_zero. apply SFsub_positive; apply Prim2SF_valid.
Qed.

(** A finite non-zero number times a number is a number. *)
Lemma SFmul_number (s : bool) (m : positive) (e : Z) (y : spec_float) :
  is_number y = true -> is_number (SF64mul (S754_finite s m e) y) = true.
Proof.
  destruct y as [sy|sy| |sy my ey]; intros Hy; try discriminate;
    try reflexivity.
  unfold SF64mul, SFmul. apply binary_round_aux_number.
Qed.

Lemma finite_between (lo hi z : float) (ml mh : positive) (el eh : Z) :
  Prim2SF lo = S754_finite false ml el ->
  Prim2SF hi = S754_finite false mh eh ->
  (lo <=? z) = true -> (z <=? hi) = true ->
  exists m e, Prim2SF z = S754_finite false m e.
Proof.
  intros Hlo Hhi. rewrite !leb_spec, Hlo, Hhi. unfold SFleb.
  destruct (Prim2SF z) as [s|s| |s m e]; try (destruct s); cbn;
    try discriminate; eauto.
Qed.

Lemma finite_positive (z : float) :
  (0 <? z) = true -> (z <? infinity) = true ->
  exists m e, Prim2SF z = S754_finite false m e.
Proof.
  rewrite !ltb_spec.
  change (Prim2SF 0) with (S754_zero false).
  change (Prim2SF infinity) with (S754_infinity false).
  unfold SFltb.
  destruct (Prim2SF z) as [s|s| |s m e]; try (destruct s); cbn;
    try discriminate; eauto.
Qed.

Lemma mul_number (x y : float) (s : bool) (m : positive) (e : Z) :
  Prim2SF x = S754_finite s m e ->
  is_nan y = false -> is_nan (x * y) = false.
Proof.
  intros Hx Hy. rewrite is_nan_spec, mul_spec, Hx.
  rewrite SFmul_number; [reflexivity|]. now apply number_of_not_nan.
Qed.

End FloatArith.

(** ** Step sizes *)

Module StepSizeFacts.

Local Open Scope float_scope.

Lemma not_number (x : float) : is_nan x = false -> Js.not x = (x =? 0).
Proof.
  intros H. unfold Js.not, Js.truthy, is_zero. rewrite H.
  change zero with 0. now destruct (x =? 0).
Qed.

Lemma calculateStepSize_no_counts pow sx sy ex ey counts pps :
  Js.not counts = true ->
  StepSize.calculateStepSize pow sx sy ex ey counts pps = nan.
Proof. intros H. unfold StepSize.calculateStepSize. now rewrite H. Qed.

Lemma calculateStepSize_hold pow sx sy ex ey counts pps :
  Js.not counts = false ->
  Js.not (Reference.distance pow sx sy ex ey) = true ->
  StepSize.calculateStepSize pow sx sy ex ey counts pps = infinity.
Proof.
  intros Hc Hd. unfold StepSize.calculateStepSize. rewrite Hc.
  unfold Reference.distance, Js.Math_sqrt, Js.Math_abs in *. now rewrite Hd.
Qed.

Lemma calculateStepSize_value pow sx sy ex ey counts pps :
  Js.not counts = false ->
  Js.not (Reference.distance pow sx sy ex ey) = false ->
  StepSize.calculateStepSize pow sx sy ex ey counts pps
  = Reference.value (Reference.distance pow sx sy ex ey) pps counts.
Proof.
  intros Hc Hd. unfold StepSize.calculateStepSize. rewrite Hc.
  unfold Reference.distance, Js.Math_sqrt, Js.Math_abs in *. rewrite Hd.
  reflexivity.
Qed.

(** C1.  [StepSize] matches its reference definition.  For a start, an
    end and a page whose counts and pixel distance are numbers: with
    zero counts the step size displays as Undefined; with a zero
    distance as Hold; otherwise its value is
    [180 / (((distance / pixelsPerStep) * 22.5) / counts)] and, that
    value being neither NaN nor +Infinity, it displays rounded to one
    decimal, as Tiny when the rounded value exceeds 64.  In particular,
    on a host where [0 ** 2] is 0, [10 ** 2] is 100 and 8 prints as "8",
    ten pixels per step, a move from (0,0) to (0,10) in one count has
    the value 8 and displays as "8 to 5". *)
Theorem stepSize_matches_reference
    (pow : float -> float -> float) (toLocaleString : float -> string) :
  (forall (id : Z) (sx sy ex ey counts : float) (fp : FieldProperties.t),
      let pps := FieldProperties.pixelsPerStep fp in
      let d := Reference.distance pow sx sy ex ey in
      let v := Reference.value d pps counts in
      let s := StepSize.new pow id sx sy ex ey counts fp in
      is_nan counts = false ->
      is_nan d = false ->
      ((counts =? 0) = false -> (d =? 0) = false ->
       is_nan v = false /\ (v =? infinity) = false) ->
      StepSize.displayString toLocaleString s
      = Reference.display toLocaleString
          (Reference.stepSize pow sx sy ex ey counts pps)
      /\ ((counts =? 0) = false -> (d =? 0) = false ->
          StepSize.stepsPerFiveYards s = v))
  /\ (forall id : Z,
         pow 0 2 = 0 -> pow 10 2 = 100 -> toLocaleString 8 = "8"%string ->
         let s := StepSize.new pow id 0 0 0 10 1
                    {| FieldProperties.pixelsPerStep := 10 |} in
         StepSize.stepsPerFiveYards s = 8
         /\ StepSize.displayString toLocaleString s = "8 to 5"%string).
Proof.
  split.
  - intros id sx sy ex ey counts fp pps d v s Hc Hd Hv.
    unfold s, StepSize.new, StepSize.displayString, Reference.stepSize.
    cbn [StepSize.stepsPerFiveYards]. fold pps. fold d.
    pose proof (not_number counts Hc) as Nc.
    pose proof (not_number d Hd) as Nd.
    destruct (counts =? 0) eqn:Ec.
    + rewrite calculateStepSize_no_counts by assumption.
      split; [reflexivity|discriminate].
    + destruct (d =? 0) eqn:Ed.
      * rewrite calculateStepSize_hold by assumption.
        split; [reflexivity|discriminate].
      * rewrite calculateStepSize_value by assumption. fold d. fold v.
        destruct (Hv eq_refl eq_refl) as [Hn Hi].
        unfold Js.Number_isNaN, Js.strict_eq, Js.gt. rewrite Hn, Hi.
        split; [|reflexivity].
        unfold Reference.round_one_decimal.
        destruct (64 <? Js.Math_round (v * 10) / 10); reflexivity.
  - intros id H0 H10 H8 s.
    assert (E : StepSize.stepsPerFiveYards s = 8).
    { unfold s, StepSize.new, StepSize.calculateStepSize.
      cbn [StepSize.stepsPerFiveYards FieldProperties.pixelsPerStep].
      change (Js.not 1) with false. cbv iota.
      change (Js.Math_abs (0 - 0)) with 0.
      change (Js.Math_abs (10 - 0)) with 10.
      rewrite H0, H10. reflexivity. }
    split; [exact E|].
    unfold StepSize.displayString. rewrite E.
    change (Js.Number_isNaN 8) with false.
    change (Js.strict_eq 8 infinity) with false. cbv iota.
    replace (Js.Math_round (8 * 10) / 10) with 8 by (vm_compute; reflexivity).
    change (Js.gt 8 64) with false. cbv iota. now rewrite H8.
Qed.

(** The theorem at the reference host: a move from (0,0) to (30,40) in
    six counts, and the boundary example. *)
Lemma stepSize_matches_reference_witness :
  (StepSize.displayString Js.toLocaleString_enUS
     (StepSize.new Js.pow_integral 7 0 0 30 40 6 Scenario.field)
   = Reference.display Js.toLocaleString_enUS
       (Reference.stepSize Js.pow_integral 0 0 30 40 6 10)
   /\ StepSize.displayString Js.toLocaleString_enUS
        (StepSize.new Js.pow_integral 7 0 0 30 40 6 Scenario.field)
      = "9.6 to 5"%string)
  /\ StepSize.stepsPerFiveYards
       (StepSize.new Js.pow_integral 7 0 0 0 10 1 Scenario.field) = 8
  /\ StepSize.displayString Js.toLocaleString_enUS
       (StepSize.new Js.pow_integral 7 0 0 0 10 1 Scenario.field)
     = "8 to 5"%string.
Proof.
  destruct (stepSize_matches_reference Js.pow_integral Js.toLocaleString_enUS)
    as [General Boundary].
  split.
  - split.
    + apply (General 7%Z 0 0 30 40 6 Scenario.field);
        try (vm_compute; reflexivity).
      intros _ _. vm_compute. split; reflexivity.
    + vm_compute. reflexivity.
  - apply (Boundary 7%Z); vm_compute; reflexivity.
Defined.

End StepSizeFacts.

(** ** Sorting with a comparator *)

Module SortFacts.

Import SortOrder FloatFacts FloatArith.
Local Open Scope float_scope.

Section Insertion.
Context {A : Type} (cmp : A -> A -> float).

Lemma insert_In (x y : A) (l : list A) :
  In y (Js.insert cmp x l) <-> y = x \/ In y l.
Proof.
  induction l as [|z l IH]; cbn [Js.insert].
  - cbn. intuition congruence.
  - destruct (Js.gt (cmp x z) 0); cbn [In] in *; rewrite ?IH;
      intuition congruence.
Qed.

Lemma sort_In (y : A) (l : list A) : In y (Js.sort cmp l) <-> In y l.
Proof.
  induction l as [|x l IH]; cbn [Js.sort fold_right]; [reflexivity|].
  fold (Js.sort cmp l). rewrite insert_In, IH. cbn. intuition congruence.
Qed.

Lemma insert_length (x : A) (l : list A) :
  List.length (Js.insert cmp x l) = S (List.length l).
Proof.
  induction l as [|z l IH]; cbn [Js.insert]; [reflexivity|].
  destruct (Js.gt (cmp x z) 0); cbn [List.length]; congruence.
Qed.

Lemma sort_length (l : list A) : List.length (Js.sort cmp l) = List.length l.
Proof.
  induction l as [|x l IH]; cbn [Js.sort fold_right]; [reflexivity|].
  fold (Js.sort cmp l). rewrite insert_length. cbn. congruence.
Qed.

Variable P : A -> Prop.
Hypothesis before_trans :
  forall x y z,
    P x -> P y -> P z -> before cmp x y -> before cmp y z -> before cmp x z.
Hypothesis before_total :
  forall x y, P x -> P y -> before cmp x y \/ before cmp y x.

Lemma insert_ordered (x : A) (l : list A) :
  P x -> Forall P l -> ordered cmp l -> ordered cmp (Js.insert cmp x l).
Proof.
  intros Px Pl. induction l as [|z l IH]; cbn [Js.insert ordered].
  - intros _. split; [intros y []|exact I].
  - intros [Hz Hl]. inversion Pl as [|? ? Pz Pl']; subst.
    destruct (Js.gt (cmp x z) 0) eqn:E; cbn [ordered].
    + split; [|now apply IH].
      intros y Hy. apply -> insert_In in Hy. destruct Hy as [->|Hy]; [|auto].
      destruct (before_total x z Px Pz) as [B|B]; [|exact B].
      unfold before in B. congruence.
    + split; [|split; assumption].
      intros y [<-|Hy]; [exact E|].
      apply (before_trans x z y); auto.
      rewrite Forall_forall in Pl'. auto.
Qed.

Lemma sort_ordered (l : list A) : Forall P l -> ordered cmp (Js.sort cmp l).
Proof.
  induction l as [|x l IH]; cbn [Js.sort fold_right]; [intros; exact I|].
  fold (Js.sort cmp l). intros Pl. inversion Pl as [|? ? Px Pl']; subst.
  apply insert_ordered.
  - exact Px.
  - apply Forall_forall. intros y Hy. apply -> sort_In in Hy.
    rewrite Forall_forall in Pl'. auto.
  - apply IH. exact Pl'.
Qed.

Hypothesis before_refl : forall x, before cmp x x.

Lemma ordered_first (l : list A) (x : A) :
  ordered cmp l -> nth_error l 0 = Some x ->
  forall y, In y l -> before cmp x y.
Proof.
  destruct l as [|z l]; [discriminate|]. cbn. intros [Hz _] [= ->] y [<-|Hy];
    auto.
Qed.

Lemma ordered_last (l : list A) (x : A) :
  ordered cmp l -> Js.lastElement l = Some x ->
  forall y, In y l -> before cmp y x.
Proof.
  unfold Js.lastElement. induction l as [|z l IH]; [discriminate|].
  cbn [ordered List.length]. intros [Hz Hl] Hx y Hy.
  destruct l as [|z' l'].
  - cbn in Hx. injection Hx as <-. destruct Hy as [<-|[]]. apply before_refl.
  - replace (S (List.length (z' :: l')) - 1)%nat
      with (S (List.length (z' :: l') - 1))%nat in Hx by (cbn; lia).
    cbn [nth_error] in Hx.
    destruct Hy as [<-|Hy]; [|now apply IH].
    apply Hz. eapply nth_error_In. exact Hx.
Qed.

End Insertion.

End SortFacts.

(** ** The batch form *)

Module BatchFacts.

Import SortOrder BatchView FloatFacts FloatArith SortFacts.
Local Open Scope float_scope.

Lemma In_filterDefined {A : Type} (x : A) (l : list (option A)) :
  In x (Js.filterDefined l) <-> In (Some x) l.
Proof.
  induction l as [|[y|] l IH]; cbn [Js.filterDefined In].
  - reflexivity.
  - rewrite IH. intuition congruence.
  - rewrite IH. intuition congruence.
Qed.

Section Batch.
Variable pow : float -> float -> float.
Variables (marchers : list Marcher.t) (marcherPages : list MarcherPage.t).
Variables (page : Page.t) (fieldProperties : FieldProperties.t).

Let stepSizes :=
  StepSize.createStepSizesForMarchers pow marchers marcherPages page
    fieldProperties.

Lemma createStepSizes_unfold :
  StepSize.createStepSizesForMarchers pow marchers marcherPages page
    fieldProperties
  = Js.filterDefined
      (map (fun marcher =>
              match endingPage marcherPages page marcher with
              | None => None
              | Some finish =>
                  StepSize.createStepSizeForMarcher pow
                    (startingPage marcherPages page marcher) finish
                    (Some page) fieldProperties
              end)
           marchers).
Proof. reflexivity. Qed.

(** Every step size of the batch comes from a marcher with both
    positions, and every such marcher yields one. *)
Lemma createStepSizes_In (s : StepSize.t) :
  In s stepSizes <->
  exists marcher start finish,
    In marcher marchers
    /\ startingPage marcherPages page marcher = Some start
    /\ endingPage marcherPages page marcher = Some finish
    /\ s = StepSize.new pow (MarcherPage.marcher_id finish)
             (MarcherPage.x start) (MarcherPage.y start)
             (MarcherPage.x finish) (MarcherPage.y finish)
             (Page.counts page) fieldProperties.
Proof.
  unfold stepSizes. rewrite createStepSizes_unfold.
  rewrite In_filterDefined, in_map_iff.
  split.
  - intros (marcher & E & Hm). exists marcher.
    destruct (endingPage marcherPages page marcher) as [finish|];
      [|discriminate].
    unfold StepSize.createStepSizeForMarcher in E.
    destruct (startingPage marcherPages page marcher) as [start|];
      [|discriminate].
    injection E as <-. exists start, finish. auto.
  - intros (marcher & start & finish & Hm & Hs & He & ->).
    exists marcher. split; [|exact Hm].
    rewrite He. unfold StepSize.createStepSizeForMarcher. now rewrite Hs.
Qed.

(** On a page without counts every step size of the batch is [NaN]. *)
Lemma createStepSizes_no_counts (s : StepSize.t) :
  Js.not (Page.counts page) = true -> In s stepSizes ->
  is_nan (StepSize.stepsPerFiveYards s) = true.
Proof.
  intros Hc Hs. apply createStepSizes_In in Hs.
  destruct Hs as (m & start & finish & _ & _ & _ & ->).
  unfold StepSize.new. cbn [StepSize.stepsPerFiveYards].
  now rewrite StepSizeFacts.calculateStepSize_no_counts.
Qed.

End Batch.

(** The comparator is positive exactly when its first argument takes
    fewer steps per five yards. *)
Lemma compare_positive (a b : StepSize.t) :
  Js.gt (StepSize.compare a b) 0
  = Js.lt (StepSize.stepsPerFiveYards a) (StepSize.stepsPerFiveYards b).
Proof. unfold Js.gt, Js.lt, StepSize.compare. apply sub_positive. Qed.

Section Order.
Variable nans : bool.
Let P (s : StepSize.t) : Prop := is_nan (StepSize.stepsPerFiveYards s) = nans.

Lemma before_trans (x y z : StepSize.t) :
  P x -> P y -> P z ->
  before StepSize.compare x y -> before StepSize.compare y z ->
  before StepSize.compare x z.
Proof.
  unfold before, P. rewrite !compare_positive. unfold Js.lt.
  intros Px Py Pz Hxy Hyz. destruct nans.
  - now apply ltb_nan_l.
  - now apply (not_ltb_trans _ (StepSize.stepsPerFiveYards y)).
Qed.

Lemma before_total (x y : StepSize.t) :
  P x -> P y ->
  before StepSize.compare x y \/ before StepSize.compare y x.
Proof.
  unfold before. rewrite !compare_positive. unfold Js.lt. intros _ _.
  destruct (StepSize.stepsPerFiveYards x <? StepSize.stepsPerFiveYards y)
    eqn:E; [right; now apply ltb_asym|left; reflexivity].
Qed.

Lemma before_refl (x : StepSize.t) : before StepSize.compare x x.
Proof. unfold before. rewrite compare_positive. apply ltb_irrefl. Qed.
End Order.

(** C3.  [getMinAndMaxStepSizesForMarchers] under the inverted order.
    [StepSize.compare a b] is positive exactly when [a] takes fewer steps
    per five yards than [b], so of the values 4 and 8 the one with 4 is
    the larger step.  Provided no step size of the batch is NaN unless
    the page has no counts, [min] and [max] are the least and the
    greatest of the computed step sizes under this comparator: the
    comparator asks for no step size ahead of [min] and for [max] ahead
    of none.  Both are undefined when there is no step size. *)
Theorem min_max_under_inverted_order
    (pow : float -> float -> float)
    (marchers : list Marcher.t) (marcherPages : list MarcherPage.t)
    (page : Page.t) (fieldProperties : FieldProperties.t) :
  let stepSizes :=
    StepSize.createStepSizesForMarchers pow marchers marcherPages page
      fieldProperties in
  let result :=
    StepSize.getMinAndMaxStepSizesForMarchers pow marchers marcherPages page
      fieldProperties in
  (Js.not (Page.counts page) = false ->
   Forall (fun s => is_nan (StepSize.stepsPerFiveYards s) = false) stepSizes) ->
  (forall a b,
      Js.gt (StepSize.compare a b) 0
      = Js.lt (StepSize.stepsPerFiveYards a) (StepSize.stepsPerFiveYards b))
  /\ (forall a b,
         StepSize.stepsPerFiveYards a = 4 ->
         StepSize.stepsPerFiveYards b = 8 ->
         Js.gt (StepSize.compare a b) 0 = true)
  /\ (stepSizes = [] ->
      StepSize.min result = None /\ StepSize.max result = None)
  /\ (stepSizes <> [] ->
      exists lo hi,
        StepSize.min result = Some lo /\ StepSize.max result = Some hi
        /\ In lo stepSizes /\ In hi stepSizes
        /\ forall s, In s stepSizes ->
                     Js.gt (StepSize.compare lo s) 0 = false
                     /\ Js.gt (StepSize.compare s hi) 0 = false).
Proof.
  intros stepSizes result Hnum.
  split; [exact compare_positive|].
  split.
  { intros a b Ha Hb. rewrite compare_positive, Ha, Hb. reflexivity. }
  unfold result, StepSize.getMinAndMaxStepSizesForMarchers.
  fold stepSizes.
  set (sorted := Js.sort (fun o1 o2 => StepSize.compare o1 o2) stepSizes).
  split.
  { intros E. unfold sorted. rewrite E. cbn. split; reflexivity. }
  intros Hne.
  assert (Hlen : List.length sorted = List.length stepSizes)
    by apply sort_length.
  assert (Hord : ordered StepSize.compare sorted).
  { apply (sort_ordered StepSize.compare _
             (before_trans (Js.not (Page.counts page)))
             (before_total (Js.not (Page.counts page)))).
    destruct (Js.not (Page.counts page)) eqn:Hc.
    - apply Forall_forall. intros s Hs.
      now apply (createStepSizes_no_counts pow marchers marcherPages page
                   fieldProperties).
    - now apply Hnum. }
  destruct sorted as [|lo rest] eqn:Es.
  { destruct stepSizes; [congruence|discriminate]. }
  cbn [List.length Nat.eqb StepSize.min StepSize.max nth_error].
  destruct (Js.lastElement (lo :: rest)) as [hi|] eqn:Eh.
  2:{ unfold Js.lastElement in Eh. apply nth_error_None in Eh. cbn in Eh. lia. }
  assert (Hin : forall s, In s (lo :: rest) <-> In s stepSizes).
  { intros s. rewrite <- Es. apply sort_In. }
  exists lo, hi. repeat split.
  - apply Hin. now left.
  - apply Hin. unfold Js.lastElement in Eh. eapply nth_error_In. exact Eh.
  - apply (ordered_first StepSize.compare before_refl (lo :: rest) lo Hord
             eq_refl).
    now apply Hin.
  - apply (ordered_last StepSize.compare before_refl (lo :: rest) hi Hord Eh).
    now apply Hin.
Qed.

(** Two marchers moving in eight counts, one at 8 to 5 and one at 4 to
    5: the minimum is the 8-to-5 step and the maximum the 4-to-5 step. *)
Lemma min_max_under_inverted_order_witness :
  let result :=
    StepSize.getMinAndMaxStepSizesForMarchers Js.pow_integral
      [Scenario.marcher 1; Scenario.marcher 2] Scenario.twoMoves
      Scenario.page2 Scenario.field in
  exists lo hi,
    StepSize.min result = Some lo /\ StepSize.max result = Some hi
    /\ StepSize.stepsPerFiveYards lo = 8
    /\ StepSize.stepsPerFiveYards hi = 4
    /\ Js.gt (StepSize.compare hi lo) 0 = true.
Proof.
  intros result.
  destruct (min_max_under_inverted_order Js.pow_integral
              [Scenario.marcher 1; Scenario.marcher 2] Scenario.twoMoves
              Scenario.page2 Scenario.field) as (_ & Inv & _ & Ext).
  - intros _. vm_compute. repeat constructor.
  - destruct Ext as (lo & hi & Hlo & Hhi & _); [vm_compute; discriminate|].
    exists lo, hi. fold result in Hlo, Hhi.
    assert (Elo : StepSize.stepsPerFiveYards lo = 8)
      by (vm_compute in Hlo; now injection Hlo as <-).
    assert (Ehi : StepSize.stepsPerFiveYards hi = 4)
      by (vm_compute in Hhi; now injection Hhi as <-).
    repeat split; try assumption. now apply Inv.
Defined.

Lemma find_filter_some {A : Type} (p q : A -> bool) (l : list A) (x : A) :
  find p (filter q l) = Some x -> In x l /\ q x = true /\ p x = true.
Proof.
  intros H. apply find_some in H. destruct H as [Hin Hp].
  apply filter_In in Hin. tauto.
Qed.

Lemma find_filter_exists {A : Type} (p q : A -> bool) (l : list A) (x : A) :
  In x l -> q x = true -> p x = true ->
  exists y, find p (filter q l) = Some y.
Proof.
  intros Hin Hq Hp. destruct (find p (filter q l)) as [y|] eqn:E; [eauto|].
  assert (F : In x (filter q l)) by (apply filter_In; auto).
  apply (find_none _ _ E) in F. congruence.
Qed.

(** C10.  The batch step-size computation for a page takes each
    marcher's starting position from the page whose identity is the
    given page's identity minus one: every step size returned pairs a
    position of a marcher on page [id - 1] with the position of the same
    marcher on page [id].  A marcher without an ending position on the
    page, or without a starting position on page [id - 1], has no step
    size in the list; so when no position lies on page [id - 1] the list
    is empty, and the minimum and the maximum are undefined.  Conversely
    every marcher given that has a position on page [id - 1] and one on
    page [id] has its step size in the list, computed from the first of
    its positions on each of the two pages. *)
Theorem batch_starts_on_page_id_minus_one
    (pow : float -> float -> float)
    (marchers : list Marcher.t) (marcherPages : list MarcherPage.t)
    (page : Page.t) (fieldProperties : FieldProperties.t) :
  let stepSizes :=
    StepSize.createStepSizesForMarchers pow marchers marcherPages page
      fieldProperties in
  let result :=
    StepSize.getMinAndMaxStepSizesForMarchers pow marchers marcherPages page
      fieldProperties in
  (forall s, In s stepSizes ->
     exists marcher start finish,
       In marcher marchers /\ In start marcherPages /\ In finish marcherPages
       /\ MarcherPage.page_id start = (Page.id page - 1)%Z
       /\ MarcherPage.page_id finish = Page.id page
       /\ MarcherPage.marcher_id start = Marcher.id marcher
       /\ MarcherPage.marcher_id finish = Marcher.id marcher
       /\ s = StepSize.new pow (Marcher.id marcher)
                (MarcherPage.x start) (MarcherPage.y start)
                (MarcherPage.x finish) (MarcherPage.y finish)
                (Page.counts page) fieldProperties)
  /\ (forall id : Z,
        (forall mp, In mp marcherPages ->
                    MarcherPage.page_id mp = Page.id page ->
                    MarcherPage.marcher_id mp <> id)
        \/ (forall mp, In mp marcherPages ->
                       MarcherPage.page_id mp = (Page.id page - 1)%Z ->
                       MarcherPage.marcher_id mp <> id) ->
        forall s, In s stepSizes -> StepSize.marcher_id s <> id)
  /\ ((forall mp, In mp marcherPages ->
                  MarcherPage.page_id mp <> (Page.id page - 1)%Z) ->
      stepSizes = []
      /\ StepSize.min result = None /\ StepSize.max result = None)
  /\ (forall marcher,
        In marcher marchers ->
        (exists mp, In mp marcherPages
                    /\ MarcherPage.page_id mp = (Page.id page - 1)%Z
                    /\ MarcherPage.marcher_id mp = Marcher.id marcher) ->
        (exists mp, In mp marcherPages
                    /\ MarcherPage.page_id mp = Page.id page
                    /\ MarcherPage.marcher_id mp = Marcher.id marcher) ->
        exists start finish,
          startingPage marcherPages page marcher = Some start
          /\ endingPage marcherPages page marcher = Some finish
          /\ In (StepSize.new pow (Marcher.id marcher)
                   (MarcherPage.x start) (MarcherPage.y start)
                   (MarcherPage.x finish) (MarcherPage.y finish)
                   (Page.counts page) fieldProperties)
                stepSizes).
Proof.
  intros stepSizes result.
  assert (Pairs : forall s, In s stepSizes ->
     exists marcher start finish,
       In marcher marchers /\ In start marcherPages /\ In finish marcherPages
       /\ MarcherPage.page_id start = (Page.id page - 1)%Z
       /\ MarcherPage.page_id finish = Page.id page
       /\ MarcherPage.marcher_id start = Marcher.id marcher
       /\ MarcherPage.marcher_id finish = Marcher.id marcher
       /\ s = StepSize.new pow (Marcher.id marcher)
                (MarcherPage.x start) (MarcherPage.y start)
                (MarcherPage.x finish) (MarcherPage.y finish)
                (Page.counts page) fieldProperties).
  { intros s Hs. apply createStepSizes_In in Hs.
    destruct Hs as (marcher & start & finish & Hm & Hstart & Hfinish & ->).
    apply find_filter_some in Hstart, Hfinish.
    destruct Hstart as (Is & Ps & Ms), Hfinish as (If & Pf & Mf).
    apply Z.eqb_eq in Ps, Ms, Pf, Mf.
    exists marcher, start, finish. rewrite Mf. repeat split; assumption. }
  split; [exact Pairs|]. split; [|split].
  - intros id Hno s Hs Eid.
    destruct (Pairs s Hs)
      as (marcher & start & finish & _ & Is & If & Ps & Pf & Ms & Mf & ->).
    cbn [StepSize.new StepSize.marcher_id] in Eid.
    destruct Hno as [Hno|Hno].
    + apply (Hno finish If Pf). congruence.
    + apply (Hno start Is Ps). congruence.
  - intros Hnone.
    assert (E : stepSizes = []).
    { destruct stepSizes as [|s rest] eqn:Es; [reflexivity|exfalso].
      destruct (Pairs s (or_introl eq_refl))
        as (_ & start & _ & _ & Is & _ & Ps & _).
      exact (Hnone start Is Ps). }
    split; [exact E|].
    unfold result, StepSize.getMinAndMaxStepSizesForMarchers.
    fold stepSizes. rewrite E. cbn. split; reflexivity.
  - intros marcher Hm (mp1 & I1 & P1 & M1) (mp2 & I2 & P2 & M2).
    destruct (find_filter_exists
                (fun mp => (MarcherPage.marcher_id mp =? Marcher.id marcher)%Z)
                (fun mp => (MarcherPage.page_id mp =? Page.id page - 1)%Z)
                marcherPages mp1 I1) as [start Hstart];
      [now apply Z.eqb_eq|now apply Z.eqb_eq|].
    destruct (find_filter_exists
                (fun mp => (MarcherPage.marcher_id mp =? Marcher.id marcher)%Z)
                (fun mp => (MarcherPage.page_id mp =? Page.id page)%Z)
                marcherPages mp2 I2) as [finish Hfinish];
      [now apply Z.eqb_eq|now apply Z.eqb_eq|].
    exists start, finish. split; [exact Hstart|]. split; [exact Hfinish|].
    apply createStepSizes_In. exists marcher, start, finish.
    repeat split; try assumption.
    apply find_filter_some in Hfinish. destruct Hfinish as (_ & _ & Mf).
    apply Z.eqb_eq in Mf. now rewrite Mf.
Qed.

(** The third page of a drill has the identity 5; its predecessor in the
    sequence is page 1, which holds a position for both marchers, but no
    position lies on page 4: no marcher has a step size.  With the
    identities 1 and 2 the same moves give marcher 2 its step size, 4
    steps per five yards, from its positions on the two pages. *)
Lemma batch_starts_on_page_id_minus_one_witness :
  Collab.getPreviousPage Scenario.page5 [Scenario.page1; Scenario.page5]
  = Some Scenario.page1
  /\ (StepSize.createStepSizesForMarchers Js.pow_integral
        [Scenario.marcher 1; Scenario.marcher 2] Scenario.twoMovesToPage5
        Scenario.page5 Scenario.field = []
      /\ StepSize.min
           (StepSize.getMinAndMaxStepSizesForMarchers Js.pow_integral
              [Scenario.marcher 1; Scenario.marcher 2]
              Scenario.twoMovesToPage5 Scenario.page5 Scenario.field) = None
      /\ StepSize.max
           (StepSize.getMinAndMaxStepSizesForMarchers Js.pow_integral
              [Scenario.marcher 1; Scenario.marcher 2]
              Scenario.twoMovesToPage5 Scenario.page5 Scenario.field) = None)
  /\ In {| StepSize.stepsPerFiveYards := 4; StepSize.marcher_id := 2 |}
       (StepSize.createStepSizesForMarchers Js.pow_integral
          [Scenario.marcher 1; Scenario.marcher 2] Scenario.twoMoves
          Scenario.page2 Scenario.field).
Proof.
  split; [reflexivity|]. split.
  - destruct (batch_starts_on_page_id_minus_one Js.pow_integral
                [Scenario.marcher 1; Scenario.marcher 2]
                Scenario.twoMovesToPage5 Scenario.page5 Scenario.field)
      as (_ & _ & Empty & _).
    apply Empty.
    intros mp Hmp. cbn in Hmp.
    repeat (destruct Hmp as [<-|Hmp]; [cbn; discriminate|]).
    destruct Hmp.
  - destruct (batch_starts_on_page_id_minus_one Js.pow_integral
                [Scenario.marcher 1; Scenario.marcher 2]
                Scenario.twoMoves Scenario.page2 Scenario.field)
      as (_ & _ & _ & Every).
    destruct (Every (Scenario.marcher 2)) as (start & finish & S & F & H).
    + cbn. tauto.
    + exists (Scenario.position 2 2 1 0 0). cbn. tauto.
    + exists (Scenario.position 4 2 2 160 0). cbn. tauto.
    + injection S as <-. injection F as <-. exact H.
Defined.

End BatchFacts.

(** ** The action handler *)

Module ActionsFacts.

Import Actions ActionsView.
Local Open Scope string_scope.

(** C5.  Every action requires a current page and a field
    configuration: when the selected page or the field properties are
    absent, [triggerAction] reports one error on the console and
    returns; it selects no page, submits no position, and changes no
    setting. *)
Theorem triggerAction_requires_page_and_field
    (env : Collaborators) (st : State) (action : RegisteredActionsEnum) :
  selectedPage st = None \/ fieldProperties st = None ->
  exists msg : string,
    triggerAction env st action = ([ConsoleError msg], Normal tt).
Proof.
  intros [H|H]; unfold triggerAction.
  - rewrite H. now exists "No selected page".
  - rewrite H. destruct (selectedPage st).
    + now exists "No field properties".
    + now exists "No selected page".
Qed.

Lemma triggerAction_requires_page_and_field_witness :
  exists msg : string,
    triggerAction Collab.collaborators Scenario.noPage
      setAllMarchersToPreviousPage
    = ([ConsoleError msg], Normal tt).
Proof.
  apply (triggerAction_requires_page_and_field Collab.collaborators
           Scenario.noPage setAllMarchersToPreviousPage).
  left. reflexivity.
Defined.

Lemma filter_none {A : Type} (l : list A) : filter (fun _ => false) l = [].
Proof. induction l; cbn; auto. Qed.

(** C6.  Applying the previous page's positions to the current page,
    for all marchers: with a current page and field properties present,
    the handler builds the whole list of patches, one per position of
    the previous page and each the position retargeted to the current
    page, and submits it in a single call of [updateMarcherPages]; it
    does nothing else.  The list has as many entries as the previous
    page has positions, and is empty when there is no previous page. *)
Theorem setAllMarchersToPreviousPage_single_submission
    (env : Collaborators) (st : State)
    (page : Page.t) (fieldProps : FieldProperties.t) :
  selectedPage st = Some page ->
  fieldProperties st = Some fieldProps ->
  exists changes : list MarcherPage.t,
    triggerAction env st setAllMarchersToPreviousPage
    = ([UpdateMarcherPages changes], Normal tt)
    /\ Forall (fun c => MarcherPage.page_id c = Page.id page) changes
    /\ match Page_getPreviousPage env page (pages st) with
       | Some previous =>
           changes
           = map (fun mp => MarcherPage.with_page_id mp (Page.id page))
               (positionsOn previous (marcherPages st))
           /\ List.length changes
              = List.length (positionsOn previous (marcherPages st))
       | None => changes = []
       end.
Proof.
  intros Hp Hf. unfold triggerAction. rewrite Hp, Hf.
  eexists. split; [reflexivity|]. split.
  - apply Forall_forall. intros c Hc. apply in_map_iff in Hc.
    destruct Hc as (mp & <- & _). reflexivity.
  - destruct (Page_getPreviousPage env page (pages st)) as [previous|];
      cbn [option_map strict_eq_optional].
    + split; [reflexivity|]. apply length_map.
    + now rewrite filter_none.
Qed.

(** Fifty marchers: one submission of fifty patches. *)
Lemma setAllMarchersToPreviousPage_single_submission_witness :
  exists changes : list MarcherPage.t,
    triggerAction Collab.collaborators Scenario.fiftyMarchers
      setAllMarchersToPreviousPage
    = ([UpdateMarcherPages changes], Normal tt)
    /\ List.length changes = 50%nat
    /\ Forall (fun c => MarcherPage.page_id c = 2%Z) changes.
Proof.
  destruct (setAllMarchersToPreviousPage_single_submission
              Collab.collaborators Scenario.fiftyMarchers
              Scenario.page2 Scenario.field eq_refl eq_refl)
    as (changes & Hrun & Hpage & Hprev).
  exists changes. split; [exact Hrun|]. split; [|exact Hpage].
  change (Page_getPreviousPage Collab.collaborators Scenario.page2
            (pages Scenario.fiftyMarchers))
    with (Some Scenario.page1) in Hprev.
  destruct Hprev as [_ Hlen]. rewrite Hlen. reflexivity.
Defined.

(** *** The missing guard of [setSelectedMarcherToPreviousPage] *)

(** With a position on the previous page and no marcher selected, the
    search for the previous position throws: its predicate reads
    [selectedMarchers[0].id]. *)
Lemma find_previous_throws (previous : Page.t) (mp : MarcherPage.t)
    (marcherPages : list MarcherPage.t) :
  In mp marcherPages ->
  MarcherPage.page_id mp = Page.id previous ->
  Array_find
    (fun marcherPage =>
       if strict_eq_optional (MarcherPage.page_id marcherPage)
            (Some (Page.id previous))
       then
         match @nth_error Marcher.t [] 0 with
         | Some marcher =>
             Normal (MarcherPage.marcher_id marcherPage
                     =? Marcher.id marcher)%Z
         | None => Throw undefined_id
         end
       else Normal false)
    marcherPages
  = Throw undefined_id.
Proof.
  intros Hin Hid. induction marcherPages as [|mp' l IH]; [destruct Hin|].
  cbn [Array_find strict_eq_optional nth_error].
  destruct (MarcherPage.page_id mp' =? Page.id previous)%Z eqn:E;
    [reflexivity|].
  destruct Hin as [->|Hin]; [apply Z.eqb_neq in E; contradiction|].
  cbn [strict_eq_optional nth_error] in IH. now apply IH.
Qed.

(** C2, where the code fails it.  A page is selected, the field
    properties are present, the previous page holds a position and no
    marcher is selected: dispatching [setSelectedMarcherToPreviousPage]
    does not degrade to a reported no-op; the handler throws a
    [TypeError] out of [triggerAction], whatever the navigation
    functions of [Page] are. *)
Theorem setSelectedMarcherToPreviousPage_throws_without_selection
    (env : Collaborators) (st : State)
    (page previous : Page.t) (fieldProps : FieldProperties.t)
    (mp : MarcherPage.t) :
  selectedPage st = Some page ->
  fieldProperties st = Some fieldProps ->
  Page_getPreviousPage env page (pages st) = Some previous ->
  In mp (marcherPages st) ->
  MarcherPage.page_id mp = Page.id previous ->
  selectedMarchers st = [] ->
  triggerAction env st setSelectedMarcherToPreviousPage
  = ([], Throw undefined_id).
Proof.
  intros Hp Hf Hprev Hin Hid Hsel. unfold triggerAction.
  rewrite Hp, Hf, Hprev, Hsel. cbn [option_map].
  fold undefined_id.
  now rewrite (find_previous_throws previous mp (marcherPages st) Hin Hid).
Qed.

(** Page 2 selected, a position on page 1, nothing selected. *)
Lemma setSelectedMarcherToPreviousPage_throws_without_selection_witness :
  triggerAction Collab.collaborators Scenario.nothingSelected
    setSelectedMarcherToPreviousPage
  = ([], Throw undefined_id).
Proof.
  apply (setSelectedMarcherToPreviousPage_throws_without_selection
           Collab.collaborators Scenario.nothingSelected
           Scenario.page2 Scenario.page1 Scenario.field
           (Scenario.position 1 1 1 100 100));
    try reflexivity.
  left. reflexivity.
Defined.

(** A selected marcher without a record on the selected page is handed
    to [getRoundCoordinates] as [undefined]. *)
Lemma getSelectedMarcherPages_undefined :
  getSelectedMarcherPages
    {| pages := [Scenario.page1; Scenario.page2];
       isPlaying := false;
       marcherPages := [Scenario.position 1 1 1 100 100];
       selectedPage := Some Scenario.page2;
       selectedMarchers := [Scenario.marcher 1];
       fieldProperties := Some Scenario.field;
       uiSettings := Scenario.settings |}
  = ([], Normal [None]).
Proof. reflexivity. Qed.

(** *** The keyboard listener *)

(** The chords of the dictionary, in the order of their insertion. *)
Lemma keyboardShortcutDictionary_value :
  keyboardShortcutDictionary
  = [ ("E", nextPage); ("Shift + E", lastPage);
      ("Q", previousPage); ("Shift + Q", firstPage);
      ("Space", playPause);
      ("Ctrl + Shift + P", setAllMarchersToPreviousPage);
      ("Shift + P", setSelectedMarcherToPreviousPage);
      ("1", snapToNearestWhole); ("Z", lockX); ("X", lockY);
      ("M", toggleNextPagePaths); ("N", togglePreviousPagePaths) ].
Proof. reflexivity. Qed.

(** How the listener dispatches: nothing happens while an editable control
    has the focus or when the chord is not bound; otherwise the bound
    action is triggered and, when its handler returns, the default of
    the event is suppressed. *)
Lemma handleKeyDown_dispatch
    (env : Collaborators) (st : State)
    (activeElement : option Element) (e : KeyboardEvent) :
  handleKeyDown env st activeElement e
  = if editable activeElement then ret tt
    else match Object_get keyboardShortcutDictionary (chord e) with
         | Some action => triggerAction env st action ;; emit PreventDefault
         | None => ret tt
         end.
Proof.
  unfold handleKeyDown, editable, chord.
  destruct activeElement as [el|]; [destruct (matches_editable el)|];
    reflexivity.
Qed.

Lemma handleKeyDown_returns
    (env : Collaborators) (st : State)
    (activeElement : option Element) (e : KeyboardEvent)
    (action : RegisteredActionsEnum) (calls : list Effect) :
  editable activeElement = false ->
  Object_get keyboardShortcutDictionary (chord e) = Some action ->
  triggerAction env st action = (calls, Normal tt) ->
  handleKeyDown env st activeElement e
  = ((calls ++ [PreventDefault])%list, Normal tt).
Proof.
  intros He Hk Ht. rewrite handleKeyDown_dispatch, He, Hk, Ht. reflexivity.
Qed.

(** C7, where the code fails it.  The focus is outside any editable
    control and the chord of the event is the chord of
    [setSelectedMarcherToPreviousPage]; a page is selected, the previous
    page holds a position and no marcher is selected.  The handler is
    invoked and throws, so the listener never reaches [preventDefault]:
    the default of the event is not suppressed. *)
Theorem handleKeyDown_default_not_suppressed
    (env : Collaborators) (st : State)
    (activeElement : option Element) (e : KeyboardEvent)
    (page previous : Page.t) (fieldProps : FieldProperties.t)
    (mp : MarcherPage.t) :
  editable activeElement = false ->
  Object_get keyboardShortcutDictionary (chord e)
  = Some setSelectedMarcherToPreviousPage ->
  selectedPage st = Some page ->
  fieldProperties st = Some fieldProps ->
  Page_getPreviousPage env page (pages st) = Some previous ->
  In mp (marcherPages st) ->
  MarcherPage.page_id mp = Page.id previous ->
  selectedMarchers st = [] ->
  handleKeyDown env st activeElement e = ([], Throw undefined_id)
  /\ ~ In PreventDefault (fst (handleKeyDown env st activeElement e)).
Proof.
  intros He Hk Hp Hf Hprev Hin Hid Hsel.
  assert (E : handleKeyDown env st activeElement e = ([], Throw undefined_id)).
  { rewrite handleKeyDown_dispatch, He, Hk. unfold triggerAction.
    rewrite Hp, Hf, Hprev, Hsel. cbn [option_map]. fold undefined_id.
    now rewrite (find_previous_throws previous mp (marcherPages st) Hin Hid). }
  split; [exact E|]. rewrite E. intros [].
Qed.

(** Shift + P on the canvas, page 2 selected, nothing selected. *)
Lemma handleKeyDown_default_not_suppressed_witness :
  chord Scenario.shiftP = "Shift + P"
  /\ handleKeyDown Collab.collaborators Scenario.nothingSelected None
       Scenario.shiftP
     = ([], Throw undefined_id)
  /\ ~ In PreventDefault
         (fst (handleKeyDown Collab.collaborators Scenario.nothingSelected
                 None Scenario.shiftP)).
Proof.
  split; [reflexivity|].
  apply (handleKeyDown_default_not_suppressed
           Collab.collaborators Scenario.nothingSelected None Scenario.shiftP
           Scenario.page2 Scenario.page1 Scenario.field
           (Scenario.position 1 1 1 100 100));
    try reflexivity.
  left. reflexivity.
Defined.

End ActionsFacts.

(** ** The canvas *)

Module CanvasFacts.

Import Canvas CanvasView.

Lemma identity_setMarcherCoords (ops : CanvasMarcherClass) (target : nat)
    (mp : MarcherPage.t) (o : Object) :
  identity (setMarcherCoords ops target mp o) = identity o.
Proof.
  unfold setMarcherCoords.
  destruct (oid o =? target)%nat; [|reflexivity].
  destruct o as [n [| m xy | m xy col | a b col]]; reflexivity.
Qed.

Lemma isCanvasMarcher_live (o : Object) :
  isCanvasMarcher o = live (identity o).
Proof. destruct o as [n [| m xy | m xy col | a b col]]; reflexivity. Qed.

Lemma marcherObj_id_is_bound (id : Z) (o : Object) :
  marcherObj_id_is id o = bound id (identity o).
Proof. destruct o as [n [| m xy | m xy col | a b col]]; reflexivity. Qed.

(** The live markers of a canvas, read off its identities. *)
Lemma identities_getCanvasMarchers (c : t) :
  map identity (getCanvasMarchers c) = filter live (identities c).
Proof.
  unfold getCanvasMarchers, identities.
  induction (objects c) as [|o os IH]; [reflexivity|].
  cbn [filter map]. rewrite isCanvasMarcher_live.
  destruct (live (identity o)); cbn [map]; congruence.
Qed.

Lemma find_marker_none (id : Z) (c : t) :
  find (marcherObj_id_is id) (getCanvasMarchers c) = None
  <-> existsb (bound id) (identities c) = false.
Proof.
  unfold getCanvasMarchers, identities.
  induction (objects c) as [|o os IH]; [cbn; tauto|].
  cbn [filter map existsb].
  destruct (isCanvasMarcher o) eqn:E.
  - cbn [find]. rewrite marcherObj_id_is_bound.
    destruct (bound id (identity o)); cbn [orb]; [split; discriminate|].
    exact IH.
  - rewrite isCanvasMarcher_live in E.
    assert (B : bound id (identity o) = false).
    { unfold bound, live in *. now destruct (snd (identity o)). }
    rewrite B. exact IH.
Qed.

Section Render.
Variable ops : CanvasMarcherClass.
Variable snapshot : list Object.
Variable allMarchers : list Marcher.t.

Let findMarcher (mp : MarcherPage.t) : option Marcher.t :=
  find (fun marcher => (Marcher.id marcher =? MarcherPage.marcher_id mp)%Z)
    allMarchers.

(** One turn of the loop adds a marker or none, and changes the
    identity of no object. *)
Lemma renderMarcher_identities (c : t) (mp : MarcherPage.t) :
  identities (renderMarcher ops snapshot allMarchers c mp)
  = (identities c
     ++ match find (marcherObj_id_is (MarcherPage.marcher_id mp)) snapshot,
              findMarcher mp with
        | None, Some m => [(nextOid c, Some m)]
        | _, _ => []
        end)%list.
Proof.
  unfold renderMarcher, identities, findMarcher.
  destruct (find (marcherObj_id_is _) snapshot) as [cm|].
  - cbn [with_objects objects]. rewrite map_map, app_nil_r.
    apply map_ext. intros o. apply identity_setMarcherCoords.
  - destruct (find _ allMarchers) as [m|].
    + cbn [add requestRenderAll with_objects objects]. now rewrite map_app.
    + cbn [console_error objects]. now rewrite app_nil_r.
Qed.

Lemma render_loop_prefix (mps : list MarcherPage.t) (c : t) :
  exists added,
    identities (fold_left (renderMarcher ops snapshot allMarchers) mps c)
    = (identities c ++ added)%list.
Proof.
  revert c. induction mps as [|mp mps IH]; intros c; cbn [fold_left].
  - exists []. now rewrite app_nil_r.
  - destruct (IH (renderMarcher ops snapshot allMarchers c mp)) as (added & E).
    rewrite E, renderMarcher_identities, <- app_assoc. eauto.
Qed.

(** After the loop every position has a live marker, unless its marcher
    is not in the store. *)
Lemma render_loop_covers (mps : list MarcherPage.t) (c : t) :
  (forall id, find (marcherObj_id_is id) snapshot <> None ->
              existsb (bound id) (identities c) = true) ->
  forall mp, In mp mps ->
    existsb (bound (MarcherPage.marcher_id mp))
      (identities (fold_left (renderMarcher ops snapshot allMarchers) mps c))
    = true
    \/ findMarcher mp = None.
Proof.
  revert c. induction mps as [|mp0 mps IH]; intros c Inv mp Hin;
    [destruct Hin|].
  cbn [fold_left].
  set (c' := renderMarcher ops snapshot allMarchers c mp0).
  assert (Grow : forall id, existsb (bound id) (identities c) = true ->
                            existsb (bound id) (identities c') = true).
  { intros id H. unfold c'. rewrite renderMarcher_identities, existsb_app, H.
    reflexivity. }
  destruct Hin as [<-|Hin].
  - destruct (render_loop_prefix mps c') as (added & ->).
    rewrite existsb_app.
    assert (Here : existsb (bound (MarcherPage.marcher_id mp0))
                     (identities c') = true
                   \/ findMarcher mp0 = None).
    { unfold c'. rewrite renderMarcher_identities, existsb_app.
      destruct (find (marcherObj_id_is (MarcherPage.marcher_id mp0)) snapshot)
        as [cm|] eqn:F.
      - left. rewrite Inv; [reflexivity|]. rewrite F. discriminate.
      - destruct (findMarcher mp0) as [m|] eqn:G; [left|now right].
        unfold findMarcher in G. apply find_some in G. destruct G as [_ G].
        cbn. unfold bound. cbn [snd]. rewrite G. now rewrite !orb_true_r. }
    destruct Here as [-> |N]; [left; reflexivity|right; exact N].
  - apply IH; [|exact Hin]. intros id H. apply Grow. now apply Inv.
Qed.

(** A loop over positions that all have a marker in the snapshot, or no
    marcher in the store, adds nothing. *)
Lemma render_loop_stable (mps : list MarcherPage.t) (c : t) :
  (forall mp, In mp mps ->
     find (marcherObj_id_is (MarcherPage.marcher_id mp)) snapshot <> None
     \/ findMarcher mp = None) ->
  identities (fold_left (renderMarcher ops snapshot allMarchers) mps c)
  = identities c.
Proof.
  revert c. induction mps as [|mp mps IH]; intros c H; [reflexivity|].
  cbn [fold_left]. rewrite IH by (intros; apply H; now right).
  rewrite renderMarcher_identities.
  destruct (H mp (or_introl eq_refl)) as [F|F].
  - destruct (find _ snapshot); [apply app_nil_r|congruence].
  - rewrite F. destruct (find _ snapshot); apply app_nil_r.
Qed.

End Render.

Lemma identities_requestRenderAll (c : t) :
  identities (requestRenderAll c) = identities c.
Proof. reflexivity. Qed.

Lemma getCanvasMarchers_requestRenderAll (c : t) :
  getCanvasMarchers (requestRenderAll c) = getCanvasMarchers c.
Proof. reflexivity. Qed.

(** C9.  [renderMarchers] removes no visual marker: the markers on the
    canvas after the call are the markers that were on it before, each
    the same object bound to the same marcher and in the same order,
    followed by the markers the call created.  Markers of marchers
    without a position in the given set are among them. *)
Theorem renderMarchers_keeps_markers
    (ops : CanvasMarcherClass)
    (c : t) (selectedMarcherPages : list MarcherPage.t)
    (allMarchers : list Marcher.t) :
  exists created,
    map identity
      (getCanvasMarchers
         (renderMarchers ops c selectedMarcherPages allMarchers))
    = (map identity (getCanvasMarchers c) ++ created)%list.
Proof.
  unfold renderMarchers. rewrite getCanvasMarchers_requestRenderAll.
  rewrite !identities_getCanvasMarchers.
  destruct (render_loop_prefix ops (getCanvasMarchers c) allMarchers
              selectedMarcherPages c) as (added & ->).
  rewrite filter_app. eauto.
Qed.

(** C8.  [renderMarchers] is idempotent on the set of visual markers:
    called a second time with the same positions and marchers, it
    creates no marker and removes none; the live markers after the
    second call are the same objects, bound to the same marchers, as
    after the first, and as many. *)
Theorem renderMarchers_idempotent_on_markers
    (ops : CanvasMarcherClass)
    (c : t) (selectedMarcherPages : list MarcherPage.t)
    (allMarchers : list Marcher.t) :
  let once := renderMarchers ops c selectedMarcherPages allMarchers in
  let twice := renderMarchers ops once selectedMarcherPages allMarchers in
  map identity (getCanvasMarchers twice) = map identity (getCanvasMarchers once)
  /\ List.length (getCanvasMarchers twice)
     = List.length (getCanvasMarchers once)
  /\ map oid (objects twice) = map oid (objects once).
Proof.
  intros once twice.
  assert (E : identities twice = identities once).
  { unfold twice, renderMarchers at 1.
    rewrite identities_requestRenderAll.
    apply render_loop_stable. intros mp Hin.
    destruct (render_loop_covers ops (getCanvasMarchers c) allMarchers
                selectedMarcherPages c) with (mp := mp) as [H|H];
      try assumption.
    - intros id Hid. destruct (existsb (bound id) (identities c)) eqn:B;
        [reflexivity|]. apply find_marker_none in B. contradiction.
    - left. intros N. apply find_marker_none in N.
      unfold once, renderMarchers in N.
      rewrite identities_requestRenderAll in N. congruence.
    - now right. }
  assert (M : map identity (getCanvasMarchers twice)
              = map identity (getCanvasMarchers once))
    by now rewrite !identities_getCanvasMarchers, E.
  split; [exact M|]. split.
  - now rewrite <- (length_map identity), M, length_map.
  - unfold identities in E.
    apply (f_equal (map fst)) in E. now rewrite !map_map in E.
Qed.

End CanvasFacts.

(** ** Zooming *)

Module ZoomFacts.

Import Canvas ZoomView FloatFacts FloatArith.
Local Open Scope float_scope.
Local Set Warnings "-inexact-float".

Section Wheel.
Variable pow : float -> float -> float.

(** The handler clamps: first from above, then from below. *)
Lemma wheelZoom_clamp (zoom0 delta : float) :
  wheelZoom pow zoom0 delta
  = Reference.clamp (zoom0 * pow 0.999 delta) 0.35 25.
Proof.
  unfold wheelZoom, Reference.clamp, Js.gt, Js.lt.
  set (x := zoom0 * pow 0.999 delta).
  destruct (25 <? x) eqn:Hi.
  - change (25 <? 0.35) with false. cbv iota.
    destruct (x <? 0.35) eqn:Lo; [|reflexivity].
    pose proof (ltb_trans 25 x 0.35 Hi Lo) as T. discriminate T.
  - reflexivity.
Qed.

Lemma wheelZoom_in_range (zoom0 delta : float) :
  is_nan (zoom0 * pow 0.999 delta) = false ->
  in_range (wheelZoom pow zoom0 delta).
Proof.
  intros Hx. unfold wheelZoom, in_range, Js.gt, Js.lt.
  set (x := zoom0 * pow 0.999 delta) in *.
  assert (N25 : is_nan 25 = false) by reflexivity.
  assert (N35 : is_nan 0.35 = false) by reflexivity.
  destruct (25 <? x) eqn:Hi.
  - change (25 <? 0.35) with false. cbv iota. split; reflexivity.
  - destruct (x <? 0.35) eqn:Lo.
    + split; reflexivity.
    + split.
      * rewrite leb_negb_ltb by assumption. now rewrite Lo.
      * rewrite leb_negb_ltb by assumption. now rewrite Hi.
Qed.

Lemma in_range_usable (z : float) : in_range z -> usable z.
Proof.
  intros [Lo Hi]. unfold usable.
  eapply (finite_between 0.35 25 z); try eassumption; reflexivity.
Qed.

Lemma step_in_range (c : t) (e : WheelEvent) :
  usable (zoom c) ->
  is_nan (pow 0.999 (deltaY e)) = false ->
  in_range (zoom (fst (handleMouseWheel pow c e))).
Proof.
  intros (m & ex & Hz) Hp. cbn [handleMouseWheel fst].
  assert (Z0 : forall c0 : t,
             zoom (if negb (staticGridCaching c0)
                   then set_objectCaching c0 true else c0) = zoom c0)
    by (intros c0; now destruct (staticGridCaching c0)).
  cbn [restartZoomTimeout zoomToPoint zoom]. rewrite !Z0.
  apply wheelZoom_in_range. now apply (mul_number _ _ false m ex).
Qed.

Lemma wheelEvents_snoc (c : t) (es : list WheelEvent) (e : WheelEvent) :
  wheelEvents pow c (es ++ [e])
  = fst (handleMouseWheel pow (wheelEvents pow c es) e).
Proof. unfold wheelEvents. now rewrite fold_left_app. Qed.

Lemma wheelEvents_usable (es : list WheelEvent) (c : t) :
  usable (zoom c) ->
  Forall (fun e => is_nan (pow 0.999 (deltaY e)) = false) es ->
  usable (zoom (wheelEvents pow c es))
  /\ (es <> [] -> in_range (zoom (wheelEvents pow c es))).
Proof.
  induction es as [|e es IH] using rev_ind; intros Hc Hes.
  - split; [exact Hc|congruence].
  - apply Forall_app in Hes. destruct Hes as [Hes He].
    inversion He as [|? ? Hp _]; subst.
    destruct (IH Hc Hes) as [U _].
    rewrite wheelEvents_snoc.
    pose proof (step_in_range (wheelEvents pow c es) e U Hp) as R.
    split; [now apply in_range_usable|intros _; exact R].
Qed.

End Wheel.

(** C4.  For every sequence of wheel events on a viewport whose zoom is
    a finite positive number, [0.999 ** deltaY] being a number for each
    of them: every event sets the zoom to
    [clamp (previousZoom * 0.999 ** deltaY, 0.35, 25)], pivoted at the
    position of the cursor, and after each event the zoom lies within
    [0.35, 25], bounds included. *)
Theorem wheel_zoom_clamped
    (pow : float -> float -> float) (c : t) (events : list WheelEvent) :
  (0 <? zoom c) = true -> (zoom c <? infinity) = true ->
  Forall (fun e => is_nan (pow 0.999 (deltaY e)) = false) events ->
  forall (done : list WheelEvent) (e : WheelEvent) (rest : list WheelEvent),
    events = (done ++ e :: rest)%list ->
    let before := wheelEvents pow c done in
    let after := wheelEvents pow c (done ++ [e]) in
    zoom after = Reference.clamp (zoom before * pow 0.999 (deltaY e)) 0.35 25
    /\ zoomPoint after = Some (offsetX e, offsetY e)
    /\ (0.35 <=? zoom after) = true
    /\ (zoom after <=? 25) = true.
Proof.
  intros Hpos Hfin Hev done e rest -> before after.
  assert (U : usable (zoom c)) by now apply finite_positive.
  assert (Hd : Forall (fun e => is_nan (pow 0.999 (deltaY e)) = false)
                 (done ++ [e])).
  { apply Forall_app in Hev. destruct Hev as [H1 H2].
    apply Forall_app. split; [exact H1|].
    inversion H2; subst. now constructor. }
  destruct (wheelEvents_usable pow (done ++ [e]) c U Hd) as [_ R].
  destruct R as [Lo Hi]; [now destruct done|].
  fold after in Lo, Hi.
  assert (Z0 : forall c0 : t,
             zoom (if negb (staticGridCaching c0)
                   then set_objectCaching c0 true else c0) = zoom c0)
    by (intros c0; now destruct (staticGridCaching c0)).
  unfold after. rewrite wheelEvents_snoc. fold before.
  cbn [handleMouseWheel fst restartZoomTimeout zoomToPoint zoom zoomPoint].
  rewrite !Z0, wheelZoom_clamp.
  unfold after in Lo, Hi. rewrite wheelEvents_snoc in Lo, Hi. fold before in Lo, Hi.
  cbn [handleMouseWheel fst restartZoomTimeout zoomToPoint zoom] in Lo, Hi.
  rewrite !Z0, wheelZoom_clamp in Lo, Hi.
  repeat split; assumption.
Qed.

(** Three wheel events on a canvas at zoom 1: zooming in, zooming far
    out, and zooming in again. *)
Lemma wheel_zoom_clamped_witness :
  let events := [Scenario.wheel (-120); Scenario.wheel 3000;
                 Scenario.wheel (-5000)] in
  let after := wheelEvents Js.pow_integral Scenario.emptyCanvas events in
  zoomPoint after = Some (300, 200)
  /\ (0.35 <=? zoom after) = true
  /\ (zoom after <=? 25) = true.
Proof.
  intros events after.
  destruct (wheel_zoom_clamped Js.pow_integral Scenario.emptyCanvas events)
    with (done := [Scenario.wheel (-120); Scenario.wheel 3000])
         (e := Scenario.wheel (-5000)) (rest := @nil WheelEvent)
    as (_ & P & Lo & Hi); try reflexivity.
  - unfold events. repeat constructor.
  - repeat split; assumption.
Defined.

End ZoomFacts.

(** ** Symmetries of binary64 subtraction *)

Module FloatSymmetry.

Import FloatOrder FloatOrderFacts FloatFacts Rounding Subtraction FloatArith.
Import MoreViews SymmetryView.
Local Open Scope float_scope.

(** Rounding does not look at the sign. *)
Lemma binary_round_aux_opp (m e : Z) (l : location) :
  binary_round_aux prec emax true m e l
  = SFopp (binary_round_aux prec emax false m e l).
Proof.
  unfold binary_round_aux.
  destruct (shr_fexp prec emax m e l) as [mrs' e'].
  destruct (shr_fexp prec emax _ e' loc_Exact) as [mrs'' e''].
  destruct (shr_m mrs''); try reflexivity.
  destruct (e'' <=? emax - prec)%Z; reflexivity.
Qed.

Lemma binary_round_opp (p : positive) (e : Z) :
  binary_round prec emax true p e = SFopp (binary_round prec emax false p e).
Proof.
  unfold binary_round. destruct (shl_align _ _ _).
  apply binary_round_aux_opp.
Qed.

Lemma binary_normalize_mirrored (m e : Z) :
  mirrored (binary_normalize prec emax m e false)
    (binary_normalize prec emax (- m) e false).
Proof.
  destruct m as [|p|p]; cbn [binary_normalize Z.opp].
  - right. split; reflexivity.
  - left. apply binary_round_opp.
  - left. rewrite binary_round_opp.
    destruct (binary_round _ _ _ _ _) as [[]|[]| |[] ? ?]; reflexivity.
Qed.

(** Swapping the operands of a subtraction negates the result. *)
Lemma SFsub_mirrored (x y : spec_float) :
  mirrored (SF64sub x y) (SF64sub y x).
Proof.
  unfold SF64sub.
  destruct x as [sx|sx| |sx mx ex], y as [sy|sy| |sy my ey];
    try (destruct sx); try (destruct sy);
    try (left; reflexivity); try (right; split; reflexivity);
    cbn [SFsub cond_Zopp]; rewrite (Z.min_comm ey ex);
    match goal with
    | |- mirrored (binary_normalize _ _ ?a _ _) (binary_normalize _ _ ?b _ _) =>
        replace b with (- a)%Z by lia
    end;
    apply binary_normalize_mirrored.
Qed.

Lemma SFabs_mirrored (r r' : spec_float) : mirrored r r' -> SFabs r' = SFabs r.
Proof.
  intros [->|[Z Z']].
  - now destruct r.
  - destruct r, r'; try discriminate; reflexivity.
Qed.

(** [|x - y| = |y - x|], for all floats. *)
Lemma abs_sub_comm (x y : float) : abs (x - y) = abs (y - x).
Proof.
  apply Prim2SF_inj. rewrite !abs_spec, !sub_spec.
  apply SFabs_mirrored. apply SFsub_mirrored.
Qed.

Lemma SFltb_zero_r (r : spec_float) :
  SFltb r (S754_zero false) = negative_result r.
Proof. destruct r as [s|s| |s m e]; try destruct s; reflexivity. Qed.

Lemma negative_mirrored (r r' : spec_float) :
  mirrored r r' -> negative_result r' = positive_result r.
Proof.
  intros [->|[Z Z']].
  - destruct r as [s|s| |s m e]; try destruct s; reflexivity.
  - destruct r, r'; try discriminate; reflexivity.
Qed.

(** [y - x < 0] exactly when [y < x], for all floats. *)
Lemma sub_negative (x y : float) : (y - x <? 0) = (y <? x).
Proof.
  rewrite <- (sub_positive y x).
  rewrite !ltb_spec, !sub_spec.
  change (Prim2SF 0) with (S754_zero false).
  rewrite SFltb_zero, SFltb_zero_r.
  apply negative_mirrored. apply SFsub_mirrored.
Qed.

Lemma finite_spec (x : float) :
  is_finite x = true ->
  (exists s, Prim2SF x = S754_zero s)
  \/ (exists s m e, Prim2SF x = S754_finite s m e).
Proof.
  unfold is_finite, is_infinity. rewrite is_nan_spec, eqb_spec, abs_spec.
  change (Prim2SF infinity) with (S754_infinity false).
  destruct (Prim2SF x) as [s|s| |s m e]; cbn; try discriminate; eauto.
Qed.

(** A finite number minus itself is [+0]. *)
Lemma sub_diag (x : float) : is_finite x = true -> x - x = 0.
Proof.
  intros H. apply Prim2SF_inj. rewrite sub_spec.
  change (Prim2SF 0) with (S754_zero false).
  destruct (finite_spec x H) as [(s & ->)|(s & m & e & ->)].
  - now destruct s.
  - unfold SF64sub. cbn [SFsub]. now rewrite Z.sub_diag.
Qed.

End FloatSymmetry.

(** ** More on step sizes *)

Module StepSizeMore.

Import FloatOrder FloatFacts Rounding FloatArith FloatSymmetry.
Import BatchView BatchMoreView ComparatorView BatchFacts.
Local Open Scope float_scope.

(** X1.  The step size of a move does not depend on its direction:
    swapping the start and the end of a move gives the same [StepSize],
    for all coordinates and counts (NaN and the infinities included),
    because only the absolute differences of the coordinates enter
    [calculateStepSize]. *)
Theorem stepSize_of_reverse_move
    (pow : float -> float -> float) (id : Z)
    (startingX startingY endingX endingY counts : float)
    (fieldProperties : FieldProperties.t) :
  StepSize.new pow id startingX startingY endingX endingY counts
    fieldProperties
  = StepSize.new pow id endingX endingY startingX startingY counts
      fieldProperties.
Proof.
  unfold StepSize.new, StepSize.calculateStepSize, Js.Math_abs.
  now rewrite (abs_sub_comm endingX startingX),
    (abs_sub_comm endingY startingY).
Qed.

(** X2.  A marcher that does not move holds.  When the start and the
    end of a move are the same finite point and the counts are a number
    other than zero, the step size is [+Infinity] steps per five yards
    and displays as Hold, provided the host's [0 ** 2] is [0]. *)
Theorem standing_still_is_a_hold
    (pow : float -> float -> float) (toLocaleString : float -> string)
    (id : Z) (x y counts : float) (fieldProperties : FieldProperties.t) :
  pow 0 2 = 0 ->
  is_finite x = true -> is_finite y = true ->
  Js.truthy counts = true ->
  let s := StepSize.new pow id x y x y counts fieldProperties in
  StepSize.stepsPerFiveYards s = infinity
  /\ StepSize.displayString toLocaleString s = "Hold"%string.
Proof.
  intros Hpow Hx Hy Hc s.
  assert (E : StepSize.stepsPerFiveYards s = infinity).
  { unfold s, StepSize.new, StepSize.calculateStepSize, Js.not.
    cbn [StepSize.stepsPerFiveYards]. rewrite Hc. cbn [negb].
    rewrite (sub_diag x Hx), (sub_diag y Hy).
    change (Js.Math_abs 0) with 0. rewrite Hpow. reflexivity. }
  split; [exact E|]. unfold StepSize.displayString. rewrite E. reflexivity.
Qed.

Lemma standing_still_is_a_hold_witness :
  StepSize.displayString Js.toLocaleString_enUS
    (StepSize.new Js.pow_integral 3 120 (-40.5) 120 (-40.5) 4 Scenario.field)
  = "Hold"%string.
Proof.
  apply (standing_still_is_a_hold Js.pow_integral Js.toLocaleString_enUS 3%Z
           120 (-40.5) 4 Scenario.field); reflexivity.
Defined.

Lemma binary_round_number (s : bool) (m : positive) (e : Z) :
  is_number (binary_round prec emax s m e) = true.
Proof.
  unfold binary_round. destruct (shl_align _ _ _).
  apply binary_round_aux_number.
Qed.

Lemma binary_normalize_number (m e : Z) (szero : bool) :
  is_number (binary_normalize prec emax m e szero) = true.
Proof.
  destruct m; cbn [binary_normalize];
    [reflexivity|apply binary_round_number..].
Qed.

(** The difference of two finite numbers is a number. *)
Lemma sub_number (x y : float) :
  is_finite x = true -> is_finite y = true -> is_nan (x - y) = false.
Proof.
  intros Hx Hy. rewrite is_nan_spec, sub_spec.
  destruct (finite_spec x Hx) as [(sx & ->)|(sx & mx & ex & ->)],
           (finite_spec y Hy) as [(sy & ->)|(sy & my & ey & ->)].
  - now destruct sx, sy.
  - reflexivity.
  - reflexivity.
  - unfold SF64sub. cbn [SFsub]. now rewrite binary_normalize_number.
Qed.

Lemma lessCF_spec (a b : StepSize.t) :
  lessCF a b
  = (StepSize.stepsPerFiveYards b <? StepSize.stepsPerFiveYards a).
Proof. unfold lessCF, Js.lt, StepSize.compare. apply sub_negative. Qed.

Lemma greaterCF_spec (a b : StepSize.t) :
  greaterCF a b
  = (StepSize.stepsPerFiveYards a <? StepSize.stepsPerFiveYards b).
Proof. apply compare_positive. Qed.

(** X3.  Where [StepSize.compare] is a comparator [Array.prototype.sort]
    can rely on, and where it is not.  Write [a <CF b], [a >CF b] and
    [a =CF b] for a negative, a positive and any other value of
    [compare a b] (zero, or NaN, which the sort takes as [+0]).  For all
    step sizes, NaN and the infinities included: [a >CF b] exactly when
    [b <CF a]; [<CF] and [>CF] are transitive; [=CF] is reflexive and
    symmetric.  [=CF] is transitive through every step size that is not
    NaN, so on step sizes none of which is NaN all the laws hold; and
    between two finite step sizes the comparator itself is never NaN.
    With a NaN step size (a page without counts) among numbers the
    comparator is not consistent: 4 [=CF] NaN and NaN [=CF] 8, but not
    4 [=CF] 8. *)
Theorem compare_is_consistent :
  (forall a b, greaterCF a b = lessCF b a)
  /\ (forall a b c,
         lessCF a b = true -> lessCF b c = true -> lessCF a c = true)
  /\ (forall a b c,
         greaterCF a b = true -> greaterCF b c = true ->
         greaterCF a c = true)
  /\ (forall a, equalCF a a = true)
  /\ (forall a b, equalCF a b = equalCF b a)
  /\ (forall a b c,
         defined b = true ->
         equalCF a b = true -> equalCF b c = true -> equalCF a c = true)
  /\ (forall a b,
         moving a = true -> moving b = true ->
         Js.Number_isNaN (StepSize.compare a b) = false)
  /\ (exists a b c,
         defined a = true /\ defined b = false /\ defined c = true
         /\ equalCF a b = true /\ equalCF b c = true
         /\ equalCF a c = false).
Proof.
  split; [|split; [|split; [|split; [|split; [|split; [|split]]]]]].
  - intros a b. now rewrite greaterCF_spec, lessCF_spec.
  - intros a b c. rewrite !lessCF_spec. intros H1 H2.
    exact (ltb_trans _ _ _ H2 H1).
  - intros a b c. rewrite !greaterCF_spec. apply ltb_trans.
  - intros a. unfold equalCF. rewrite lessCF_spec, greaterCF_spec.
    now rewrite ltb_irrefl.
  - intros a b. unfold equalCF.
    rewrite !lessCF_spec, !greaterCF_spec. apply andb_comm.
  - intros a b c Hb. unfold equalCF, defined, Js.Number_isNaN in *.
    rewrite !lessCF_spec, !greaterCF_spec.
    apply negb_true_iff in Hb.
    intros H1 H2. apply andb_prop in H1, H2.
    destruct H1 as [L1 G1], H2 as [L2 G2].
    apply negb_true_iff in L1, G1, L2, G2.
    rewrite (not_ltb_trans _ _ _ Hb L2 L1), (not_ltb_trans _ _ _ Hb G1 G2).
    reflexivity.
  - intros a b Ha Hb. unfold Js.Number_isNaN, StepSize.compare.
    now apply sub_number.
  - exists {| StepSize.stepsPerFiveYards := 4; StepSize.marcher_id := 1 |},
           {| StepSize.stepsPerFiveYards := nan; StepSize.marcher_id := 2 |},
           {| StepSize.stepsPerFiveYards := 8; StepSize.marcher_id := 3 |}.
    repeat split; reflexivity.
Qed.

(** Three holds and a move: the comparator of two holds is NaN, they
    compare as equal through a third, and the comparator of two finite
    step sizes is a number. *)
Lemma compare_is_consistent_witness :
  Js.Number_isNaN
    (StepSize.compare
       {| StepSize.stepsPerFiveYards := infinity; StepSize.marcher_id := 1 |}
       {| StepSize.stepsPerFiveYards := infinity; StepSize.marcher_id := 2 |})
  = true
  /\ equalCF
       {| StepSize.stepsPerFiveYards := infinity; StepSize.marcher_id := 1 |}
       {| StepSize.stepsPerFiveYards := infinity; StepSize.marcher_id := 3 |}
     = true
  /\ Js.Number_isNaN
       (StepSize.compare
          {| StepSize.stepsPerFiveYards := 4; StepSize.marcher_id := 1 |}
          {| StepSize.stepsPerFiveYards := 8; StepSize.marcher_id := 2 |})
     = false.
Proof.
  destruct compare_is_consistent as (_ & _ & _ & _ & _ & E & N & _).
  split; [reflexivity|]. split.
  - apply (E _ {| StepSize.stepsPerFiveYards := infinity;
                  StepSize.marcher_id := 2 |}); reflexivity.
  - apply N; reflexivity.
Defined.

(** X4.  [createStepSizesForMarchers] answers in the order of the
    marchers it is given: the marchers of the step sizes it returns are,
    in order, the marchers that have a position on the page and on the
    page whose identity is one less; the others are left out and nothing
    is added. *)
Theorem createStepSizes_follows_marchers
    (pow : float -> float -> float)
    (marchers : list Marcher.t) (marcherPages : list MarcherPage.t)
    (page : Page.t) (fieldProperties : FieldProperties.t) :
  map StepSize.marcher_id
    (StepSize.createStepSizesForMarchers pow marchers marcherPages page
       fieldProperties)
  = map Marcher.id (filter (hasBoth marcherPages page) marchers).
Proof.
  rewrite createStepSizes_unfold.
  set (f := fun marcher : Marcher.t =>
              match endingPage marcherPages page marcher with
              | Some finish =>
                  StepSize.createStepSizeForMarcher pow
                    (startingPage marcherPages page marcher) finish
                    (Some page) fieldProperties
              | None => None
              end).
  induction marchers as [|m ms IH]; [reflexivity|].
  cbn [map filter]. unfold hasBoth at 1.
  destruct (f m) as [s|] eqn:E; unfold f in E; cbn [Js.filterDefined map].
  - destruct (endingPage marcherPages page m) as [finish|] eqn:Ef;
      [|discriminate].
    unfold StepSize.createStepSizeForMarcher in E.
    destruct (startingPage marcherPages page m) as [start|]; [|discriminate].
    injection E as <-. cbn [map StepSize.new StepSize.marcher_id].
    rewrite IH. f_equal.
    apply find_some in Ef. destruct Ef as [_ Ef]. now apply Z.eqb_eq in Ef.
  - destruct (endingPage marcherPages page m) as [finish|].
    + unfold StepSize.createStepSizeForMarcher in E.
      destruct (startingPage marcherPages page m); [discriminate|exact IH].
    + destruct (startingPage marcherPages page m); exact IH.
Qed.

End StepSizeMore.

(** ** [BeatUnit] *)

Module BeatUnitFacts.

Import BeatUnit.
Local Open Scope string_scope.

Ltac by_name name :=
  repeat match goal with
         | |- context [String.eqb name ?s] =>
             destruct (String.eqb_spec name s); [subst name|]
         end.

Lemma fromString_returns (s : string) (u : t) :
  fromString s = Returned u -> In u members /\ toString u = s.
Proof.
  unfold fromString. by_name s; intros [= <-]; cbn; auto 15.
Qed.

(** X5.  The names of the beat units round-trip.  [fromString] of the
    name of each of the eleven beat units returns that beat unit; when
    [fromString] returns, the result is one of the eleven and its name
    is the string given; and for a string that is the name of none of
    them it throws the error "Invalid beat unit name: " followed by the
    string. *)
Theorem beat_unit_names_round_trip :
  (forall u, In u members -> fromString (toString u) = Returned u)
  /\ (forall s u, fromString s = Returned u ->
                  In u members /\ toString u = s)
  /\ (forall s, (forall u, In u members -> toString u <> s) ->
                fromString s = Thrown ("Invalid beat unit name: " ++ s)).
Proof.
  split; [|split].
  - intros u Hu. cbn in Hu.
    repeat (destruct Hu as [<-|Hu]; [reflexivity|]). destruct Hu.
  - exact fromString_returns.
  - intros s Hs. destruct (fromString s) as [u|msg] eqn:E.
    + apply fromString_returns in E. destruct E as [Hin Hn].
      now destruct (Hs u Hin).
    + revert E. unfold fromString. by_name s; congruence.
Qed.

Lemma beat_unit_names_round_trip_witness :
  fromString "DOTTED 16TH" = Returned DOTTED_SIXTEENTH.
Proof.
  apply (proj1 beat_unit_names_round_trip DOTTED_SIXTEENTH).
  cbn. tauto.
Defined.

(** X6.  On the eleven beat units of the class, [equals] is identity:
    two of them are equal exactly when they are the same beat unit.  No
    two of them share a value and a name, and none has a value that is
    not equal to itself. *)
Theorem beat_unit_equals_is_identity (u v : t) :
  In u members -> In v members -> (equals u v = true <-> u = v).
Proof.
  intros Hu Hv. cbn in Hu, Hv.
  repeat (destruct Hu as [<-|Hu]);
    try (destruct Hu);
    repeat (destruct Hv as [<-|Hv]);
    try (destruct Hv);
    (split; [vm_compute; intros H; first [reflexivity|discriminate H]
            |intros H; first [reflexivity
                             |exfalso; discriminate H
                             |exfalso; revert H; vm_compute;
                              intros H; discriminate H]]).
Qed.

Lemma beat_unit_equals_is_identity_witness :
  equals DOTTED_HALF DOTTED_HALF = true /\ equals HALF DOTTED_HALF = false.
Proof.
  split.
  - apply (beat_unit_equals_is_identity DOTTED_HALF DOTTED_HALF);
      [cbn; tauto|cbn; tauto|reflexivity].
  - reflexivity.
Defined.

End BeatUnitFacts.

(** ** More on the registered actions *)

Module ActionsMore.

Import Actions ActionsView MoreViews EffectView ActionsFacts.
Local Open Scope string_scope.

Ltac by_key name :=
  repeat match goal with
         | |- context [String.eqb ?s name] =>
             destruct (String.eqb_spec s name); [subst name|]
         end.

(** X7.  The shortcut dictionary binds every action to its own chord.
    Each of the twelve registered actions has a keyboard shortcut, the
    dictionary maps the string of that shortcut to the action, and the
    keyboard event that presses it produces that string; conversely,
    every key of the dictionary is the string of the shortcut of the
    action it maps to.  So no two actions share a chord and the fallback
    key for an action without a shortcut is never used. *)
Theorem every_action_is_bound_to_its_chord :
  (forall a,
      exists k,
        RegisteredAction.keyboardShortcut (RegisteredActionsObjects a) = Some k
        /\ Object_get keyboardShortcutDictionary (KeyboardShortcut.toString k)
           = Some a
        /\ chord (eventOf k) = KeyboardShortcut.toString k)
  /\ (forall s a,
         Object_get keyboardShortcutDictionary s = Some a ->
         exists k,
           RegisteredAction.keyboardShortcut (RegisteredActionsObjects a)
           = Some k
           /\ s = KeyboardShortcut.toString k).
Proof.
  split.
  - intros a. destruct a; eexists; (split; [reflexivity|split; reflexivity]).
  - intros s a. rewrite keyboardShortcutDictionary_value.
    unfold Object_get. by_key s; try discriminate;
      intros [= <-]; eexists; split; reflexivity.
Qed.

Lemma every_action_is_bound_to_its_chord_witness :
  exists k,
    RegisteredAction.keyboardShortcut
      (RegisteredActionsObjects setAllMarchersToPreviousPage) = Some k
    /\ "Ctrl + Shift + P" = KeyboardShortcut.toString k.
Proof.
  apply (proj2 every_action_is_bound_to_its_chord "Ctrl + Shift + P"
           setAllMarchersToPreviousPage).
  reflexivity.
Defined.

(** X8.  [getSelectedMarcherPages].  Without a selected page it reports
    "No selected page" and returns the empty list.  With one it reports
    nothing and returns one entry per selected marcher, in their order:
    a position of that marcher on the selected page, or [undefined] when
    the marcher has no position there. *)
Theorem getSelectedMarcherPages_entries (st : State) :
  (selectedPage st = None ->
   getSelectedMarcherPages st
   = ([ConsoleError "No selected page"], Normal []))
  /\ (forall page,
         selectedPage st = Some page ->
         exists entries,
           getSelectedMarcherPages st = ([], Normal entries)
           /\ Forall2
                (fun marcher entry =>
                   match entry with
                   | Some mp =>
                       In mp (marcherPages st)
                       /\ MarcherPage.page_id mp = Page.id page
                       /\ MarcherPage.marcher_id mp = Marcher.id marcher
                   | None =>
                       forall mp, In mp (marcherPages st) ->
                                  MarcherPage.page_id mp = Page.id page ->
                                  MarcherPage.marcher_id mp <> Marcher.id marcher
                   end)
                (selectedMarchers st) entries).
Proof.
  unfold getSelectedMarcherPages. split.
  - intros ->. reflexivity.
  - intros page ->. eexists. split; [reflexivity|].
    induction (selectedMarchers st) as [|m ms IH]; cbn [map]; constructor;
      [|exact IH].
    destruct (find _ _) as [mp|] eqn:E.
    + apply find_some in E. destruct E as [Hin Hm].
      apply filter_In in Hin. destruct Hin as [Hin Hp].
      apply Z.eqb_eq in Hm, Hp. auto.
    + intros mp Hin Hp Hm.
      assert (F : In mp (filter
                           (fun marcherPage =>
                              (MarcherPage.page_id marcherPage
                               =? Page.id page)%Z) (marcherPages st))).
      { apply filter_In. split; [exact Hin|]. now apply Z.eqb_eq. }
      apply (find_none _ _ E) in F. apply Z.eqb_neq in F. contradiction.
Qed.

Lemma getSelectedMarcherPages_entries_witness :
  getSelectedMarcherPages Scenario.noPage
  = ([ConsoleError "No selected page"], Normal []).
Proof.
  apply (proj1 (getSelectedMarcherPages_entries Scenario.noPage)).
  reflexivity.
Defined.

(** X9.  Navigation leaves the drill alone.  The actions that move
    between pages or start and stop playback always return normally;
    they make at most one call, and that call neither submits positions,
    nor changes a setting, nor touches the event. *)
Theorem navigation_leaves_positions_and_settings
    (env : Collaborators) (st : State) (a : RegisteredActionsEnum) :
  isNavigation a = true ->
  exists calls,
    triggerAction env st a = (calls, Normal tt)
    /\ (List.length calls <= 1)%nat
    /\ Forall harmless calls.
Proof.
  intros Ha. unfold triggerAction.
  destruct (selectedPage st) as [page|];
    [|eexists; split; [reflexivity|split; [cbn; lia|repeat constructor]]].
  destruct (fieldProperties st) as [fp|];
    [|eexists; split; [reflexivity|split; [cbn; lia|repeat constructor]]].
  destruct a; try discriminate; unfold setSelectedPage_if;
    try match goal with
        | |- context [match ?o with Some _ => _ | None => _ end] =>
            destruct o
        end;
    eexists; (split; [reflexivity|split; [cbn; lia|repeat constructor]]).
Qed.

Lemma navigation_leaves_positions_and_settings_witness :
  exists calls,
    triggerAction Collab.collaborators Scenario.nothingSelected previousPage
    = (calls, Normal tt)
    /\ (List.length calls <= 1)%nat
    /\ Forall harmless calls.
Proof.
  apply (navigation_leaves_positions_and_settings Collab.collaborators
           Scenario.nothingSelected previousPage).
  reflexivity.
Defined.

(** X10.  Toggling twice restores the settings.  With a page selected
    and field properties present, each of the four toggles (lock X, lock
    Y, next-page paths, previous-page paths) makes one call that stores
    settings different from the current ones; triggered again on the
    stored settings it stores the original settings back. *)
Theorem toggling_twice_restores_the_settings
    (env : Collaborators) (st : State) (a : RegisteredActionsEnum)
    (page : Page.t) (fieldProps : FieldProperties.t) :
  isToggle a = true ->
  selectedPage st = Some page ->
  fieldProperties st = Some fieldProps ->
  exists u changed,
    triggerAction env st a = ([SetUiSettings u changed], Normal tt)
    /\ u <> uiSettings st
    /\ triggerAction env (with_uiSettings st u) a
       = ([SetUiSettings (uiSettings st) changed], Normal tt).
Proof.
  intros Ha Hp Hf. unfold triggerAction. cbn [with_uiSettings selectedPage
    fieldProperties uiSettings]. rewrite Hp, Hf.
  destruct (uiSettings st) as [pl lx ly pp np].
  destruct a; try discriminate; do 2 eexists;
    (split; [reflexivity|split]);
    cbn; try (now rewrite negb_involutive);
    intros [= H]; now apply no_fixpoint_negb in H.
Qed.

Lemma toggling_twice_restores_the_settings_witness :
  exists u changed,
    triggerAction Collab.collaborators Scenario.nothingSelected lockX
    = ([SetUiSettings u changed], Normal tt)
    /\ u <> uiSettings Scenario.nothingSelected
    /\ triggerAction Collab.collaborators
         (with_uiSettings Scenario.nothingSelected u) lockX
       = ([SetUiSettings (uiSettings Scenario.nothingSelected) changed],
          Normal tt).
Proof.
  apply (toggling_twice_restores_the_settings Collab.collaborators
           Scenario.nothingSelected lockX Scenario.page2 Scenario.field);
    reflexivity.
Defined.

Lemma Array_find_total {A : Type} (p : A -> Completion bool) (q : A -> bool)
    (l : list A) :
  (forall x, p x = Normal (q x)) -> Array_find p l = Normal (find q l).
Proof.
  intros H. induction l as [|x l IH]; [reflexivity|].
  cbn [Array_find find]. rewrite H. now destruct (q x).
Qed.

Lemma find_never {A : Type} (l : list A) : find (fun _ => false) l = None.
Proof. induction l; auto. Qed.

(** X11.  [setSelectedMarcherToPreviousPage] with a selection.  With a
    page selected, field properties present and at least one marcher
    selected, the action never throws and looks only at the first
    selected marcher: when there is a previous page holding a position
    of that marcher, it submits exactly that one position, retargeted to
    the selected page, in one call; otherwise it does nothing. *)
Theorem setSelectedMarcherToPreviousPage_first_selected
    (env : Collaborators) (st : State)
    (page : Page.t) (fieldProps : FieldProperties.t)
    (first : Marcher.t) (others : list Marcher.t) :
  selectedPage st = Some page ->
  fieldProperties st = Some fieldProps ->
  selectedMarchers st = first :: others ->
  triggerAction env st setSelectedMarcherToPreviousPage
  = match Page_getPreviousPage env page (pages st) with
    | None => ([], Normal tt)
    | Some previous =>
        match find (fun mp =>
                      (MarcherPage.page_id mp =? Page.id previous)%Z
                      && (MarcherPage.marcher_id mp =? Marcher.id first)%Z)
                   (marcherPages st) with
        | Some mp =>
            ([UpdateMarcherPages
                [MarcherPage.with_page_id mp (Page.id page)]], Normal tt)
        | None => ([], Normal tt)
        end
    end.
Proof.
  intros Hp Hf Hs. unfold triggerAction. rewrite Hp, Hf, Hs.
  cbn [nth_error].
  destruct (Page_getPreviousPage env page (pages st)) as [previous|];
    cbn [option_map].
  - rewrite (Array_find_total _
               (fun mp =>
                  (MarcherPage.page_id mp =? Page.id previous)%Z
                  && (MarcherPage.marcher_id mp =? Marcher.id first)%Z)).
    + unfold lift, bind. destruct (find _ _); reflexivity.
    + intros mp. cbn [strict_eq_optional].
      now destruct (MarcherPage.page_id mp =? Page.id previous)%Z.
  - rewrite (Array_find_total _ (fun _ => false)) by reflexivity.
    now rewrite find_never.
Qed.

Lemma setSelectedMarcherToPreviousPage_first_selected_witness :
  triggerAction Collab.collaborators
    {| pages := [Scenario.page1; Scenario.page2];
       isPlaying := false;
       marcherPages := [Scenario.position 1 1 1 100 100;
                        Scenario.position 2 1 2 120 100];
       selectedPage := Some Scenario.page2;
       selectedMarchers := [Scenario.marcher 1; Scenario.marcher 2];
       fieldProperties := Some Scenario.field;
       uiSettings := Scenario.settings |}
    setSelectedMarcherToPreviousPage
  = ([UpdateMarcherPages [Scenario.position 1 1 2 100 100]], Normal tt).
Proof.
  rewrite (setSelectedMarcherToPreviousPage_first_selected
             Collab.collaborators _ Scenario.page2 Scenario.field
             (Scenario.marcher 1) [Scenario.marcher 2]); reflexivity.
Defined.

(** X12.  [triggerAction] throws in two cases only, and before making
    any call: [setSelectedMarcherToPreviousPage] with no marcher
    selected, and [snapToNearestWhole] when [getRoundCoordinates] itself
    throws.  All other actions, in every state, return. *)
Theorem triggerAction_throws_only_unguarded
    (env : Collaborators) (st : State) (a : RegisteredActionsEnum)
    (calls : list Effect) (e : JsError) :
  triggerAction env st a = (calls, Throw e) ->
  calls = []
  /\ ((a = setSelectedMarcherToPreviousPage /\ selectedMarchers st = [])
      \/ (a = snapToNearestWhole
          /\ exists entries fieldProps,
               getRoundCoordinates env entries fieldProps 1%float
                 (negb (UiSettings.lockX (uiSettings st)))
                 (negb (UiSettings.lockY (uiSettings st)))
               = Throw e)).
Proof.
  unfold triggerAction.
  destruct (selectedPage st) as [page|] eqn:Hp; [|discriminate].
  destruct (fieldProperties st) as [fp|]; [|discriminate].
  destruct a; unfold setSelectedPage_if;
    try solve [ discriminate
              | match goal with
                | |- context [match ?o with Some _ => _ | None => _ end] =>
                    destruct o; discriminate
                end ].
  - (* setSelectedMarcherToPreviousPage *)
    destruct (selectedMarchers st) as [|first others] eqn:Hs.
    + intros H. split; [|left; split; reflexivity].
      cbn [lift bind] in H.
      destruct (Array_find _ _) as [[mp|]|e']; cbn in H; congruence.
    + cbn [nth_error].
      rewrite (Array_find_total _
                 (fun mp =>
                    strict_eq_optional (MarcherPage.page_id mp)
                      (option_map Page.id
                         (Page_getPreviousPage env page (pages st)))
                    && (MarcherPage.marcher_id mp =? Marcher.id first)%Z)).
      * cbn [lift bind]. destruct (find _ _); discriminate.
      * intros mp. now destruct (strict_eq_optional _ _).
  - (* snapToNearestWhole *)
    unfold getSelectedMarcherPages. rewrite Hp. cbn [ret bind lift].
    destruct (getRoundCoordinates env _ fp _ _ _) as [r|e'] eqn:E;
      [discriminate|].
    intros [= <- <-]. split; [reflexivity|right]. split; [reflexivity|].
    eauto.
Qed.

Lemma triggerAction_throws_only_unguarded_witness :
  [] = @nil Effect
  /\ ((setSelectedMarcherToPreviousPage = setSelectedMarcherToPreviousPage
       /\ selectedMarchers Scenario.nothingSelected = [])
      \/ (setSelectedMarcherToPreviousPage = snapToNearestWhole
          /\ exists entries fieldProps,
               getRoundCoordinates Collab.collaborators entries fieldProps
                 1%float
                 (negb (UiSettings.lockX (uiSettings Scenario.nothingSelected)))
                 (negb (UiSettings.lockY (uiSettings Scenario.nothingSelected)))
               = Throw undefined_id)).
Proof.
  apply (triggerAction_throws_only_unguarded Collab.collaborators
           Scenario.nothingSelected setSelectedMarcherToPreviousPage
           [] undefined_id).
  reflexivity.
Defined.

Lemma lower_upper_ascii (c : ascii) :
  lower_ascii (upper_ascii c) = lower_ascii c.
Proof. destruct c as [[] [] [] [] [] [] [] []]; reflexivity. Qed.

Lemma lower_lower_ascii (c : ascii) :
  lower_ascii (lower_ascii c) = lower_ascii c.
Proof. destruct c as [[] [] [] [] [] [] [] []]; reflexivity. Qed.

Lemma toLowerCase_toUpperCase (s : string) :
  toLowerCase (toUpperCase s) = toLowerCase s.
Proof.
  induction s as [|c s IH]; [reflexivity|].
  cbn [toLowerCase toUpperCase]. now rewrite lower_upper_ascii, IH.
Qed.

Lemma toLowerCase_idempotent (s : string) :
  toLowerCase (toLowerCase s) = toLowerCase s.
Proof.
  induction s as [|c s IH]; [reflexivity|].
  cbn [toLowerCase]. now rewrite lower_lower_ascii, IH.
Qed.

(** X13.  Shortcuts ignore the case of the key and treat the command
    key as the control key.  For a key with an ASCII name (the lower-
    and upper-casing of the embedding is that of ASCII), the listener
    does the same for the key in upper case, in lower case and as given;
    and the same whether control, the command key or both are held. *)
Theorem shortcuts_ignore_case_and_command_key
    (env : Collaborators) (st : State) (activeElement : option Element)
    (k : string) (ctrl meta alt shift : bool) :
  isAscii k = true ->
  let press key c m :=
    handleKeyDown env st activeElement
      {| key := key; ctrlKey := c; metaKey := m;
         altKey := alt; shiftKey := shift |} in
  press (toUpperCase k) ctrl meta = press k ctrl meta
  /\ press (toLowerCase k) ctrl meta = press k ctrl meta
  /\ press k ctrl meta = press k meta ctrl
  /\ press k ctrl meta = press k (ctrl || meta) false.
Proof.
  intros _ press. unfold press.
  rewrite !handleKeyDown_dispatch. unfold chord, KeyboardShortcut.new.
  cbn [key ctrlKey metaKey altKey shiftKey].
  rewrite toLowerCase_toUpperCase, toLowerCase_idempotent.
  rewrite (orb_comm meta ctrl), orb_false_r. repeat split.
Qed.

Lemma shortcuts_ignore_case_and_command_key_witness :
  handleKeyDown Collab.collaborators Scenario.fiftyMarchers None
    {| key := "P"; ctrlKey := false; metaKey := true;
       altKey := false; shiftKey := true |}
  = handleKeyDown Collab.collaborators Scenario.fiftyMarchers None
      {| key := "p"; ctrlKey := true; metaKey := false;
         altKey := false; shiftKey := true |}.
Proof.
  destruct (shortcuts_ignore_case_and_command_key Collab.collaborators
              Scenario.fiftyMarchers None "p" false true false true eq_refl)
    as (U & _ & S & _).
  cbv zeta in U, S. change (toUpperCase "p") with "P" in U.
  rewrite U. exact S.
Defined.

Lemma triggerAction_no_preventDefault
    (env : Collaborators) (st : State) (a : RegisteredActionsEnum) :
  ~ In PreventDefault (fst (triggerAction env st a)).
Proof.
  unfold triggerAction.
  destruct (selectedPage st) as [page|] eqn:Hp;
    [|cbn; intros [H|[]]; discriminate].
  destruct (fieldProperties st) as [fp|];
    [|cbn; intros [H|[]]; discriminate].
  destruct a; unfold setSelectedPage_if;
    try solve [ cbn; intros [H|[]]; discriminate
              | match goal with
                | |- context [match ?o with Some _ => _ | None => _ end] =>
                    destruct o; cbn; [intros [H|[]]; discriminate|tauto]
                end ].
  - cbn [lift bind]. destruct (Array_find _ _) as [[mp|]|e'];
      cbn; try tauto. intros [H|[]]; discriminate.
  - unfold getSelectedMarcherPages. rewrite Hp. cbn [ret bind lift].
    destruct (getRoundCoordinates env _ fp _ _ _) as [r|e']; cbn; try tauto.
    intros [H|[]]; discriminate.
Qed.

(** X14.  The listener suppresses the default of an event only after a
    handler returned.  With the focus in an editable control, or a chord
    that is bound to no action, it does nothing at all; and whenever it
    calls [preventDefault], the focus was outside any editable control,
    the chord was bound to an action, the handler of that action
    returned, and [preventDefault] is the last call made. *)
Theorem preventDefault_only_after_a_handler_returned
    (env : Collaborators) (st : State) (activeElement : option Element)
    (e : KeyboardEvent) :
  (editable activeElement = true ->
   handleKeyDown env st activeElement e = ([], Normal tt))
  /\ (Object_get keyboardShortcutDictionary (chord e) = None ->
      handleKeyDown env st activeElement e = ([], Normal tt))
  /\ (In PreventDefault (fst (handleKeyDown env st activeElement e)) ->
      editable activeElement = false
      /\ exists a calls,
           Object_get keyboardShortcutDictionary (chord e) = Some a
           /\ triggerAction env st a = (calls, Normal tt)
           /\ handleKeyDown env st activeElement e
              = ((calls ++ [PreventDefault])%list, Normal tt)).
Proof.
  rewrite handleKeyDown_dispatch. split; [|split].
  - now intros ->.
  - intros ->. now destruct (editable activeElement).
  - destruct (editable activeElement); [intros []|].
    destruct (Object_get keyboardShortcutDictionary (chord e)) as [a|];
      [|intros []].
    pose proof (triggerAction_no_preventDefault env st a) as N.
    destruct (triggerAction env st a) as [calls [[]|err]] eqn:T;
      cbn [bind emit fst] in *.
    + intros _. split; [reflexivity|]. exists a, calls. auto.
    + intros H. contradiction.
Qed.

Lemma preventDefault_only_after_a_handler_returned_witness :
  handleKeyDown Collab.collaborators Scenario.nothingSelected None
    {| key := "k"; ctrlKey := false; metaKey := false;
       altKey := false; shiftKey := false |}
  = ([], Normal tt).
Proof.
  apply (proj1 (proj2 (preventDefault_only_after_a_handler_returned
           Collab.collaborators Scenario.nothingSelected None
           {| key := "k"; ctrlKey := false; metaKey := false;
              altKey := false; shiftKey := false |}))).
  reflexivity.
Defined.

End ActionsMore.

(** ** More on [renderMarchers] *)

Module CanvasMore.

Import Canvas CanvasView Overlays MoreViews MarkerView CanvasFacts.

Section Loop.
Variable ops : CanvasMarcherClass.
Variable snapshot : list Object.
Variable allMarchers : list Marcher.t.

Lemma renderMarcher_nextOid (c : t) (mp : MarcherPage.t) :
  nextOid (renderMarcher ops snapshot allMarchers c mp)
  = (nextOid c + List.length (created snapshot allMarchers [mp]))%nat.
Proof.
  unfold renderMarcher, created. cbn [flat_map].
  destruct (find (marcherObj_id_is _) snapshot);
    [cbn; lia|].
  destruct (find _ allMarchers); cbn; lia.
Qed.

Lemma render_loop_created (mps : list MarcherPage.t) (c : t) :
  identities (fold_left (renderMarcher ops snapshot allMarchers) mps c)
  = (identities c
     ++ combine
          (seq (nextOid c) (List.length (created snapshot allMarchers mps)))
          (map Some (created snapshot allMarchers mps)))%list.
Proof.
  revert c. induction mps as [|mp mps IH]; intros c.
  - cbn. now rewrite app_nil_r.
  - cbn [fold_left]. rewrite IH, renderMarcher_identities, renderMarcher_nextOid.
    rewrite <- app_assoc. f_equal.
    unfold created. cbn [flat_map].
    fold (created snapshot allMarchers mps).
    destruct (find (marcherObj_id_is _) snapshot);
      [cbn; now rewrite Nat.add_0_r|].
    destruct (find _ allMarchers) as [m|];
      [|cbn; now rewrite Nat.add_0_r].
    cbn [app List.length map seq combine]. f_equal.
    now rewrite Nat.add_1_r.
Qed.

Lemma render_loop_errors (mps : list MarcherPage.t) (c : t) :
  errors (fold_left (renderMarcher ops snapshot allMarchers) mps c)
  = (errors c
     ++ map (fun _ =>
               "Marcher object not found in the store for given MarcherPage  - renderMarchers: Canvas.tsx"%string)
          (filter (orphan snapshot allMarchers) mps))%list.
Proof.
  revert c. induction mps as [|mp mps IH]; intros c.
  - cbn. now rewrite app_nil_r.
  - cbn [fold_left filter]. rewrite IH. unfold renderMarcher, orphan at 2.
    destruct (find (marcherObj_id_is _) snapshot); [reflexivity|].
    destruct (find _ allMarchers); [reflexivity|].
    cbn [console_error errors map]. now rewrite <- app_assoc.
Qed.




End Loop.

Lemma markerIds_app (a b : list (nat * option Marcher.t)) :
  markerIds (a ++ b) = (markerIds a ++ markerIds b)%list.
Proof. unfold markerIds. apply flat_map_app. Qed.

Lemma markerIds_combine (n : nat) (ms : list Marcher.t) :
  markerIds (combine (seq n (List.length ms)) (map Some ms))
  = map Marcher.id ms.
Proof.
  revert n. induction ms as [|m ms IH]; intros n; [reflexivity|].
  cbn. now rewrite IH.
Qed.

Lemma markerIds_bound (id : Z) (ids : list (nat * option Marcher.t)) :
  In id (markerIds ids) <-> existsb (bound id) ids = true.
Proof.
  induction ids as [|[n [m|]] ids IH]; cbn [markerIds flat_map existsb snd app].
  - split; [intros []|discriminate].
  - unfold bound at 1. cbn [snd In].
    fold (markerIds ids). rewrite orb_true_iff, <- IH, Z.eqb_eq. tauto.
  - unfold bound at 1. cbn [snd orb]. exact IH.
Qed.

Lemma created_ids (snapshot : list Object) (allMarchers : list Marcher.t)
    (mps : list MarcherPage.t) :
  NoDup (map MarcherPage.marcher_id mps) ->
  NoDup (map Marcher.id (created snapshot allMarchers mps))
  /\ forall id, In id (map Marcher.id (created snapshot allMarchers mps)) ->
                In id (map MarcherPage.marcher_id mps)
                /\ find (marcherObj_id_is id) snapshot = None.
Proof.
  induction mps as [|mp mps IH]; intros N.
  - split; [constructor|intros id []].
  - inversion N as [|? ? Hnot N']; subst.
    destruct (IH N') as [D S]. unfold created. cbn [flat_map].
    fold (created snapshot allMarchers mps).
    destruct (find (marcherObj_id_is (MarcherPage.marcher_id mp)) snapshot)
      eqn:F.
    + cbn [app]. split; [exact D|].
      intros id H. destruct (S id H). cbn. tauto.
    + destruct (find _ allMarchers) as [m|] eqn:G.
      * apply find_some in G. destruct G as [_ G]. apply Z.eqb_eq in G.
        cbn [app map]. split.
        -- constructor; [|exact D]. intros H. apply S in H.
           rewrite G in H. tauto.
        -- intros id [<-|H].
           ++ rewrite G. cbn. tauto.
           ++ destruct (S id H). cbn. tauto.
      * cbn [app]. split; [exact D|].
        intros id H. destruct (S id H). cbn. tauto.
Qed.



(** X16.  [renderMarchers] keeps one marker per marcher.  When no two
    live markers of the canvas are bound to the same marcher and no two
    of the positions given belong to the same marcher, no two live
    markers are bound to the same marcher after the call. *)
Theorem renderMarchers_keeps_one_marker_per_marcher
    (ops : CanvasMarcherClass) (c : t)
    (selectedMarcherPages : list MarcherPage.t)
    (allMarchers : list Marcher.t) :
  NoDup (markerIds (identities c)) ->
  NoDup (map MarcherPage.marcher_id selectedMarcherPages) ->
  NoDup (markerIds
           (identities
              (renderMarchers ops c selectedMarcherPages allMarchers))).
Proof.
  intros Nc Nm.
  unfold renderMarchers.
  rewrite identities_requestRenderAll, render_loop_created.
  rewrite markerIds_app, markerIds_combine.
  destruct (created_ids (getCanvasMarchers c) allMarchers
              selectedMarcherPages Nm) as [D S].
  apply NoDup_app; repeat split; try assumption.
  intros id Hc Hn. apply S in Hn. destruct Hn as [_ F].
  apply find_marker_none in F. apply markerIds_bound in Hc. congruence.
Qed.

Lemma renderMarchers_keeps_one_marker_per_marcher_witness :
  NoDup (markerIds
           (identities
              (renderMarchers Scenario.canvasMarcher Stage.stage
                 Stage.page2Positions Stage.marchers))).
Proof.
  apply (renderMarchers_keeps_one_marker_per_marcher Scenario.canvasMarcher
           Stage.stage Stage.page2Positions Stage.marchers);
    cbn; repeat (constructor; [cbn; intuition discriminate|]); constructor.
Defined.

Lemma known_find (allMarchers : list Marcher.t) (mp : MarcherPage.t) :
  known allMarchers mp
  = match find (fun marcher =>
                  (Marcher.id marcher =? MarcherPage.marcher_id mp)%Z)
               allMarchers with
    | Some _ => true
    | None => false
    end.
Proof.
  unfold known. induction allMarchers as [|m ms IH]; [reflexivity|].
  cbn [existsb find]. now destruct (Marcher.id m =? _)%Z.
Qed.

(** X17.  What [renderMarchers] reports.  It logs one error, "Marcher
    object not found in the store ...", for each position that has no
    marker before the call and whose marcher is not in the store, after
    the errors logged before and in the order of the positions; when the
    marcher of every position is in the store it logs nothing. *)
Theorem renderMarchers_reports_unknown_marchers
    (ops : CanvasMarcherClass) (c : t)
    (selectedMarcherPages : list MarcherPage.t)
    (allMarchers : list Marcher.t) :
  let after := renderMarchers ops c selectedMarcherPages allMarchers in
  errors after
  = (errors c
     ++ map (fun _ =>
               "Marcher object not found in the store for given MarcherPage  - renderMarchers: Canvas.tsx"%string)
          (filter (orphan (getCanvasMarchers c) allMarchers)
             selectedMarcherPages))%list
  /\ ((forall mp, In mp selectedMarcherPages -> known allMarchers mp = true) ->
      errors after = errors c).
Proof.
  intros after.
  assert (E : errors after
              = (errors c
                 ++ map (fun _ =>
                           "Marcher object not found in the store for given MarcherPage  - renderMarchers: Canvas.tsx"%string)
                      (filter (orphan (getCanvasMarchers c) allMarchers)
                         selectedMarcherPages))%list)
    by apply render_loop_errors.
  split; [exact E|].
  intros K. rewrite E.
  replace (filter (orphan (getCanvasMarchers c) allMarchers)
             selectedMarcherPages) with (@nil MarcherPage.t);
    [apply app_nil_r|].
  symmetry. clear E. induction selectedMarcherPages as [|mp mps IH];
    [reflexivity|].
  cbn [filter]. unfold orphan at 1.
  assert (Kmp : known allMarchers mp = true) by (apply K; now left).
  rewrite known_find in Kmp.
  destruct (find (marcherObj_id_is _) _).
  - apply IH. intros mp' H. apply K. now right.
  - destruct (find _ allMarchers); [|discriminate].
    apply IH. intros mp' H. apply K. now right.
Qed.

Lemma renderMarchers_reports_unknown_marchers_witness :
  errors (renderMarchers Scenario.canvasMarcher Stage.stage
            [Scenario.position 3 1 2 120 100; Scenario.position 4 3 2 10 10]
            Stage.marchers)
  = errors Stage.stage.
Proof.
  apply (proj2 (renderMarchers_reports_unknown_marchers
                  Scenario.canvasMarcher Stage.stage
                  [Scenario.position 3 1 2 120 100;
                   Scenario.position 4 3 2 10 10] Stage.marchers)).
  intros mp [<-|[<-|[]]]; reflexivity.
Defined.



End CanvasMore.

(** ** Ghosts, pathways and stacking *)

Module OverlayFacts.

Import Canvas CanvasView Overlays MoreViews MarkerView OverlayView CanvasMore.

(** *** Identities *)

Lemma oid_injective (objs : list Object) (a b : Object) :
  NoDup (map oid objs) -> In a objs -> In b objs -> oid a = oid b -> a = b.
Proof.
  induction objs as [|o os IH]; intros N Ha Hb E; [destruct Ha|].
  cbn [map] in N. inversion N as [|? ? Hnot N']; subst.
  destruct Ha as [->|Ha], Hb as [->|Hb]; auto.
  - exfalso. apply Hnot. rewrite E. now apply in_map.
  - exfalso. apply Hnot. rewrite <- E. now apply in_map.
Qed.

(** Among objects with identities of their own, the objects that share
    an identity with one of a given kind are the objects of that kind. *)
Lemma selected_by_oid (P : Object -> bool) (objs : list Object) (x : Object) :
  NoDup (map oid objs) -> In x objs ->
  existsb (fun o => (oid x =? oid o)%nat) (filter P objs) = P x.
Proof.
  intros N Hx. destruct (P x) eqn:Px.
  - apply existsb_exists. exists x. split; [|apply Nat.eqb_refl].
    apply filter_In. auto.
  - destruct (existsb _ _) eqn:E; [|reflexivity].
    apply existsb_exists in E. destruct E as (o & Ho & Eo).
    apply filter_In in Ho. destruct Ho as [Ho Po].
    apply Nat.eqb_eq in Eo.
    rewrite (oid_injective objs x o N Hx Ho Eo) in Px. congruence.
Qed.

Lemma filter_everything {A : Type} (l : list A) :
  filter (fun _ => true) l = l.
Proof.
  induction l as [|x l IH]; [reflexivity|]. cbn [filter]. now rewrite IH.
Qed.

Lemma remove_objects (c : t) (target : nat) :
  objects (remove c target)
  = filter (fun o => negb (oid o =? target)%nat) (objects c).
Proof. unfold remove. now destruct (existsb _ (objects c)). Qed.

Lemma remove_requests (c : t) (m : Object) :
  In m (objects c) ->
  renderRequests (remove c (oid m)) = S (renderRequests c).
Proof.
  intros H. unfold remove.
  replace (existsb (fun o => (oid o =? oid m)%nat) (objects c)) with true;
    [reflexivity|].
  symmetry. apply existsb_exists. exists m. split; [exact H|].
  apply Nat.eqb_refl.
Qed.

Lemma remove_loop (targets : list Object) (c : t) :
  objects (fold_left (fun c o => remove c (oid o)) targets c)
  = filter (fun x => negb (existsb (fun o => (oid x =? oid o)%nat) targets))
      (objects c).
Proof.
  revert c. induction targets as [|o os IH]; intros c.
  - cbn [fold_left existsb negb]. symmetry. apply filter_everything.
  - cbn [fold_left]. rewrite IH, remove_objects.
    induction (objects c) as [|x xs IHx]; [reflexivity|].
    cbn [filter existsb] in *.
    destruct (oid x =? oid o)%nat; cbn [negb orb filter].
    + exact IHx.
    + destruct (existsb _ os); cbn [negb]; congruence.
Qed.

(** Each removal of an object that is on the canvas asks for one
    render. *)
Lemma remove_loop_requests (targets : list Object) (c : t) :
  NoDup (map oid targets) ->
  (forall o, In o targets -> In o (objects c)) ->
  renderRequests (fold_left (fun c o => remove c (oid o)) targets c)
  = (renderRequests c + List.length targets)%nat.
Proof.
  revert c. induction targets as [|m ms IH]; intros c N Sub.
  - cbn. lia.
  - cbn [map] in N. inversion N as [|? ? Hnot N']; subst.
    cbn [fold_left List.length]. rewrite IH.
    + rewrite remove_requests by (apply Sub; now left). lia.
    + exact N'.
    + intros o Ho. rewrite remove_objects. apply filter_In.
      split; [apply Sub; now right|].
      destruct (oid o =? oid m)%nat eqn:E; [|reflexivity].
      exfalso. apply Nat.eqb_eq in E. apply Hnot. rewrite <- E.
      now apply in_map.
Qed.

Lemma NoDup_oid_filter (P : Object -> bool) (objs : list Object) :
  NoDup (map oid objs) -> NoDup (map oid (filter P objs)).
Proof.
  induction objs as [|x xs IH]; intros N; [constructor|].
  cbn [map] in N. inversion N as [|? ? Hnot N']; subst.
  cbn [filter]. destruct (P x); [|auto].
  cbn [map]. constructor; [|auto].
  intros H. apply Hnot. apply in_map_iff in H. destruct H as (y & Ey & Hy).
  apply filter_In in Hy. rewrite <- Ey. apply in_map. tauto.
Qed.

Lemma remove_kind_requests (P : Object -> bool) (c : t) :
  wellFormed c ->
  renderRequests
    (fold_left (fun c o => remove c (oid o)) (filter P (objects c)) c)
  = (renderRequests c + List.length (filter P (objects c)))%nat.
Proof.
  intros [N _]. apply remove_loop_requests.
  - now apply NoDup_oid_filter.
  - intros o Ho. apply filter_In in Ho. tauto.
Qed.

Lemma remove_kind (P : Object -> bool) (c : t) :
  wellFormed c ->
  objects (fold_left (fun c o => remove c (oid o)) (filter P (objects c)) c)
  = filter (fun x => negb (P x)) (objects c).
Proof.
  intros [N _]. rewrite remove_loop. apply filter_ext_in.
  intros x Hx. now rewrite selected_by_oid.
Qed.

Lemma filter_filter_disjoint {A : Type} (P Q : A -> bool) (l : list A) :
  (forall x, P x = true -> Q x = false) ->
  filter P (filter (fun x => negb (Q x)) l) = filter P l.
Proof.
  intros H. induction l as [|x l IH]; [reflexivity|].
  cbn [filter]. destruct (Q x) eqn:Qx; cbn [negb filter].
  - destruct (P x) eqn:Px; [|exact IH]. apply H in Px. congruence.
  - now rewrite IH.
Qed.

Lemma filter_negb_self {A : Type} (P : A -> bool) (l : list A) :
  filter P (filter (fun x => negb (P x)) l) = [].
Proof.
  induction l as [|x l IH]; [reflexivity|].
  cbn [filter]. destruct (P x) eqn:Px; cbn [negb filter]; [exact IH|].
  now rewrite Px.
Qed.

(** X19.  [removeStaticCanvasMarchers] removes the ghosts and nothing
    else.  On a canvas whose objects are distinct, the objects after the
    call are the objects before it without the ghosts, in the same
    order: no ghost is left, and the live markers and the pathways are
    the ones there were.  [requestRenderAll] is called once for each
    ghost removed, by [remove], and once at the end. *)
Theorem removeStaticCanvasMarchers_removes_the_ghosts (c : t) :
  wellFormed c ->
  let after := removeStaticCanvasMarchers c in
  objects after = filter (fun o => negb (isStaticCanvasMarcher o)) (objects c)
  /\ getStaticCanvasMarchers after = []
  /\ getCanvasMarchers after = getCanvasMarchers c
  /\ getPathways after = getPathways c
  /\ renderRequests after
     = S (renderRequests c + List.length (getStaticCanvasMarchers c)).
Proof.
  intros W after.
  assert (E : objects after
              = filter (fun o => negb (isStaticCanvasMarcher o)) (objects c)).
  { unfold after, removeStaticCanvasMarchers, getStaticCanvasMarchers.
    cbn [requestRenderAll objects]. now apply remove_kind. }
  split; [exact E|].
  unfold getStaticCanvasMarchers, getCanvasMarchers, getPathways.
  rewrite E. repeat split.
  - apply filter_negb_self.
  - apply filter_filter_disjoint.
    intros [n [| m xy | m xy col | a b col]]; cbn; congruence.
  - apply filter_filter_disjoint.
    intros [n [| m xy | m xy col | a b col]]; cbn; congruence.
  - unfold after, removeStaticCanvasMarchers.
    cbn [requestRenderAll renderRequests]. f_equal.
    now apply remove_kind_requests.
Qed.

Lemma removeStaticCanvasMarchers_removes_the_ghosts_witness :
  getStaticCanvasMarchers (removeStaticCanvasMarchers Stage.stage) = []
  /\ getCanvasMarchers (removeStaticCanvasMarchers Stage.stage)
     = getCanvasMarchers Stage.stage
  /\ renderRequests (removeStaticCanvasMarchers Stage.stage) = 2%nat.
Proof.
  assert (W : wellFormed Stage.stage).
  { split; [repeat (constructor; [cbn; intuition discriminate|]); constructor
         |repeat constructor]. }
  destruct (removeStaticCanvasMarchers_removes_the_ghosts Stage.stage W)
    as (_ & G & M & _ & R).
  split; [exact G|]. split; [exact M|exact R].
Defined.

(** X20.  [removePathways] removes the pathways and nothing else.  On a
    canvas whose objects are distinct, the objects after the call are
    the objects before it without the pathways, in the same order: no
    pathway is left, and the live markers and the ghosts are the ones
    there were.  [requestRenderAll] is called once for each pathway
    removed, by [remove], and once at the end. *)
Theorem removePathways_removes_the_pathways (c : t) :
  wellFormed c ->
  let after := removePathways c in
  objects after = filter (fun o => negb (isPathway o)) (objects c)
  /\ getPathways after = []
  /\ getCanvasMarchers after = getCanvasMarchers c
  /\ getStaticCanvasMarchers after = getStaticCanvasMarchers c
  /\ renderRequests after
     = S (renderRequests c + List.length (getPathways c)).
Proof.
  intros W after.
  assert (E : objects after
              = filter (fun o => negb (isPathway o)) (objects c)).
  { unfold after, removePathways, getPathways.
    cbn [requestRenderAll objects]. now apply remove_kind. }
  split; [exact E|].
  unfold getStaticCanvasMarchers, getCanvasMarchers, getPathways.
  rewrite E. repeat split.
  - apply filter_negb_self.
  - apply filter_filter_disjoint.
    intros [n [| m xy | m xy col | a b col]]; cbn; congruence.
  - apply filter_filter_disjoint.
    intros [n [| m xy | m xy col | a b col]]; cbn; congruence.
  - unfold after, removePathways.
    cbn [requestRenderAll renderRequests]. f_equal.
    now apply remove_kind_requests.
Qed.

Lemma removePathways_removes_the_pathways_witness :
  getPathways (removePathways Stage.stage) = []
  /\ getCanvasMarchers (removePathways Stage.stage)
     = getCanvasMarchers Stage.stage
  /\ renderRequests (removePathways Stage.stage) = 2%nat.
Proof.
  assert (W : wellFormed Stage.stage).
  { split; [repeat (constructor; [cbn; intuition discriminate|]); constructor
         |repeat constructor]. }
  destruct (removePathways_removes_the_pathways Stage.stage W)
    as (_ & P & M & _ & R).
  split; [exact P|]. split; [exact M|exact R].
Defined.

(** *** Adding overlays *)

Lemma wellFormed_add (c : t) (k : Kind) : wellFormed c -> wellFormed (add c k).
Proof.
  intros [N B]. unfold wellFormed, add.
  cbn [requestRenderAll with_objects objects nextOid].
  split.
  - rewrite map_app. cbn [map oid]. apply NoDup_app.
    + exact N.
    + repeat constructor. intros [].
    + intros n Hn [<-|[]]. apply in_map_iff in Hn.
      destruct Hn as (o & Eo & Ho). rewrite Forall_forall in B.
      specialize (B o Ho). lia.
  - apply Forall_app. split.
    + eapply Forall_impl; [|exact B]. cbn. intros; lia.
    + constructor; [cbn; lia|constructor].
Qed.

Lemma wellFormed_console_error (c : t) (msg : string) :
  wellFormed c -> wellFormed (console_error c msg).
Proof. intros W. exact W. Qed.

Section Static.
Variable placedStatic : Marcher.t -> MarcherPage.t -> float * float.
Variable color : string.
Variable allMarchers : list Marcher.t.

Lemma static_loop (mps : list MarcherPage.t) (c : t) :
  wellFormed c ->
  let c' := fold_left (renderStaticMarcher placedStatic color allMarchers)
              mps c in
  wellFormed c'
  /\ exists ghosts,
       objects c' = (objects c ++ ghosts)%list
       /\ forallb isStaticCanvasMarcher ghosts = true
       /\ List.length ghosts = List.length (filter (known allMarchers) mps)
       /\ List.length (errors c')
          = (List.length (errors c)
             + List.length
                 (filter (fun mp => negb (known allMarchers mp)) mps))%nat.
Proof.
  revert c. induction mps as [|mp mps IH]; intros c W.
  - cbn. split; [exact W|]. exists []. now rewrite app_nil_r.
  - cbn [fold_left filter]. cbv zeta in *. rewrite (known_find allMarchers mp).
    unfold renderStaticMarcher at 2 4 6.
    destruct (find _ allMarchers) as [m|].
    + destruct (IH (add c (StaticCanvasMarcher m (placedStatic m mp) color))
                  (wellFormed_add _ _ W))
        as (W' & ghosts & E & S & L & R).
      split; [exact W'|].
      eexists. rewrite E. cbn [add requestRenderAll with_objects objects].
      rewrite <- app_assoc. split; [reflexivity|].
      cbn [app forallb isStaticCanvasMarcher kind andb List.length negb].
      rewrite S, L. repeat split. exact R.
    + match goal with
      | |- context [console_error c ?msg] =>
          destruct (IH (console_error c msg)
                      (wellFormed_console_error c msg W))
            as (W' & ghosts & E & S & L & R)
      end.
      split; [exact W'|].
      exists ghosts. rewrite R. cbn [console_error objects errors negb
        List.length] in *. rewrite length_app. cbn [List.length].
      repeat split; try assumption. lia.
Qed.
End Static.

Lemma filter_all {A : Type} (P : A -> bool) (l : list A) :
  forallb P l = true -> filter P l = l.
Proof.
  induction l as [|x l IH]; [reflexivity|].
  cbn [forallb filter]. intros H. apply andb_prop in H. destruct H as [-> H].
  f_equal. auto.
Qed.

Lemma filter_none_of {A : Type} (P Q : A -> bool) (l : list A) :
  (forall x, Q x = true -> P x = false) ->
  forallb Q l = true -> filter P l = [].
Proof.
  intros PQ. induction l as [|x l IH]; [reflexivity|].
  cbn [forallb filter]. intros H. apply andb_prop in H. destruct H as [Qx H].
  rewrite (PQ x Qx). auto.
Qed.

Lemma filter_negb_all {A : Type} (P : A -> bool) (l : list A) :
  forallb P l = true -> filter (fun x => negb (P x)) l = [].
Proof.
  apply filter_none_of. now intros x ->.
Qed.

Lemma filter_negb_none {A : Type} (P : A -> bool) (l : list A) :
  filter P l = [] -> filter (fun x => negb (P x)) l = l.
Proof.
  induction l as [|x l IH]; [reflexivity|].
  cbn [filter]. destruct (P x); [discriminate|].
  cbn [negb]. intros H. f_equal. auto.
Qed.

(** X21.  Showing the ghosts of a page and removing them again.  On a
    canvas whose objects are distinct, [renderStaticMarchers] leaves the
    live markers as they are and adds one ghost for each position given
    whose marcher is in the store; and when the canvas held no ghost
    before, [removeStaticCanvasMarchers] afterwards gives back exactly
    the objects there were. *)
Theorem static_marchers_round_trip
    (placedStatic : Marcher.t -> MarcherPage.t -> float * float)
    (c : t) (color : string) (intendedMarcherPages : list MarcherPage.t)
    (allMarchers : list Marcher.t) :
  wellFormed c ->
  let shown :=
    renderStaticMarchers placedStatic c color intendedMarcherPages
      allMarchers in
  getCanvasMarchers shown = getCanvasMarchers c
  /\ List.length (getStaticCanvasMarchers shown)
     = (List.length (getStaticCanvasMarchers c)
        + List.length (filter (known allMarchers) intendedMarcherPages))%nat
  /\ (getStaticCanvasMarchers c = [] ->
      objects (removeStaticCanvasMarchers shown) = objects c).
Proof.
  intros W shown.
  destruct (static_loop placedStatic color allMarchers intendedMarcherPages
              c W) as (W' & ghosts & E & S & L & _).
  assert (Es : objects shown = (objects c ++ ghosts)%list) by exact E.
  repeat split.
  - unfold getCanvasMarchers.
    rewrite Es, filter_app, (filter_none_of isCanvasMarcher isStaticCanvasMarcher ghosts), app_nil_r;
      [reflexivity| |exact S].
    intros [n [| m xy | m xy col | a b col]]; cbn; congruence.
  - unfold getStaticCanvasMarchers.
    rewrite Es, filter_app, (filter_all isStaticCanvasMarcher ghosts S), length_app.
    now rewrite L.
  - intros Hnone.
    unfold removeStaticCanvasMarchers, getStaticCanvasMarchers.
    cbn [requestRenderAll objects].
    rewrite (remove_kind isStaticCanvasMarcher shown W').
    rewrite Es, filter_app, (filter_negb_all isStaticCanvasMarcher ghosts S), app_nil_r.
    now apply filter_negb_none.
Qed.

Lemma static_marchers_round_trip_witness :
  objects
    (removeStaticCanvasMarchers
       (renderStaticMarchers (placed Scenario.canvasMarcher)
          Scenario.emptyCanvas "rgba(0, 0, 0, 1)" Stage.page2Positions
          Stage.marchers))
  = objects Scenario.emptyCanvas.
Proof.
  assert (W : wellFormed Scenario.emptyCanvas).
  { split; [repeat (constructor; [cbn; intuition discriminate|]); constructor
         |repeat constructor]. }
  destruct (static_marchers_round_trip (placed Scenario.canvasMarcher)
              Scenario.emptyCanvas "rgba(0, 0, 0, 1)" Stage.page2Positions
              Stage.marchers W) as (_ & _ & R).
  apply R. reflexivity.
Defined.

Section Paths.
Variable startPageMarcherPages : list MarcherPage.t.
Variable color : string.

Lemma onPage_find (mp : MarcherPage.t) :
  onPage startPageMarcherPages mp
  = match find (fun marcherPage =>
                  (MarcherPage.marcher_id marcherPage
                   =? MarcherPage.marcher_id mp)%Z)
               startPageMarcherPages with
    | Some _ => true
    | None => false
    end.
Proof.
  unfold onPage. induction startPageMarcherPages as [|m ms IH]; [reflexivity|].
  cbn [existsb find]. now destruct (MarcherPage.marcher_id m =? _)%Z.
Qed.

Lemma joins_more (mp : MarcherPage.t) (mps : list MarcherPage.t)
    (o : Object) :
  joins startPageMarcherPages mps color o ->
  joins startPageMarcherPages (mp :: mps) color o.
Proof.
  unfold joins. destruct (kind o); try tauto. cbn [In]. tauto.
Qed.

Lemma pathway_loop (mps : list MarcherPage.t) (c : t) :
  wellFormed c ->
  let c' := fold_left (renderPathway startPageMarcherPages color) mps c in
  wellFormed c'
  /\ exists paths,
       objects c' = (objects c ++ paths)%list
       /\ forallb isPathway paths = true
       /\ Forall (joins startPageMarcherPages mps color) paths
       /\ List.length paths
          = List.length (filter (onPage startPageMarcherPages) mps).
Proof.
  revert c. induction mps as [|mp mps IH]; intros c W.
  - cbn. split; [exact W|]. exists []. rewrite app_nil_r. auto.
  - cbn [fold_left filter]. cbv zeta in *. rewrite (onPage_find mp).
    unfold renderPathway at 2 4.
    destruct (find _ startPageMarcherPages) as [sel|] eqn:F.
    + destruct (IH (add c (Pathway mp sel color)) (wellFormed_add _ _ W))
        as (W' & paths & E & S & J & L).
      split; [exact W'|].
      eexists. rewrite E. cbn [add requestRenderAll with_objects objects].
      rewrite <- app_assoc. split; [reflexivity|].
      cbn [app forallb isPathway kind andb List.length].
      rewrite S, L. repeat split.
      constructor.
      * apply find_some in F. destruct F as [Hin Hid].
        apply Z.eqb_eq in Hid. unfold joins. cbn. tauto.
      * eapply Forall_impl; [|exact J]. apply joins_more.
    + match goal with
      | |- context [console_error c ?msg] =>
          destruct (IH (console_error c msg)
                      (wellFormed_console_error c msg W))
            as (W' & paths & E & S & J & L)
      end.
      split; [exact W'|]. exists paths. repeat split; try assumption.
      eapply Forall_impl; [|exact J]. apply joins_more.
Qed.
End Paths.

(** X22.  Showing the pathways between two pages and removing them
    again.  On a canvas whose objects are distinct, [renderPathways]
    leaves the live markers as they are and adds, after the pathways
    there were, one pathway for each position of the end page whose
    marcher has a position on the start page; each joins a position of
    the end page to a position of the same marcher on the start page, in
    the colour given.  When the canvas held no pathway before,
    [removePathways] afterwards gives back exactly the objects there
    were. *)
Theorem pathways_round_trip
    (c : t) (startPageMarcherPages endPageMarcherPages : list MarcherPage.t)
    (color : string) :
  wellFormed c ->
  let shown :=
    renderPathways c startPageMarcherPages endPageMarcherPages color in
  (exists paths,
      getPathways shown = (getPathways c ++ paths)%list
      /\ Forall (joins startPageMarcherPages endPageMarcherPages color) paths
      /\ List.length paths
         = List.length
             (filter (onPage startPageMarcherPages) endPageMarcherPages))
  /\ getCanvasMarchers shown = getCanvasMarchers c
  /\ (getPathways c = [] -> objects (removePathways shown) = objects c).
Proof.
  intros W shown.
  destruct (pathway_loop startPageMarcherPages color endPageMarcherPages
              c W) as (W' & paths & E & S & J & L).
  assert (Es : objects shown = (objects c ++ paths)%list) by exact E.
  repeat split.
  - exists paths. unfold getPathways.
    rewrite Es, filter_app, (filter_all isPathway paths S). auto.
  - unfold getCanvasMarchers.
    rewrite Es, filter_app, (filter_none_of isCanvasMarcher isPathway paths), app_nil_r;
      [reflexivity| |exact S].
    intros [n [| m xy | m xy col | a b col]]; cbn; congruence.
  - intros Hnone.
    unfold removePathways, getPathways.
    cbn [requestRenderAll objects].
    rewrite (remove_kind isPathway shown W').
    rewrite Es, filter_app, (filter_negb_all isPathway paths S), app_nil_r.
    now apply filter_negb_none.
Qed.

Lemma pathways_round_trip_witness :
  objects
    (removePathways
       (renderPathways Scenario.emptyCanvas Stage.page1Positions
          Stage.page2Positions "black"))
  = objects Scenario.emptyCanvas.
Proof.
  assert (W : wellFormed Scenario.emptyCanvas).
  { split; [repeat (constructor; [cbn; intuition discriminate|]); constructor
         |repeat constructor]. }
  destruct (pathways_round_trip Scenario.emptyCanvas Stage.page1Positions
              Stage.page2Positions "black" W) as (_ & _ & R).
  apply R. reflexivity.
Defined.

(** *** Stacking *)

Lemma filter_oid_self (objs : list Object) (m : Object) :
  NoDup (map oid objs) -> In m objs ->
  filter (fun o => (oid o =? oid m)%nat) objs = [m].
Proof.
  induction objs as [|x xs IH]; intros N Hm; [destruct Hm|].
  cbn [map] in N. inversion N as [|? ? Hnot N']; subst.
  cbn [filter]. destruct Hm as [->|Hm].
  - rewrite Nat.eqb_refl. f_equal.
    destruct (filter _ xs) as [|y ys] eqn:E; [reflexivity|].
    exfalso. assert (Hy : In y (filter (fun o => (oid o =? oid m)%nat) xs))
      by (rewrite E; now left).
    apply filter_In in Hy. destruct Hy as [Hy Ey]. apply Nat.eqb_eq in Ey.
    apply Hnot. rewrite <- Ey. now apply in_map.
  - destruct (oid x =? oid m)%nat eqn:E; [|auto].
    exfalso. apply Nat.eqb_eq in E. apply Hnot. rewrite E. now apply in_map.
Qed.

Lemma front_loop (targets : list Object) (c : t) :
  NoDup (map oid (objects c)) -> NoDup (map oid targets) ->
  (forall o, In o targets -> In o (objects c)) ->
  objects (fold_left (fun c o => bringToFront c (oid o)) targets c)
  = (filter (fun x => negb (existsb (fun o => (oid x =? oid o)%nat) targets))
       (objects c)
     ++ targets)%list.
Proof.
  revert c. induction targets as [|m ms IH]; intros c N Nt Sub.
  - cbn [fold_left existsb negb]. rewrite app_nil_r.
    symmetry. apply filter_everything.
  - cbn [map] in Nt. inversion Nt as [|? ? Hnot Nt']; subst.
    assert (Hm : In m (objects c)) by (apply Sub; now left).
    assert (E1 : objects (bringToFront c (oid m))
                 = (filter (fun o => negb (oid o =? oid m)%nat) (objects c)
                    ++ [m])%list).
    { unfold bringToFront. cbn [requestRenderAll with_objects objects].
      now rewrite filter_oid_self. }
    cbn [fold_left]. rewrite IH; try assumption.
    + rewrite E1, filter_app. cbn [filter].
      replace (existsb (fun o => (oid m =? oid o)%nat) ms) with false.
      * cbn [negb]. rewrite <- app_assoc. cbn [app]. f_equal.
        clear. induction (objects c) as [|x xs IHx]; [reflexivity|].
        cbn [filter existsb].
        destruct (oid x =? oid m)%nat; cbn [negb orb filter]; [exact IHx|].
        destruct (existsb _ ms); cbn [negb]; now rewrite IHx.
      * symmetry. destruct (existsb _ ms) eqn:E; [|reflexivity].
        exfalso. apply existsb_exists in E. destruct E as (o & Ho & Eo).
        apply Nat.eqb_eq in Eo. apply Hnot. rewrite Eo. now apply in_map.
    + rewrite E1, map_app. cbn [map]. apply NoDup_app.
      * now apply NoDup_oid_filter.
      * repeat constructor. intros [].
      * intros n Hn [<-|[]]. apply in_map_iff in Hn.
        destruct Hn as (o & Eo & Ho). apply filter_In in Ho.
        destruct Ho as [_ Ho]. rewrite Eo, Nat.eqb_refl in Ho. discriminate.
    + intros o Ho. rewrite E1. apply in_or_app. left. apply filter_In.
      split; [apply Sub; now right|].
      destruct (oid o =? oid m)%nat eqn:E; [|reflexivity].
      exfalso. apply Nat.eqb_eq in E. apply Hnot. rewrite <- E.
      now apply in_map.
Qed.

(** X23.  [sendCanvasMarchersToFront] stacks the markers on top.  On a
    canvas whose objects are distinct, the objects after the call are
    all the objects that are not live markers, in their order, followed
    by all the live markers, in their order: every marker is drawn over
    every ghost, pathway and grid, and nothing is added or lost. *)
Theorem sendCanvasMarchersToFront_puts_markers_on_top (c : t) :
  wellFormed c ->
  objects (sendCanvasMarchersToFront c)
  = (filter (fun o => negb (isCanvasMarcher o)) (objects c)
     ++ getCanvasMarchers c)%list.
Proof.
  intros [N _]. unfold sendCanvasMarchersToFront, getCanvasMarchers.
  rewrite front_loop.
  - f_equal. apply filter_ext_in. intros x Hx. now rewrite selected_by_oid.
  - exact N.
  - now apply NoDup_oid_filter.
  - intros o Ho. apply filter_In in Ho. tauto.
Qed.

Lemma sendCanvasMarchersToFront_puts_markers_on_top_witness :
  map oid (objects (sendCanvasMarchersToFront Stage.stage)) = [0; 2; 3; 1; 4].
Proof.
  assert (W : wellFormed Stage.stage).
  { split; [repeat (constructor; [cbn; intuition discriminate|]); constructor
         |repeat constructor]. }
  rewrite (sendCanvasMarchersToFront_puts_markers_on_top Stage.stage W).
  reflexivity.
Defined.

End OverlayFacts.

(** ** The end of a zoom *)

Module WheelFacts.

Import Canvas.

Section Burst.
Variable pow : float -> float -> float.

Lemma handleMouseWheel_frame (c : t) (e : WheelEvent) :
  let c' := fst (handleMouseWheel pow c e) in
  staticGridCaching c' = true
  /\ zoomTimeout c' = Some (nextTimer c)
  /\ nextTimer c' = S (nextTimer c)
  /\ objects c' = objects c
  /\ renderRequests c' = S (renderRequests c)
  /\ renders c' = renders c
  /\ errors c' = errors c.
Proof.
  unfold handleMouseWheel. destruct (staticGridCaching c) eqn:E; cbn;
    rewrite ?E; cbn; tauto.
Qed.

Lemma wheelEvents_frame (es : list WheelEvent) (c : t) :
  let c' := wheelEvents pow c es in
  nextTimer c' = (nextTimer c + List.length es)%nat
  /\ objects c' = objects c
  /\ renderRequests c' = (renderRequests c + List.length es)%nat
  /\ renders c' = renders c
  /\ errors c' = errors c.
Proof.
  revert c. induction es as [|e es IH]; intros c.
  - cbn. rewrite !Nat.add_0_r. tauto.
  - unfold wheelEvents in *. cbn [fold_left]. cbv zeta in *.
    destruct (IH (fst (handleMouseWheel pow c e)))
      as (-> & -> & -> & -> & ->).
    destruct (handleMouseWheel_frame c e)
      as (_ & _ & -> & -> & -> & -> & ->).
    cbn [List.length]. repeat split; lia.
Qed.
End Burst.

(** X24.  A burst of wheel events ends in one redraw.  After one or
    more wheel events the grid is cached, exactly the timer set by the
    last event is pending and the objects of the canvas are the ones
    there were; [requestRenderAll] has been called once for each event,
    by [zoomToPoint], and [renderAll] not at all.  When that timer
    fires, the caching is switched off and [renderAll] is called once,
    with no further [requestRenderAll], the zoom staying what the burst
    made it; if a timer fires again without a wheel event in between,
    nothing happens. *)
Theorem wheel_burst_redraws_once (pow : float -> float -> float) (c : t)
    (es : list WheelEvent) (e : WheelEvent) :
  let zoomed := wheelEvents pow c (es ++ [e]) in
  let settled := zoomTimeoutFires zoomed in
  (staticGridCaching zoomed = true
   /\ zoomTimeout zoomed = Some (nextTimer c + List.length es)%nat
   /\ objects zoomed = objects c
   /\ renderRequests zoomed = (renderRequests c + S (List.length es))%nat
   /\ renders zoomed = renders c)
  /\ (staticGridCaching settled = false
      /\ renders settled = S (renders c)
      /\ renderRequests settled = renderRequests zoomed
      /\ zoom settled = zoom zoomed
      /\ objects settled = objects c)
  /\ zoomTimeoutFires settled = settled.
Proof.
  intros zoomed settled.
  assert (Z : zoomed = fst (handleMouseWheel pow (wheelEvents pow c es) e)).
  { unfold zoomed, wheelEvents. now rewrite fold_left_app. }
  destruct (wheelEvents_frame pow es c) as (T & O & R & D & _).
  destruct (handleMouseWheel_frame pow (wheelEvents pow c es) e)
    as (C & TO & _ & O' & R' & D' & _).
  rewrite <- Z in C, TO, O', R', D'.
  assert (S : settled = renderAll (set_objectCaching zoomed false)).
  { unfold settled, zoomTimeoutFires. now rewrite C. }
  split; [|split].
  - split; [exact C|]. split; [rewrite TO; now rewrite T|].
    split; [congruence|]. split; [|congruence].
    rewrite R', R. lia.
  - rewrite S. cbn [renderAll set_objectCaching staticGridCaching renders
                      renderRequests zoom objects].
    split; [reflexivity|]. split; [congruence|]. split; [reflexivity|].
    split; [reflexivity|congruence].
  - rewrite S. reflexivity.
Qed.

End WheelFacts.
